(** * elm-protobuf: the descriptor-to-model compiler of protoc-gen-elm

    A shallow embedding of [cmd/protoc-gen-elm/main.go] and of the [elm]
    package (naming, field classification, templates), followed by the
    properties of the model that the specification states.

    Go strings are byte sequences and are modelled by [string]; Go's [int]
    and [int32] values are modelled by [Z] (no computation here leaves the
    [int32] range by more than one, so no wrap-around occurs); a run-time
    panic is an explicit [Panic] result. *)

From Stdlib Require Import ZArith Ascii DecimalString.
From stdpp Require Import base option list sorting gmap strings.

Local Open Scope Z_scope.

(** ** Panics

    The Go code has no [recover]: a panic raised anywhere below [main]
    terminates the process.  The three ways the code can panic are kept
    apart. *)

Inductive panic : Type :=
| IndexOutOfRange (index len : Z)
| SliceBoundsOutOfRange (high len : Z)
| ErrorGenerating (what : string) (kind : Z).

Inductive result (A : Type) : Type :=
| Ok (a : A)
| Panic (e : panic).

Arguments Ok {A} a.
Arguments Panic {A} e.

#[global] Instance result_ret : MRet result := fun _ a => Ok a.

#[global] Instance result_bind : MBind result := fun _ _ f m =>
  match m with
  | Ok a => f a
  | Panic e => Panic e
  end.

#[global] Instance result_fmap : FMap result := fun _ _ f m =>
  match m with
  | Ok a => Ok (f a)
  | Panic e => Panic e
  end.

Definition returns {A} (m : result A) : bool :=
  match m with Ok _ => true | Panic _ => false end.

Definition panics {A} (m : result A) : bool := negb (returns m).

(** [l[i]] on a Go slice. *)
Definition index {A} (l : list A) (i : Z) : result A :=
  if (i <? 0) || (Z.of_nat (length l) <=? i)
  then Panic (IndexOutOfRange i (Z.of_nat (length l)))
  else match l !! Z.to_nat i with
       | Some x => Ok x
       | None => Panic (IndexOutOfRange i (Z.of_nat (length l)))
       end.

(** [foldM]: a [for ... range] loop whose body may panic. *)
Fixpoint foldM {A B} (f : B -> A -> result B) (acc : B) (l : list A) : result B :=
  match l with
  | [] => Ok acc
  | x :: rest => acc' ← f acc x; foldM f acc' rest
  end.

(** ** Go's [strings], [unicode] and [path/filepath] *)

(** Go's case mappings and [unicode.IsLower] consult the Unicode tables
    once a byte outside ASCII is met.  The tables are not part of the
    program; they are taken as given. *)
Class UnicodeTables := {
  (** [strings.Map(unicode.ToLower, s)] for a string with a non-ASCII byte *)
  unicode_ToLower : string -> string;
  (** [unicode.IsLower] of the first rune of a string that starts with a
      non-ASCII byte *)
  unicode_IsLower : string -> bool
}.

Module GoStrings.

Definition byte (c : ascii) : Z := Z.of_N (Stdlib.Strings.Ascii.N_of_ascii c).

Definition isLowerByte (c : ascii) : bool := (97 <=? byte c) && (byte c <=? 122).
Definition isUpperByte (c : ascii) : bool := (65 <=? byte c) && (byte c <=? 90).

Definition upperByte (c : ascii) : ascii :=
  if isLowerByte c then Stdlib.Strings.Ascii.ascii_of_N (Z.to_N (byte c - 32)) else c.
Definition lowerByte (c : ascii) : ascii :=
  if isUpperByte c then Stdlib.Strings.Ascii.ascii_of_N (Z.to_N (byte c + 32)) else c.

Fixpoint isASCII (s : string) : bool :=
  match s with
  | EmptyString => true
  | String c s' => (byte c <? 128) && isASCII s'
  end.

Fixpoint mapBytes (f : ascii -> ascii) (s : string) : string :=
  match s with
  | EmptyString => EmptyString
  | String c s' => String (f c) (mapBytes f s')
  end.

Definition ToLower `{UnicodeTables} (s : string) : string :=
  if isASCII s then mapBytes lowerByte s else unicode_ToLower s.

(** [strings.ToUpper] of a string of at most one byte, the only use the
    program makes of it.  A lone byte above 0x7F is not valid UTF-8:
    [strings.Map] writes the replacement rune U+FFFD in its place. *)
Definition ToUpper1 (s : string) : string :=
  match s with
  | EmptyString => EmptyString
  | String c _ =>
      if byte c <? 128 then String (upperByte c) EmptyString
      else String (Stdlib.Strings.Ascii.ascii_of_N 239)
             (String (Stdlib.Strings.Ascii.ascii_of_N 191)
                (String (Stdlib.Strings.Ascii.ascii_of_N 189) EmptyString))
  end.

Fixpoint Join (elems : list string) (sep : string) : string :=
  match elems with
  | [] => ""
  | x :: rest =>
      match rest with
      | [] => x
      | _ :: _ => x +:+ sep +:+ Join rest sep
      end
  end.

(** [strings.Split(s, sep)] for a separator of one byte; every call of
    the program passes such a literal. *)
Fixpoint Split (s : string) (sep : ascii) : list string :=
  match s with
  | EmptyString => [""]
  | String c s' =>
      if Stdlib.Strings.Ascii.eqb c sep then "" :: Split s' sep
      else match Split s' sep with
           | [] => [String c ""]
           | w :: ws => String c w :: ws
           end
  end.

(** [strings.Replace(s, old, new, -1)] for [old] of one byte. *)
Fixpoint Replace (s : string) (old : ascii) (new : string) : string :=
  match s with
  | EmptyString => EmptyString
  | String c s' =>
      if Stdlib.Strings.Ascii.eqb c old then new +:+ Replace s' old new
      else String c (Replace s' old new)
  end.

Definition HasSuffix (s suffix : string) : bool :=
  let n := String.length s in
  let m := String.length suffix in
  (m <=? n)%nat && String.eqb (String.substring (n - m) m s) suffix.

Definition TrimSuffix (s suffix : string) : string :=
  if HasSuffix s suffix
  then String.substring 0 (String.length s - String.length suffix) s
  else s.

(** [fmt.Sprintf("%d", n)] *)
Definition itoa (n : Z) : string := NilZero.string_of_int (Z.to_int n).

(** [filepath.Split]: the path is cut right after its last separator. *)
Fixpoint filepath_Split (path : string) : string * string :=
  match path with
  | EmptyString => (EmptyString, EmptyString)
  | String c rest =>
      let '(dir, file) := filepath_Split rest in
      if Stdlib.Strings.Ascii.eqb c "/" then (String c dir, file)
      else match dir with
           | EmptyString => (EmptyString, String c file)
           | _ => (String c dir, file)
           end
  end.

End GoStrings.


(** ** Package [stringextras]

    [main.go] and the [elm] package import the repository's own package
    [pkg/stringextras]; its four functions are an interface of the
    development. *)
Class StringExtras := {
  CamelCase : string -> string;
  LowerCamelCase : string -> string;
  FirstUpper : string -> string;
  FirstLower : string -> string
}.

(** Modelled from the spec: the bodies of [stringextras.FirstUpper],
    [FirstLower], [CamelCase] and [LowerCamelCase] are not among the source
    files.  The specification says of them that names are converted "to
    the target casing convention" and that the result "starts with the
    casing required for a type (upper) or a variable (lower)": the first
    byte is put in the required case, and camel casing drops each
    underscore and capitalises the word that follows it. *)
Definition specFirstUpper (s : string) : string :=
  match s with
  | EmptyString => EmptyString
  | String c s' => String (GoStrings.upperByte c) s'
  end.

Definition specFirstLower (s : string) : string :=
  match s with
  | EmptyString => EmptyString
  | String c s' => String (GoStrings.lowerByte c) s'
  end.

Definition specCamelCase (s : string) : string :=
  GoStrings.Join (map specFirstUpper (GoStrings.Split s "_")) "".

Definition specStringExtras : StringExtras := {|
  CamelCase := specCamelCase;
  LowerCamelCase := fun s => specFirstLower (specCamelCase s);
  FirstUpper := specFirstUpper;
  FirstLower := specFirstLower
|}.

(** Unicode tables for inputs that stay within ASCII: the two functions
    are never consulted on such inputs. *)
Definition asciiTables : UnicodeTables := {|
  unicode_ToLower := fun s => s;
  unicode_IsLower := fun _ => false
|}.

(** ** [descriptorpb]: the schema descriptors

    The generated getters ([GetName], [GetNumber], ...) return the zero
    value on a nil pointer; the program reads these fields through the
    getters only, so the records hold the getters' values.  [OneofIndex],
    [Options] and [Deprecated] are tested against nil and stay options. *)
Module descriptorpb.

(** [FieldDescriptorProto_Type], an [int32] *)
Abbreviation TYPE_DOUBLE := 1 (only parsing).
Abbreviation TYPE_FLOAT := 2 (only parsing).
Abbreviation TYPE_INT64 := 3 (only parsing).
Abbreviation TYPE_UINT64 := 4 (only parsing).
Abbreviation TYPE_INT32 := 5 (only parsing).
Abbreviation TYPE_FIXED64 := 6 (only parsing).
Abbreviation TYPE_FIXED32 := 7 (only parsing).
Abbreviation TYPE_BOOL := 8 (only parsing).
Abbreviation TYPE_STRING := 9 (only parsing).
Abbreviation TYPE_GROUP := 10 (only parsing).
Abbreviation TYPE_MESSAGE := 11 (only parsing).
Abbreviation TYPE_BYTES := 12 (only parsing).
Abbreviation TYPE_UINT32 := 13 (only parsing).
Abbreviation TYPE_ENUM := 14 (only parsing).
Abbreviation TYPE_SFIXED32 := 15 (only parsing).
Abbreviation TYPE_SFIXED64 := 16 (only parsing).
Abbreviation TYPE_SINT32 := 17 (only parsing).
Abbreviation TYPE_SINT64 := 18 (only parsing).

(** [FieldDescriptorProto_Label], an [int32] *)
Abbreviation LABEL_OPTIONAL := 1 (only parsing).
Abbreviation LABEL_REQUIRED := 2 (only parsing).
Abbreviation LABEL_REPEATED := 3 (only parsing).

Record FieldOptions := { FieldOptions_Deprecated : option bool }.
Record EnumOptions := { EnumOptions_Deprecated : option bool }.
Record EnumValueOptions := { EnumValueOptions_Deprecated : option bool }.
Record MessageOptions := {
  MessageOptions_Deprecated : option bool;
  MessageOptions_MapEntry : option bool
}.

Record FieldDescriptorProto := {
  field_Name : string;
  field_Number : Z;
  field_Label : Z;
  field_Type : Z;
  field_TypeName : string;
  field_DefaultValue : string;
  field_OneofIndex : option Z;
  field_Options : option FieldOptions
}.

Record OneofDescriptorProto := { oneof_Name : string }.

Record EnumValueDescriptorProto := {
  value_Name : string;
  value_Number : Z;
  value_Options : option EnumValueOptions
}.

Record EnumDescriptorProto := {
  enum_Name : string;
  enum_Value : list EnumValueDescriptorProto;
  enum_Options : option EnumOptions
}.

Inductive DescriptorProto := Build_DescriptorProto {
  msg_Name : string;
  msg_Field : list FieldDescriptorProto;
  msg_NestedType : list DescriptorProto;
  msg_EnumType : list EnumDescriptorProto;
  msg_OneofDecl : list OneofDescriptorProto;
  msg_Options : option MessageOptions
}.

Record FileDescriptorProto := {
  file_Name : string;
  file_Dependency : list string;
  file_MessageType : list DescriptorProto;
  file_EnumType : list EnumDescriptorProto
}.

(** [m.GetOptions().GetMapEntry()] *)
Definition GetMapEntry (o : option MessageOptions) : bool :=
  match o with
  | Some v => default false (MessageOptions_MapEntry v)
  | None => false
  end.

End descriptorpb.
Export descriptorpb.

(** ** Package [elm]: names, field classification *)
Module elm.
Section WithExtras.
Context `{StringExtras} `{UnicodeTables}.

(** [Type], [VariableName], [VariantName], [FieldDecoder] and
    [FieldEncoder] are Go string types. *)
Definition ElmType := string.
Definition VariableName := string.
Definition VariantName := string.
Definition FieldDecoder := string.
Definition FieldEncoder := string.
Definition ProtobufFieldNumber := Z.

Definition intType : ElmType := "Int".
Definition floatType : ElmType := "Float".
Definition stringType : ElmType := "String".
Definition bytesType : ElmType := "Bytes".
Definition boolType : ElmType := "Bool".

Record WellKnownType := {
  wkt_Type : ElmType;
  wkt_Encoder : VariableName;
  wkt_Decoder : VariableName
}.

Definition WellKnownTypeMap : gmap string WellKnownType :=
  list_to_map [
    (".google.protobuf.Timestamp",
      {| wkt_Type := "Timestamp"; wkt_Decoder := "timestampDecoder"; wkt_Encoder := "timestampEncoder" |});
    (".google.protobuf.Int32Value",
      {| wkt_Type := intType; wkt_Decoder := "intValueDecoder"; wkt_Encoder := "intValueEncoder" |});
    (".google.protobuf.Int64Value",
      {| wkt_Type := intType; wkt_Decoder := "intValueDecoder"; wkt_Encoder := "numericStringEncoder" |});
    (".google.protobuf.UInt32Value",
      {| wkt_Type := intType; wkt_Decoder := "intValueDecoder"; wkt_Encoder := "intValueEncoder" |});
    (".google.protobuf.UInt64Value",
      {| wkt_Type := intType; wkt_Decoder := "intValueDecoder"; wkt_Encoder := "numericStringEncoder" |});
    (".google.protobuf.DoubleValue",
      {| wkt_Type := floatType; wkt_Decoder := "floatValueDecoder"; wkt_Encoder := "floatValueEncoder" |});
    (".google.protobuf.FloatValue",
      {| wkt_Type := floatType; wkt_Decoder := "floatValueDecoder"; wkt_Encoder := "floatValueEncoder" |});
    (".google.protobuf.StringValue",
      {| wkt_Type := stringType; wkt_Decoder := "stringValueDecoder"; wkt_Encoder := "stringValueEncoder" |});
    (".google.protobuf.BytesValue",
      {| wkt_Type := bytesType; wkt_Decoder := "bytesValueDecoder"; wkt_Encoder := "bytesValueEncoder" |});
    (".google.protobuf.BoolValue",
      {| wkt_Type := boolType; wkt_Decoder := "boolValueDecoder"; wkt_Encoder := "boolValueEncoder" |})
  ].

Definition reservedKeywords : gmap string bool :=
  list_to_map (map (fun k => (k, true))
    ["module"; "exposing"; "import"; "type"; "let"; "in"; "if"; "then";
     "else"; "where"; "case"; "of"; "port"; "as"]).

Record TypeAliasField := {
  taf_Name : VariableName;
  taf_Type : ElmType;
  taf_Number : ProtobufFieldNumber;
  taf_Default : string;
  taf_Decoder : FieldDecoder;
  taf_Encoder : FieldEncoder
}.

Record TypeAlias := {
  ta_Name : ElmType;
  ta_Decoder : VariableName;
  ta_Encoder : VariableName;
  ta_FieldEncoders : list TypeAliasField;
  ta_Fields : list TypeAliasField
}.

Record EnumVariant := {
  ev_Name : VariantName;
  ev_Value : ProtobufFieldNumber
}.

Record EnumCustomType := {
  ect_Name : ElmType;
  ect_Decoder : VariableName;
  ect_Encoder : VariableName;
  ect_DefaultVariantVariable : VariableName;
  ect_DefaultVariantValue : VariantName;
  ect_Variants : list EnumVariant
}.

Record OneOfVariant := {
  ov_Name : VariantName;
  ov_Type : ElmType;
  ov_Num : ProtobufFieldNumber;
  ov_Decoder : VariableName;
  ov_Encoder : VariableName
}.

Record OneOfCustomType := {
  oct_Name : ElmType;
  oct_Decoder : VariableName;
  oct_Encoder : VariableName;
  oct_Variants : list OneOfVariant
}.

Definition avoidCollision (in_ : string) : string :=
  if default false (reservedKeywords !! in_) then in_ +:+ "_" else in_.

Definition jsIdx (i : ProtobufFieldNumber) : Z := i - 1.

Definition FieldName (in_ : string) : VariableName :=
  avoidCollision (LowerCamelCase in_).

Definition FieldNum (pb : FieldDescriptorProto) : ProtobufFieldNumber :=
  field_Number pb.

Definition DecoderName (t : ElmType) : VariableName :=
  FirstLower (t +:+ "PortDecoder").

Definition EncoderName (t : ElmType) : VariableName :=
  FirstLower (t +:+ "PortEncoder").

(** [append(preface, x)] never changes what [preface] shows to its other
    holders: the element is written past the slice's length. *)
Definition NestedType (name : string) (preface : list string) : ElmType :=
  let fullName := GoStrings.Join (preface ++ [CamelCase name]) "_" in
  FirstUpper fullName.

Definition NestedVariantName (name : string) (preface : list string) : VariantName :=
  GoStrings.Join (preface ++ [CamelCase (GoStrings.ToLower name)]) "_".

Definition EnumDefaultVariantVariableName (t : ElmType) : VariableName :=
  FirstLower (t +:+ "Default").

(** [!unicode.IsLower(r)] for the first rune [r] of a non-empty [s] *)
Definition firstRuneIsLower (s : string) : bool :=
  match s with
  | EmptyString => false
  | String c _ =>
      if GoStrings.byte c <? 128 then GoStrings.isLowerByte c else unicode_IsLower s
  end.

Definition ExternalType (inType : string) : ElmType :=
  let messageSegments :=
    foldl (fun segs s =>
             if String.eqb s "" then segs
             else if negb (firstRuneIsLower s) then segs ++ [FirstUpper s]
             else segs)
          [] (GoStrings.Split inType ".") in
  GoStrings.Join messageSegments "_".

Definition BasicFieldEncoder (inField : FieldDescriptorProto) : result VariableName :=
  match field_Type inField with
  | TYPE_INT32 | TYPE_UINT32 | TYPE_SINT32 | TYPE_FIXED32 | TYPE_SFIXED32 =>
      Ok "JE.int"
  | TYPE_INT64 | TYPE_UINT64 | TYPE_SINT64 | TYPE_FIXED64 | TYPE_SFIXED64 =>
      Ok "numericStringEncoder"
  | TYPE_FLOAT | TYPE_DOUBLE =>
      Ok "JE.float"
  | TYPE_BOOL =>
      Ok "JE.bool"
  | TYPE_STRING =>
      Ok "JE.string"
  | TYPE_ENUM | TYPE_MESSAGE =>
      match WellKnownTypeMap !! field_TypeName inField with
      | Some n => Ok (wkt_Encoder n)
      | None => Ok (EncoderName (ExternalType (field_TypeName inField)))
      end
  | TYPE_BYTES =>
      Ok "bytesFieldEncoder"
  | t => Panic (ErrorGenerating "Error generating decoder for field" t)
  end.

Definition BasicFieldDecoder (inField : FieldDescriptorProto) : result VariableName :=
  match field_Type inField with
  | TYPE_INT32 | TYPE_INT64 | TYPE_UINT32 | TYPE_UINT64 | TYPE_SINT32
  | TYPE_SINT64 | TYPE_FIXED32 | TYPE_FIXED64 | TYPE_SFIXED32 | TYPE_SFIXED64 =>
      Ok "intDecoder"
  | TYPE_FLOAT | TYPE_DOUBLE =>
      Ok "JD.float"
  | TYPE_BOOL =>
      Ok "JD.bool"
  | TYPE_STRING =>
      Ok "JD.string"
  | TYPE_BYTES =>
      Ok "bytesFieldDecoder"
  | TYPE_ENUM | TYPE_MESSAGE =>
      match WellKnownTypeMap !! field_TypeName inField with
      | Some n => Ok (wkt_Decoder n)
      | None => Ok (DecoderName (ExternalType (field_TypeName inField)))
      end
  | t => Panic (ErrorGenerating "error generating decoder for field" t)
  end.

Definition BasicFieldType (inField : FieldDescriptorProto) : result ElmType :=
  match field_Type inField with
  | TYPE_INT32 | TYPE_INT64 | TYPE_UINT32 | TYPE_UINT64 | TYPE_SINT32
  | TYPE_SINT64 | TYPE_FIXED32 | TYPE_FIXED64 | TYPE_SFIXED32 | TYPE_SFIXED64 =>
      Ok intType
  | TYPE_FLOAT | TYPE_DOUBLE =>
      Ok floatType
  | TYPE_BOOL =>
      Ok boolType
  | TYPE_STRING =>
      Ok stringType
  | TYPE_BYTES =>
      Ok bytesType
  | TYPE_ENUM | TYPE_MESSAGE =>
      match WellKnownTypeMap !! field_TypeName inField with
      | Some n => Ok (wkt_Type n)
      | None => Ok (ExternalType (field_TypeName inField))
      end
  | t => Panic (ErrorGenerating "Error generating type for field" t)
  end.

(** The double quote, which Go writes as an escaped character. *)
Definition dquote : string := String (Stdlib.Strings.Ascii.ascii_of_N 34) EmptyString.

Definition BasicFieldDefaultValue (inField : FieldDescriptorProto) : result string :=
  if field_Label inField =? LABEL_REPEATED then Ok "[]"
  else
    match field_Type inField with
    | TYPE_INT32 | TYPE_INT64 | TYPE_UINT32 | TYPE_UINT64 | TYPE_SINT32
    | TYPE_SINT64 | TYPE_FIXED32 | TYPE_FIXED64 | TYPE_SFIXED32 | TYPE_SFIXED64
    | TYPE_FLOAT | TYPE_DOUBLE =>
        Ok "0"
    | TYPE_BOOL =>
        Ok "False"
    | TYPE_STRING =>
        Ok (dquote +:+ dquote)
    | TYPE_BYTES =>
        Ok "[]"
    | TYPE_ENUM =>
        Ok (EnumDefaultVariantVariableName (ExternalType (field_TypeName inField)))
    | TYPE_MESSAGE =>
        Ok "Nothing"
    | t => Panic (ErrorGenerating "error - no known default value for field" t)
    end.

Definition RequiredFieldEncoder (pb : FieldDescriptorProto) : result FieldEncoder :=
  enc ← BasicFieldEncoder pb;
  Ok (enc +:+ " v." +:+ FieldName (field_Name pb)).

Definition RequiredFieldDecoder (pb : FieldDescriptorProto) : result FieldDecoder :=
  dec ← BasicFieldDecoder pb;
  def ← BasicFieldDefaultValue pb;
  Ok ("idxWithDefault " +:+ GoStrings.itoa (jsIdx (FieldNum pb)) +:+ " " +:+ dec +:+ " " +:+ def).

Definition OneOfEncoder (oneof : OneofDescriptorProto) (field : FieldDescriptorProto)
    (t : ElmType) : FieldEncoder :=
  EncoderName t +:+ " " +:+ GoStrings.itoa (FieldNum field) +:+ " v." +:+ FieldName (oneof_Name oneof).

Definition OneOfDecoder (pb : OneofDescriptorProto) (t : ElmType) : FieldDecoder :=
  "custom " +:+ DecoderName t.

Definition MapType (messagePb : DescriptorProto) : result ElmType :=
  keyField ← index (msg_Field messagePb) 0;
  valueField ← index (msg_Field messagePb) 1;
  k ← BasicFieldType keyField;
  v ← BasicFieldType valueField;
  Ok ("Dict.Dict " +:+ k +:+ " " +:+ v).

Definition MapEncoder (fieldPb : FieldDescriptorProto) (messagePb : DescriptorProto)
    : result FieldEncoder :=
  valueField ← index (msg_Field messagePb) 1;
  enc ← BasicFieldEncoder valueField;
  Ok ("mapEntriesFieldEncoder " +:+ GoStrings.itoa (FieldNum fieldPb) +:+ " " +:+ enc
        +:+ " v." +:+ FieldName (field_Name fieldPb)).

Definition MapDecoder (fieldPb : FieldDescriptorProto) (messagePb : DescriptorProto)
    : result FieldDecoder :=
  valueField ← index (msg_Field messagePb) 1;
  dec ← BasicFieldDecoder valueField;
  Ok ("mapEntries " +:+ GoStrings.itoa (FieldNum fieldPb) +:+ " " +:+ dec).

Definition MaybeType (t : ElmType) : ElmType := "Maybe " +:+ t.

Definition MaybeEncoder (pb : FieldDescriptorProto) : result FieldEncoder :=
  enc ← BasicFieldEncoder pb;
  Ok ("maybeEncoder " +:+ enc +:+ " v." +:+ FieldName (field_Name pb)).

Definition MaybeDecoder (pb : FieldDescriptorProto) : result FieldDecoder :=
  dec ← BasicFieldDecoder pb;
  Ok ("idxWithDefault " +:+ GoStrings.itoa (jsIdx (FieldNum pb)) +:+ " (JD.maybe " +:+ dec +:+ ") Nothing").

Definition ListType (t : ElmType) : ElmType := "List " +:+ t.

Definition ListEncoder (pb : FieldDescriptorProto) : result FieldEncoder :=
  enc ← BasicFieldEncoder pb;
  Ok ("JE.list " +:+ enc +:+ " v." +:+ FieldName (field_Name pb)).

Definition ListDecoder (pb : FieldDescriptorProto) : result FieldDecoder :=
  dec ← BasicFieldDecoder pb;
  Ok ("idxWithDefault " +:+ GoStrings.itoa (jsIdx (FieldNum pb)) +:+ " (JD.list " +:+ dec +:+ ") []").

Definition OneOfType (in_ : ElmType) : ElmType := in_.

End WithExtras.
End elm.
Export elm.

(** ** The templates

    The text templates of [templateFile], [TypeAliasTemplate] and
    [OneOfCustomTypeTemplate] are modelled by the sequence of expressions
    they emit; the layout (line breaks, indentation) is left out. *)

(** The template functions registered by [templateFile]. *)
Definition fieldSeq (from : Z) (to : ProtobufFieldNumber) : list Z :=
  seqZ from (to - from).

Definition nextFieldNum (n : ProtobufFieldNumber) : Z := n + 1.

Definition toJSIdx (n : ProtobufFieldNumber) : Z := n - 1.

(** An element of the list the generated message encoder passes to
    [valueList]: [JE.null] or a parenthesised field encoder, after a comma
    unless the template leaves it out. *)
Inductive EncoderExpr : Type :=
| JE_null
| EncoderCall (e : FieldEncoder).

Record ListItem := {
  item_comma : bool;
  item_expr : EncoderExpr
}.

(** The body of [range $i, $v := .FieldEncoders] in the "type-alias"
    template, [idx] being the template variable [$idx]. *)
Fixpoint encoderItems (idx : Z) (fieldEncoders : list TypeAliasField) : list ListItem :=
  match fieldEncoders with
  | [] => []
  | v :: rest =>
      map (fun i => {| item_comma := negb (i =? 1); item_expr := JE_null |})
          (fieldSeq idx (taf_Number v))
      ++ {| item_comma := negb (taf_Number v =? 1);
            item_expr := EncoderCall (taf_Encoder v) |}
      :: encoderItems (nextFieldNum (taf_Number v)) rest
  end.

(** The encode-side plan of a message: [$idx := 1], then the loop. *)
Definition encodePlan (alias : TypeAlias) : list EncoderExpr :=
  map item_expr (encoderItems 1 (ta_FieldEncoders alias)).

Definition exprText (e : EncoderExpr) : string :=
  match e with
  | JE_null => "JE.null"
  | EncoderCall enc => "(" +:+ enc +:+ ")"
  end.

Definition itemText (i : ListItem) : string :=
  (if item_comma i then ", " else "") +:+ exprText (item_expr i).

(** An alternative of the [JD.oneOf] list of the generated oneof decoder:
    [JD.map Ctor (JD.index idx (failOnNull decoder))] for a variant, and
    [JD.succeed Ctor] at the end. *)
Inductive DecoderAlt : Type :=
| AltVariant (ctor : VariantName) (idx : Z) (decoder : VariableName)
| AltSucceed (ctor : string).

(** An element of the list the generated oneof decoder passes to
    [JD.oneOf], after a comma where the template emits one. *)
Record AltItem := {
  alt_comma : bool;
  alt_decoder : DecoderAlt
}.

Definition variantAlternative (v : OneOfVariant) : DecoderAlt :=
  AltVariant (ov_Name v) (toJSIdx (ov_Num v)) (ov_Decoder v).

(** The body of [range $i, $v := .Variants] in the "oneof-custom-type"
    template: a comma [if $i], that is for every variant but the first,
    and the alternative of the variant. *)
Fixpoint variantItems (i : Z) (variants : list OneOfVariant) : list AltItem :=
  match variants with
  | [] => []
  | v :: rest =>
      {| alt_comma := negb (i =? 0); alt_decoder := variantAlternative v |}
      :: variantItems (i + 1) rest
  end.

(** After the loop the template emits [, JD.succeed NameUnspecified]: the
    comma is there whatever the number of variants. *)
Definition oneofDecoderItems (t : OneOfCustomType) : list AltItem :=
  variantItems 0 (oct_Variants t)
  ++ [ {| alt_comma := true; alt_decoder := AltSucceed (oct_Name t +:+ "Unspecified") |} ].

Definition altText (alt : DecoderAlt) : string :=
  match alt with
  | AltVariant ctor idx decoder =>
      "JD.map " +:+ ctor +:+ " (JD.index " +:+ GoStrings.itoa idx
        +:+ " (failOnNull " +:+ decoder +:+ "))"
  | AltSucceed ctor => "JD.succeed " +:+ ctor
  end.

Definition altItemText (i : AltItem) : string :=
  (if alt_comma i then "," else "") +:+ " " +:+ altText (alt_decoder i).

(** The elements emitted between [[] and []] are an Elm list literal when
    there is no comma before the first and a comma before every other. *)
Definition wellSeparated (commas : list bool) : bool :=
  match commas with
  | [] => true
  | first :: rest => negb first && forallb id rest
  end.

(** The alternatives of the generated oneof decoder: the list the emitted
    text denotes, if it is a list literal. *)
Definition oneofDecoderAlternatives (t : OneOfCustomType) : option (list DecoderAlt) :=
  if wellSeparated (map alt_comma (oneofDecoderItems t))
  then Some (map alt_decoder (oneofDecoderItems t))
  else None.

(** A case of the generated oneof encoder: for a value built with [ctor],
    [if idx == num then encoder x else JE.null]; the unspecified
    constructor encodes as [JE.null]. *)
Inductive EncoderCase : Type :=
| CaseUnspecified (ctor : string)
| CaseVariant (ctor : VariantName) (num : ProtobufFieldNumber) (encoder : VariableName).

Definition oneofEncoderCases (t : OneOfCustomType) : list EncoderCase :=
  CaseUnspecified (oct_Name t +:+ "Unspecified")
  :: map (fun v => CaseVariant (ov_Name v) (ov_Num v) (ov_Encoder v)) (oct_Variants t).

(** *** Elm's [Json.Decode] on the alternatives

    The values of the JavaScript side, and the meaning of the combinators
    the oneof decoder is made of: [JD.index i d] fails unless the value is
    an array with an element [i], on which it runs [d]; [failOnNull d]
    (defined in the file header template) fails on [null] and runs [d]
    otherwise; [JD.succeed] never fails; [JD.oneOf] yields the first
    success.  What a named field decoder does is left open. *)
Inductive JValue : Type :=
| JNull
| JBool (b : bool)
| JNumber (n : Z)
| JString (s : string)
| JArray (elems : list JValue)
| JObject (members : list (string * JValue)).

Section ElmDecode.
Context {Payload : Type} (runDecoder : VariableName -> JValue -> option Payload).

Inductive OneofValue : Type :=
| VariantValue (ctor : VariantName) (x : Payload)
| Nullary (ctor : string).

Definition JD_index (i : Z) (d : JValue -> option Payload) (v : JValue) : option Payload :=
  match v with
  | JArray elems => if i <? 0 then None else elems !! Z.to_nat i ≫= d
  | _ => None
  end.

Definition failOnNull (d : JValue -> option Payload) (v : JValue) : option Payload :=
  match v with
  | JNull => None
  | _ => d v
  end.

Definition runAlt (alt : DecoderAlt) (v : JValue) : option OneofValue :=
  match alt with
  | AltVariant ctor idx decoder =>
      VariantValue ctor <$> JD_index idx (failOnNull (runDecoder decoder)) v
  | AltSucceed ctor => Some (Nullary ctor)
  end.

Fixpoint JD_oneOf (alts : list DecoderAlt) (v : JValue) : option OneofValue :=
  match alts with
  | [] => None
  | alt :: rest =>
      match runAlt alt v with
      | Some x => Some x
      | None => JD_oneOf rest v
      end
  end.

End ElmDecode.

(** ** Package [main] *)

Record parameters := {
  Version : bool;
  Debug : bool;
  RemoveDeprecated : bool;
  modPrefix : string
}.

(** The argument of [isDeprecated] is an [interface{}]; the type switch
    tells the four option types apart. *)
Inductive anyOptions : Type :=
| OfMessageOptions (v : option MessageOptions)
| OfFieldOptions (v : option FieldOptions)
| OfEnumOptions (v : option EnumOptions)
| OfEnumValueOptions (v : option EnumValueOptions)
| OfOtherType.

Definition isDeprecated (options : anyOptions) : bool :=
  match options with
  | OfMessageOptions v =>
      match v with Some o => default false (MessageOptions_Deprecated o) | None => false end
  | OfFieldOptions v =>
      match v with Some o => default false (FieldOptions_Deprecated o) | None => false end
  | OfEnumOptions v =>
      match v with Some o => default false (EnumOptions_Deprecated o) | None => false end
  | OfEnumValueOptions v =>
      match v with Some o => default false (EnumValueOptions_Deprecated o) | None => false end
  | OfOtherType => false
  end.

Inductive pbMessage := Build_pbMessage {
  pb_TypeAlias : TypeAlias;
  pb_OneOfCustomTypes : list OneOfCustomType;
  pb_EnumCustomTypes : list EnumCustomType;
  pb_NestedMessages : list pbMessage
}.

(** [s[:high]] and [s[low:]] on a Go string *)
Definition sliceTo (s : string) (high : Z) : result string :=
  if (high <? 0) || (Z.of_nat (String.length s) <? high)
  then Panic (SliceBoundsOutOfRange high (Z.of_nat (String.length s)))
  else Ok (String.substring 0 (Z.to_nat high) s).

Definition sliceFrom (s : string) (low : Z) : result string :=
  if (low <? 0) || (Z.of_nat (String.length s) <? low)
  then Panic (SliceBoundsOutOfRange low (Z.of_nat (String.length s)))
  else Ok (String.substring (Z.to_nat low) (String.length s - Z.to_nat low) s).

(** [sort.Slice(s, less)].  Go's sort is not stable; it is modelled by a
    sort for the order "not less the other way round", and the statements
    about its result are made for keys without duplicates, where every
    sorting algorithm returns the same slice. *)
Definition notLess {A} (less : A -> A -> bool) : relation A :=
  fun a b => less b a = false.

#[global] Instance notLess_dec {A} (less : A -> A -> bool) : RelDecision (notLess less) :=
  fun a b => decide (less b a = false).

Definition sort_Slice {A} (less : A -> A -> bool) (s : list A) : list A :=
  merge_sort (notLess less) s.

Section WithExtras.
Context `{StringExtras} `{UnicodeTables}.

(** The surviving variants of one enum: the inner loop of
    [enumsToCustomTypes]. *)
Definition enumValues (preface : list string) (enumPb : EnumDescriptorProto)
    (p : parameters) : list EnumVariant :=
  foldl (fun values value =>
           if isDeprecated (OfEnumValueOptions (value_Options value)) && RemoveDeprecated p
           then values
           else values ++ [ {| ev_Name := NestedVariantName (value_Name value) preface;
                               ev_Value := value_Number value |} ])
        [] (enum_Value enumPb).

(** The body of the outer loop of [enumsToCustomTypes], for an enum that
    is not skipped. *)
Definition enumToCustomType (preface : list string) (enumPb : EnumDescriptorProto)
    (p : parameters) : result EnumCustomType :=
  let values := enumValues preface enumPb p in
  let enumType := NestedType (enum_Name enumPb) preface in
  first ← index values 0;
  Ok {| ect_Name := enumType;
        ect_Decoder := DecoderName enumType;
        ect_Encoder := EncoderName enumType;
        ect_DefaultVariantVariable := EnumDefaultVariantVariableName enumType;
        ect_DefaultVariantValue := ev_Name first;
        ect_Variants := values |}.

Fixpoint enumsToCustomTypes (preface : list string) (enumPbs : list EnumDescriptorProto)
    (p : parameters) : result (list EnumCustomType) :=
  match enumPbs with
  | [] => Ok []
  | enumPb :: rest =>
      if isDeprecated (OfEnumOptions (enum_Options enumPb)) && RemoveDeprecated p
      then enumsToCustomTypes preface rest p
      else
        t ← enumToCustomType preface enumPb p;
        ts ← enumsToCustomTypes preface rest p;
        Ok (t :: ts)
  end.

(** The variants of the oneof declared at [oneofIndex]: the inner loop of
    [oneOfsToCustomTypes]. *)
Definition oneOfVariants (preface : list string) (messagePb : DescriptorProto)
    (p : parameters) (oneofIndex : Z) : result (list OneOfVariant) :=
  foldM (fun variants inField =>
           if isDeprecated (OfFieldOptions (field_Options inField)) && RemoveDeprecated p
           then Ok variants
           else if match field_OneofIndex inField with
                   | None => true
                   | Some i => negb (i =? oneofIndex)
                   end
           then Ok variants
           else
             t ← BasicFieldType inField;
             dec ← BasicFieldDecoder inField;
             enc ← BasicFieldEncoder inField;
             Ok (variants ++ [ {| ov_Name := NestedVariantName (field_Name inField) preface;
                                  ov_Type := t;
                                  ov_Num := field_Number inField;
                                  ov_Decoder := dec;
                                  ov_Encoder := enc |} ]))
        [] (msg_Field messagePb).

Fixpoint oneOfsFrom (preface : list string) (messagePb : DescriptorProto) (p : parameters)
    (oneofIndex : Z) (decls : list OneofDescriptorProto) : result (list OneOfCustomType) :=
  match decls with
  | [] => Ok []
  | oneOfPb :: rest =>
      variants ← oneOfVariants preface messagePb p oneofIndex;
      let name := NestedType (oneof_Name oneOfPb) preface in
      ts ← oneOfsFrom preface messagePb p (oneofIndex + 1) rest;
      Ok ({| oct_Name := name;
             oct_Decoder := DecoderName name;
             oct_Encoder := EncoderName name;
             oct_Variants := variants |} :: ts)
  end.

Definition oneOfsToCustomTypes (preface : list string) (messagePb : DescriptorProto)
    (p : parameters) : result (list OneOfCustomType) :=
  if isDeprecated (OfMessageOptions (msg_Options messagePb)) && RemoveDeprecated p
  then Ok []
  else oneOfsFrom preface messagePb p 0 (msg_OneofDecl messagePb).

Definition fieldDefault (field : FieldDescriptorProto) : result string :=
  let defV := field_DefaultValue field in
  defV ← match field_Type field with
         | TYPE_STRING =>
             Ok (dquote +:+ GoStrings.Replace defV (Stdlib.Strings.Ascii.ascii_of_N 34) ("\" +:+ dquote)
                   +:+ dquote)
         | TYPE_BOOL =>
             (* Elm uses 'False' and 'True' but golang libraries will decode
                these as 'false' and 'true'. *)
             first ← sliceTo defV 1;
             rest ← sliceFrom defV 1;
             Ok (GoStrings.ToUpper1 first +:+ rest)
         | _ => Ok defV
         end;
  if String.eqb defV "" then BasicFieldDefaultValue field else Ok defV.

Definition isOptional (inField : FieldDescriptorProto) : bool :=
  (field_Label inField =? LABEL_OPTIONAL) && (field_Type inField =? TYPE_MESSAGE).

Definition isRepeated (inField : FieldDescriptorProto) : bool :=
  field_Label inField =? LABEL_REPEATED.

Definition getLocalType (fullyQualifiedTypeName : string) : string :=
  List.last (GoStrings.Split fullyQualifiedTypeName ".") "".

Definition getNestedType (inField : FieldDescriptorProto) (inMessage : DescriptorProto)
    : option DescriptorProto :=
  let localTypeName := getLocalType (field_TypeName inField) in
  List.find (fun nested => String.eqb (msg_Name nested) localTypeName
                           && GetMapEntry (msg_Options nested))
            (msg_NestedType inMessage).

Definition appendFields (alias : TypeAlias) (field : TypeAliasField) : TypeAlias :=
  {| ta_Name := ta_Name alias;
     ta_Decoder := ta_Decoder alias;
     ta_Encoder := ta_Encoder alias;
     ta_FieldEncoders := ta_FieldEncoders alias;
     ta_Fields := ta_Fields alias ++ [field] |}.

Definition appendFieldEncoders (alias : TypeAlias) (field : TypeAliasField) : TypeAlias :=
  {| ta_Name := ta_Name alias;
     ta_Decoder := ta_Decoder alias;
     ta_Encoder := ta_Encoder alias;
     ta_FieldEncoders := ta_FieldEncoders alias ++ [field];
     ta_Fields := ta_Fields alias |}.

Definition setFieldEncoders (alias : TypeAlias) (l : list TypeAliasField) : TypeAlias :=
  {| ta_Name := ta_Name alias;
     ta_Decoder := ta_Decoder alias;
     ta_Encoder := ta_Encoder alias;
     ta_FieldEncoders := l;
     ta_Fields := ta_Fields alias |}.

(** The [TypeAliasField] a field of the message contributes: the oneof
    slot of a oneof member (appended to [FieldEncoders] only), or the
    field of a map, optional, repeated or plain field (appended to both
    lists). *)
Inductive fieldEntry : Type :=
| EncoderOnly (f : TypeAliasField)
| FieldAndEncoder (f : TypeAliasField).

Definition fieldEntryOf (nestedPreface : list string) (messagePb : DescriptorProto)
    (fieldPb : FieldDescriptorProto) : result fieldEntry :=
  match field_OneofIndex fieldPb with
  | Some oneofIndex =>
      (* For encoding, we need one encoder for each variant in
         the oneof, but for decoding, we only want one decoder
         for the whole oneof. *)
      oneof ← index (msg_OneofDecl messagePb) oneofIndex;
      let typeName := OneOfType (NestedType (oneof_Name oneof) nestedPreface) in
      Ok (EncoderOnly {| taf_Name := FieldName (oneof_Name oneof);
                         taf_Type := typeName;
                         taf_Number := field_Number fieldPb;
                         taf_Default := "";
                         taf_Decoder := "";
                         taf_Encoder := OneOfEncoder oneof fieldPb typeName |})
  | None =>
      match getNestedType fieldPb messagePb with
      | Some nested =>
          t ← MapType nested;
          enc ← MapEncoder fieldPb nested;
          dec ← MapDecoder fieldPb nested;
          Ok (FieldAndEncoder {| taf_Name := FieldName (field_Name fieldPb);
                                 taf_Type := t;
                                 taf_Number := field_Number fieldPb;
                                 taf_Default := "Nothing";
                                 taf_Encoder := enc;
                                 taf_Decoder := dec |})
      | None =>
          if isOptional fieldPb then
            t ← BasicFieldType fieldPb;
            def ← fieldDefault fieldPb;
            enc ← MaybeEncoder fieldPb;
            dec ← MaybeDecoder fieldPb;
            Ok (FieldAndEncoder {| taf_Name := FieldName (field_Name fieldPb);
                                   taf_Type := MaybeType t;
                                   taf_Number := field_Number fieldPb;
                                   taf_Default := def;
                                   taf_Encoder := enc;
                                   taf_Decoder := dec |})
          else if isRepeated fieldPb then
            t ← BasicFieldType fieldPb;
            enc ← ListEncoder fieldPb;
            dec ← ListDecoder fieldPb;
            Ok (FieldAndEncoder {| taf_Name := FieldName (field_Name fieldPb);
                                   taf_Type := ListType t;
                                   taf_Number := field_Number fieldPb;
                                   taf_Default := "[]";
                                   taf_Encoder := enc;
                                   taf_Decoder := dec |})
          else
            t ← BasicFieldType fieldPb;
            def ← fieldDefault fieldPb;
            enc ← RequiredFieldEncoder fieldPb;
            dec ← RequiredFieldDecoder fieldPb;
            Ok (FieldAndEncoder {| taf_Name := FieldName (field_Name fieldPb);
                                   taf_Type := t;
                                   taf_Number := field_Number fieldPb;
                                   taf_Default := def;
                                   taf_Encoder := enc;
                                   taf_Decoder := dec |})
      end
  end.

(** The body of the loop over [messagePb.GetField()]. *)
Definition addField (nestedPreface : list string) (messagePb : DescriptorProto)
    (p : parameters) (alias : TypeAlias) (fieldPb : FieldDescriptorProto) : result TypeAlias :=
  if isDeprecated (OfFieldOptions (field_Options fieldPb)) && RemoveDeprecated p
  then Ok alias
  else
    entry ← fieldEntryOf nestedPreface messagePb fieldPb;
    match entry with
    | EncoderOnly f => Ok (appendFieldEncoders alias f)
    | FieldAndEncoder f => Ok (appendFieldEncoders (appendFields alias f) f)
    end.

(** The field that the second loop of [messages] appends for a oneof
    declaration. *)
Definition oneofField (nestedPreface : list string) (oneOfPb : OneofDescriptorProto)
    : TypeAliasField :=
  let typeName := OneOfType (NestedType (oneof_Name oneOfPb) nestedPreface) in
  {| taf_Name := FieldName (oneof_Name oneOfPb);
     taf_Type := typeName;
     taf_Number := 0;
     taf_Default := typeName +:+ "Unspecified";
     taf_Decoder := OneOfDecoder oneOfPb typeName;
     taf_Encoder := "" |}.

(** The less function [messages] passes to [sort.Slice]: order matters in
    the encoders, since their index has to correspond to their field
    number for port encoding. *)
Definition lessByNumber (a b : TypeAliasField) : bool := taf_Number a <? taf_Number b.

Definition nestedPrefaceOf (preface : list string) (messagePb : DescriptorProto) : list string :=
  [msg_Name messagePb] ++ preface.

(** The type alias [messages] builds for one message that is not
    skipped: both loops and the sort between them. *)
Definition messageAlias (preface : list string) (messagePb : DescriptorProto)
    (p : parameters) : result TypeAlias :=
  let name := NestedType (msg_Name messagePb) preface in
  let nestedPreface := nestedPrefaceOf preface messagePb in
  let alias := {| ta_Name := name;
                  ta_Decoder := DecoderName name;
                  ta_Encoder := EncoderName name;
                  ta_FieldEncoders := [];
                  ta_Fields := [] |} in
  alias ← foldM (addField nestedPreface messagePb p) alias (msg_Field messagePb);
  let alias := setFieldEncoders alias
                 (sort_Slice lessByNumber (ta_FieldEncoders alias)) in
  Ok (foldl (fun alias oneOfPb => appendFields alias (oneofField nestedPreface oneOfPb))
            alias (msg_OneofDecl messagePb)).

Fixpoint message (preface : list string) (messagePb : DescriptorProto) (p : parameters)
    {struct messagePb} : result pbMessage :=
  let nestedPreface := nestedPrefaceOf preface messagePb in
  alias ← messageAlias preface messagePb p;
  oneofs ← oneOfsToCustomTypes nestedPreface messagePb p;
  enums ← enumsToCustomTypes nestedPreface (msg_EnumType messagePb) p;
  nested ← (fix messages (messagePbs : list DescriptorProto) : result (list pbMessage) :=
              match messagePbs with
              | [] => Ok []
              | nestedPb :: rest =>
                  if isDeprecated (OfMessageOptions (msg_Options nestedPb)) && RemoveDeprecated p
                  then messages rest
                  else
                    m ← message nestedPreface nestedPb p;
                    ms ← messages rest;
                    Ok (m :: ms)
              end) (msg_NestedType messagePb);
  Ok {| pb_TypeAlias := alias;
        pb_OneOfCustomTypes := oneofs;
        pb_EnumCustomTypes := enums;
        pb_NestedMessages := nested |}.

Fixpoint messages (preface : list string) (messagePbs : list DescriptorProto)
    (p : parameters) : result (list pbMessage) :=
  match messagePbs with
  | [] => Ok []
  | messagePb :: rest =>
      if isDeprecated (OfMessageOptions (msg_Options messagePb)) && RemoveDeprecated p
      then messages preface rest p
      else
        m ← message preface messagePb p;
        ms ← messages preface rest p;
        Ok (m :: ms)
  end.

End WithExtras.

(** *** The process: the global [excludedFiles], [parseParameters], [main]

    [excludedFiles] is the one package-level variable that is written
    after initialisation.  Code that reads or writes it runs in [Gen],
    which threads the map; a panic ends the run. *)
Definition Gen (A : Type) : Type :=
  gmap string bool -> result (A * gmap string bool).

#[global] Instance Gen_ret : MRet Gen := fun _ a excludedFiles => Ok (a, excludedFiles).

#[global] Instance Gen_bind : MBind Gen := fun _ _ f m excludedFiles =>
  match m excludedFiles with
  | Ok (a, excludedFiles') => f a excludedFiles'
  | Panic e => Panic e
  end.

(** [excludedFiles[k]] *)
Definition isExcluded (k : string) : Gen bool :=
  fun excludedFiles => Ok (default false (excludedFiles !! k), excludedFiles).

(** [excludedFiles[k] = true] *)
Definition exclude (k : string) : Gen unit :=
  fun excludedFiles => Ok (tt, <[k := true]> excludedFiles).

(** Code that does not touch the global. *)
Definition liftResult {A} (m : result A) : Gen A :=
  fun excludedFiles =>
    match m with
    | Ok a => Ok (a, excludedFiles)
    | Panic e => Panic e
    end.

Definition initialExcludedFiles : gmap string bool :=
  list_to_map [("google/protobuf/timestamp.proto", true);
               ("google/protobuf/wrappers.proto", true);
               ("google/protobuf/descriptor.proto", true)].

Fixpoint forM {A B} (f : A -> Gen (list B)) (l : list A) : Gen (list B) :=
  match l with
  | [] => mret []
  | x :: rest => ys ← f x; zs ← forM f rest; mret (ys ++ zs)
  end.

(** One round of the loop of [parseParameters]; [err] is the error the
    function returns at the end, if any. *)
Definition parseParameter (acc : parameters * option string) (v : string)
    : Gen (parameters * option string) :=
  let '(result, err) := acc in
  let parts := GoStrings.Split v "=" in
  let name := List.hd "" parts in
  let v := List.tl parts in
  if String.eqb name "remove-deprecated" then
    mret ({| Version := Version result; Debug := Debug result;
             RemoveDeprecated := true; modPrefix := modPrefix result |}, err)
  else if String.eqb name "debug" then
    mret ({| Version := Version result; Debug := true;
             RemoveDeprecated := RemoveDeprecated result; modPrefix := modPrefix result |}, err)
  else if String.eqb name "module-prefix" then
    v0 ← liftResult (index v 0);
    mret ({| Version := Version result; Debug := Debug result;
             RemoveDeprecated := RemoveDeprecated result; modPrefix := v0 |}, err)
  else if String.eqb name "exclude" then
    v0 ← liftResult (index v 0);
    _ ← exclude v0;
    mret (result, err)
  else
    mret (result, Some ("unknown parameter: " +:+ dquote +:+ name +:+ dquote)).

Fixpoint parseLoop (acc : parameters * option string) (vs : list string)
    : Gen (parameters * option string) :=
  match vs with
  | [] => mret acc
  | v :: rest => acc' ← parseParameter acc v; parseLoop acc' rest
  end.

Definition parseParameters (input : option string) : Gen (parameters * option string) :=
  let result := {| Version := false; Debug := false; RemoveDeprecated := false; modPrefix := "" |} in
  match input with
  | None => mret (result, None)
  | Some input => parseLoop (result, None) (GoStrings.Split input ",")
  end.

Fixpoint hasMapEntriesInMessage (inMessage : DescriptorProto) : bool :=
  if GetMapEntry (msg_Options inMessage) then true
  else existsb hasMapEntriesInMessage (msg_NestedType inMessage).

Definition hasMapEntries (inFile : FileDescriptorProto) : bool :=
  existsb hasMapEntriesInMessage (file_MessageType inFile).

Definition extension : string := ".elm".

Section WithExtras.
Context `{StringExtras} `{UnicodeTables}.

Definition fileName (inFilePath : string) : string :=
  let '(inFileDir, inFileName) := GoStrings.filepath_Split inFilePath in
  let trimmed := GoStrings.TrimSuffix inFileName ".proto" in
  let shortFileName := FirstUpper trimmed in
  let fullFileName :=
    foldl (fun fullFileName segment =>
             if String.eqb segment "" then fullFileName
             else fullFileName +:+ FirstUpper segment +:+ "/")
          "" (GoStrings.Split inFileDir "/") in
  fullFileName +:+ shortFileName +:+ extension.

(** The loops of [moduleName] and [additionalImports] that capitalise the
    non-empty segments and append them to [final]. *)
Definition appendSegments (final segments : list string) : list string :=
  foldl (fun final segment =>
           if String.eqb segment "" then final else final ++ [FirstUpper segment])
        final segments.

Definition moduleName (modPrefix inFilePath : string) : string :=
  let '(inFileDir, inFileName) := GoStrings.filepath_Split inFilePath in
  let trimmed := GoStrings.TrimSuffix inFileName ".proto" in
  let shortModuleName := FirstUpper trimmed in
  let path := GoStrings.Split inFileDir "/" in
  let path := if String.eqb modPrefix "" then path
              else GoStrings.Split modPrefix "." ++ path in
  let final := appendSegments [] path in
  GoStrings.Join (final ++ [shortModuleName]) ".".

Definition additionalImports (modPrefix : string) (dependencies : list string)
    : Gen (list string) :=
  let prefix := GoStrings.Split modPrefix "." in
  forM (fun d =>
          excluded ← isExcluded d;
          if (excluded : bool) then mret []
          else
            let final := appendSegments prefix
                           (GoStrings.Split (GoStrings.TrimSuffix d ".proto") "/") in
            mret [GoStrings.Join final "."])
       dependencies.

(** The value [templateFile] hands to the template: the model of one
    schema file. *)
Record fileModel := {
  SourceFile : string;
  ModuleName : string;
  ImportDict : bool;
  AdditionalImports : list string;
  TopEnums : list EnumCustomType;
  Messages : list pbMessage
}.

Definition templateFile (inFile : FileDescriptorProto) (p : parameters) : Gen fileModel :=
  imports ← additionalImports (modPrefix p) (file_Dependency inFile);
  enums ← liftResult (enumsToCustomTypes [] (file_EnumType inFile) p);
  msgs ← liftResult (messages [] (file_MessageType inFile) p);
  mret {| SourceFile := file_Name inFile;
          ModuleName := moduleName (modPrefix p) (file_Name inFile);
          ImportDict := hasMapEntries inFile;
          AdditionalImports := imports;
          TopEnums := enums;
          Messages := msgs |}.

(** The loop of [main] over [req.GetProtoFile()]: a response file, named
    by [fileName], for every file that is not excluded. *)
Definition generateFiles (protoFiles : list FileDescriptorProto) (p : parameters)
    : Gen (list (string * fileModel)) :=
  forM (fun inFile =>
          excluded ← isExcluded (file_Name inFile);
          if (excluded : bool) then mret []
          else
            let name := fileName (file_Name inFile) in
            content ← templateFile inFile p;
            mret [(name, content)])
       protoFiles.

Record CodeGeneratorRequest := {
  req_Parameter : option string;
  req_ProtoFile : list FileDescriptorProto
}.

(** What [main] does with a request read from standard input: it fails
    with [log.Fatalf] on a parameter error, and writes the response
    otherwise. *)
Inductive outcome : Type :=
| Fatal (msg : string)
| Response (files : list (string * fileModel)).

Definition main (req : CodeGeneratorRequest) : Gen outcome :=
  '(parameters, err) ← parseParameters (req_Parameter req);
  match err with
  | Some e => mret (Fatal ("Failed to parse parameters: " +:+ e))
  | None =>
      files ← generateFiles (req_ProtoFile req) parameters;
      mret (Response files)
  end.

End WithExtras.

(** ** Vocabulary of the statements *)

(** The wire kinds the three classifiers have a case for: every declared
    kind but [TYPE_GROUP]. *)
Definition kinds32 : list Z :=
  [TYPE_INT32; TYPE_UINT32; TYPE_SINT32; TYPE_FIXED32; TYPE_SFIXED32].

Definition kinds64 : list Z :=
  [TYPE_INT64; TYPE_UINT64; TYPE_SINT64; TYPE_FIXED64; TYPE_SFIXED64].

Definition supportedKinds : list Z :=
  kinds32 ++ kinds64
  ++ [TYPE_FLOAT; TYPE_DOUBLE; TYPE_BOOL; TYPE_STRING; TYPE_ENUM; TYPE_MESSAGE; TYPE_BYTES].

Definition supportedKind (t : Z) : bool := bool_decide (t ∈ supportedKinds).

(** A direct codec is a function of Elm's [Json.Encode] or [Json.Decode],
    which the generated module imports as [JE] and [JD]; every other codec
    name is a function of the [Protobuf] runtime module or a generated
    one. *)
Definition isDirectCodec (name : VariableName) : bool :=
  String.prefix "JE." name || String.prefix "JD." name.

(** The fields, enums and enum values the deprecation filter keeps. *)
Definition keptField (p : parameters) (fieldPb : FieldDescriptorProto) : bool :=
  negb (isDeprecated (OfFieldOptions (field_Options fieldPb)) && RemoveDeprecated p).

Definition keptFields (messagePb : DescriptorProto) (p : parameters) : list FieldDescriptorProto :=
  List.filter (keptField p) (msg_Field messagePb).

Definition keptEnum (p : parameters) (enumPb : EnumDescriptorProto) : bool :=
  negb (isDeprecated (OfEnumOptions (enum_Options enumPb)) && RemoveDeprecated p).

Definition keptValue (p : parameters) (value : EnumValueDescriptorProto) : bool :=
  negb (isDeprecated (OfEnumValueOptions (value_Options value)) && RemoveDeprecated p).

Definition keptMessage (p : parameters) (messagePb : DescriptorProto) : bool :=
  negb (isDeprecated (OfMessageOptions (msg_Options messagePb)) && RemoveDeprecated p).

Definition entryField (e : fieldEntry) : TypeAliasField :=
  match e with
  | EncoderOnly f => f
  | FieldAndEncoder f => f
  end.

Definition isPlaceholder (e : EncoderExpr) : bool :=
  match e with
  | JE_null => true
  | EncoderCall _ => false
  end.

(** The largest of a list of field numbers, 0 for none. *)
Definition maxNumber (numbers : list Z) : Z := foldr Z.max 0 numbers.

Section WithExtras.
Context `{StringExtras} `{UnicodeTables}.

(** The variant [enumsToCustomTypes] builds from an enum value. *)
Definition variantOf (preface : list string) (value : EnumValueDescriptorProto) : EnumVariant :=
  {| ev_Name := NestedVariantName (value_Name value) preface;
     ev_Value := value_Number value |}.

End WithExtras.

(** The fields one entry adds to [alias.Fields]. *)
Definition entryFields (e : fieldEntry) : list TypeAliasField :=
  match e with
  | EncoderOnly _ => []
  | FieldAndEncoder f => [f]
  end.

(** The fields that belong to the oneof declared at [oneofIndex], and the
    fields outside every oneof. *)
Definition memberOf (oneofIndex : Z) (fieldPb : FieldDescriptorProto) : bool :=
  match field_OneofIndex fieldPb with
  | Some i => i =? oneofIndex
  | None => false
  end.

Definition outsideOneof (fieldPb : FieldDescriptorProto) : bool :=
  match field_OneofIndex fieldPb with
  | Some _ => false
  | None => true
  end.

(** A wire value shows no variant of a oneof when it is not an array, or
    when the array has no element, or [null], at the index of every
    variant. *)
Definition slotAbsent (v : JValue) (idx : Z) : bool :=
  match v with
  | JArray elems =>
      if idx <? 0 then true
      else match elems !! Z.to_nat idx with
           | None | Some JNull => true
           | Some _ => false
           end
  | _ => true
  end.

Definition oneofAbsent (t : OneOfCustomType) (v : JValue) : bool :=
  forallb (fun variant => slotAbsent v (toJSIdx (ov_Num variant))) (oct_Variants t).

(** The type names of a message model and of the models nested in it,
    outermost first. *)
Fixpoint typeNames (m : pbMessage) : list ElmType :=
  ta_Name (pb_TypeAlias m) :: flat_map typeNames (pb_NestedMessages m).

(** A computation in [Gen] that leaves [excludedFiles] as it found it. *)
Definition readsOnly {A} (m : Gen A) : Prop :=
  forall excludedFiles a excludedFiles',
    m excludedFiles = Ok (a, excludedFiles') -> excludedFiles' = excludedFiles.

(** ** Sample schemas *)

Definition noParameters : parameters :=
  {| Version := false; Debug := false; RemoveDeprecated := false; modPrefix := "" |}.

Definition removeDeprecated : parameters :=
  {| Version := false; Debug := false; RemoveDeprecated := true; modPrefix := "" |}.

(** A singular field outside any oneof, without a schema default. *)
Definition plainField (name : string) (number type : Z) : FieldDescriptorProto :=
  {| field_Name := name; field_Number := number; field_Label := LABEL_OPTIONAL;
     field_Type := type; field_TypeName := ""; field_DefaultValue := "";
     field_OneofIndex := None; field_Options := None |}.

Definition fieldWithDefault (name : string) (number type : Z) (def : string)
    : FieldDescriptorProto :=
  {| field_Name := name; field_Number := number; field_Label := LABEL_REQUIRED;
     field_Type := type; field_TypeName := ""; field_DefaultValue := def;
     field_OneofIndex := None; field_Options := None |}.

Definition oneofMember (name : string) (number type oneofIndex : Z) : FieldDescriptorProto :=
  {| field_Name := name; field_Number := number; field_Label := LABEL_OPTIONAL;
     field_Type := type; field_TypeName := ""; field_DefaultValue := "";
     field_OneofIndex := Some oneofIndex; field_Options := None |}.

Definition simpleMessage (name : string) (fields : list FieldDescriptorProto)
    (nested : list DescriptorProto) : DescriptorProto :=
  {| msg_Name := name; msg_Field := fields; msg_NestedType := nested;
     msg_EnumType := []; msg_OneofDecl := []; msg_Options := None |}.

(** [message Sparse { int32 e = 5; int32 a = 1; int32 c = 3; }] *)
Definition sparseMessage : DescriptorProto :=
  simpleMessage "Sparse"
    [plainField "e" 5 TYPE_INT32; plainField "a" 1 TYPE_INT32; plainField "c" 3 TYPE_INT32] [].

(** [message Late { int32 only = 4; }] *)
Definition lateMessage : DescriptorProto :=
  simpleMessage "Late" [plainField "only" 4 TYPE_INT32] [].

(** [message A { message B { message C {} } }] *)
Definition nestedABC : DescriptorProto :=
  simpleMessage "A" [] [simpleMessage "B" [] [simpleMessage "C" [] []]].

(** [message Shape { oneof kind { int32 side = 1; string label = 2; } }] *)
Definition shapeMessage : DescriptorProto :=
  {| msg_Name := "Shape";
     msg_Field := [oneofMember "side" 1 TYPE_INT32 0; oneofMember "label" 2 TYPE_STRING 0];
     msg_NestedType := []; msg_EnumType := [];
     msg_OneofDecl := [ {| oneof_Name := "kind" |} ];
     msg_Options := None |}.

(** [message Flagged { bool flag = 1; }] *)
Definition flaggedMessage : DescriptorProto :=
  simpleMessage "Flagged" [plainField "flag" 1 TYPE_BOOL] [].

(** [message Legacy { group Old = 1 { } }] *)
Definition groupMessage : DescriptorProto :=
  simpleMessage "Legacy" [plainField "old" 1 TYPE_GROUP] [].

Definition deprecatedValue : option EnumValueOptions :=
  Some {| EnumValueOptions_Deprecated := Some true |}.

Definition deprecatedEnum : option EnumOptions :=
  Some {| EnumOptions_Deprecated := Some true |}.

(** [enum Color { RED = 0 [deprecated = true]; GREEN = 1; }] *)
Definition colorEnum : EnumDescriptorProto :=
  {| enum_Name := "Color";
     enum_Value := [ {| value_Name := "RED"; value_Number := 0; value_Options := deprecatedValue |};
                     {| value_Name := "GREEN"; value_Number := 1; value_Options := None |} ];
     enum_Options := None |}.

(** [enum Gone { OLD = 0 [deprecated = true]; }] *)
Definition goneEnum : EnumDescriptorProto :=
  {| enum_Name := "Gone";
     enum_Value := [ {| value_Name := "OLD"; value_Number := 0; value_Options := deprecatedValue |} ];
     enum_Options := None |}.

(** An enum descriptor without values that is itself deprecated. *)
Definition emptyDeprecatedEnum : EnumDescriptorProto :=
  {| enum_Name := "Empty"; enum_Value := []; enum_Options := deprecatedEnum |}.

Definition sampleFile (name : string) (messages : list DescriptorProto) : FileDescriptorProto :=
  {| file_Name := name; file_Dependency := ["google/protobuf/timestamp.proto"; "common/base.proto"];
     file_MessageType := messages; file_EnumType := [colorEnum] |}.

(** Two schema files and one of the excluded well-known files. *)
Definition shapesFile : FileDescriptorProto := sampleFile "geo/shapes.proto" [shapeMessage].

Definition sparseFile : FileDescriptorProto := sampleFile "sparse.proto" [sparseMessage; nestedABC].

Definition timestampFile : FileDescriptorProto :=
  {| file_Name := "google/protobuf/timestamp.proto"; file_Dependency := [];
     file_MessageType := [simpleMessage "Timestamp" [plainField "seconds" 1 TYPE_INT64] []];
     file_EnumType := [] |}.

(** ** Vocabulary of the further properties *)

(** A message descriptor with the descriptors nested in it, at any depth,
    and the same for the models. *)
Fixpoint allMessages (m : DescriptorProto) : list DescriptorProto :=
  m :: flat_map allMessages (msg_NestedType m).

Fixpoint allModels (m : pbMessage) : list pbMessage :=
  m :: flat_map allModels (pb_NestedMessages m).

(** Induction on a descriptor with the property known of the nested
    descriptors. *)
Fixpoint DescriptorProto_nested_ind (P : DescriptorProto -> Prop)
    (step : forall m, Forall P (msg_NestedType m) -> P m) (m : DescriptorProto) : P m :=
  step m
    (match m return Forall P (msg_NestedType m) with
     | Build_DescriptorProto _ _ nested _ _ _ =>
         (fix go (l : list DescriptorProto) : Forall P l :=
            match l with
            | [] => @List.Forall_nil _ P
            | x :: l' =>
                @List.Forall_cons _ P x l' (DescriptorProto_nested_ind P step x) (go l')
            end) nested
     end).

(** [s] has no byte [c]. *)
Fixpoint noByte (c : ascii) (s : string) : bool :=
  match s with
  | EmptyString => true
  | String a s' => negb (Stdlib.Strings.Ascii.eqb a c) && noByte c s'
  end.

Definition notExcluded (excludedFiles : gmap string bool) (name : string) : bool :=
  negb (default false (excludedFiles !! name)).

Definition nonEmpty (s : string) : bool := negb (String.eqb s "").

(** The directory part [d1/d2/.../] of a path. *)
Fixpoint dirPrefix (dirs : list string) : string :=
  match dirs with
  | [] => ""
  | d :: rest => d +:+ "/" +:+ dirPrefix rest
  end.

(** The name of a [key=value] parameter, and whether [parseParameters] has
    a case for it. *)
Definition parameterName (v : string) : string := List.hd "" (GoStrings.Split v "=").

Definition knownParameter (v : string) : bool :=
  let name := parameterName v in
  String.eqb name "remove-deprecated" || String.eqb name "debug"
  || String.eqb name "module-prefix" || String.eqb name "exclude".

(** A parameter that takes a value and comes without one. *)
Definition missingValue (v : string) : bool :=
  String.eqb v "module-prefix" || String.eqb v "exclude".

Section WithExtras.
Context `{StringExtras} `{UnicodeTables}.

(** The import [additionalImports] makes of one dependency. *)
Definition importOf (modPrefix d : string) : string :=
  GoStrings.Join
    (appendSegments (GoStrings.Split modPrefix ".")
                    (GoStrings.Split (GoStrings.TrimSuffix d ".proto") "/"))
    ".".

End WithExtras.

(** *** The generated enum codec

    The "enum-custom-type" template makes the decoder [JD.map lookup
    JD.int], where [lookup] is a [case] with one branch [Value -> Name]
    for every variant, in order, and a last branch [_ ->
    DefaultVariantValue]; the encoder is [JE.int] of a [case] with one
    branch [Name -> Value] for every variant.  A [case] takes its first
    matching branch. *)
Definition enumDecoderLookup (t : EnumCustomType) (v : Z) : VariantName :=
  match List.find (fun variant => ev_Value variant =? v) (ect_Variants t) with
  | Some variant => ev_Name variant
  | None => ect_DefaultVariantValue t
  end.

Definition enumDecoder (t : EnumCustomType) (j : JValue) : option VariantName :=
  match j with
  | JNumber n => Some (enumDecoderLookup t n)
  | _ => None
  end.

(** [None] stands for a name that is no constructor of the type, which a
    typed Elm program cannot pass. *)
Definition enumEncoder (t : EnumCustomType) (name : VariantName) : option JValue :=
  (fun variant => JNumber (ev_Value variant))
    <$> List.find (fun variant => String.eqb (ev_Name variant) name) (ect_Variants t).

(** *** The generated oneof encoder

    [encoder idx v] is a [case] on [v] whose branches are
    [oneofEncoderCases]; [runEncoder] is the meaning of the named field
    encoders. *)
Section ElmEncode.
Context {Payload : Type} (runEncoder : VariableName -> Payload -> JValue).

Definition caseMatches (value : @OneofValue Payload) (c : EncoderCase) : bool :=
  match c, value with
  | CaseUnspecified ctor, Nullary ctor' => String.eqb ctor ctor'
  | CaseVariant ctor _ _, VariantValue ctor' _ => String.eqb ctor ctor'
  | _, _ => false
  end.

Definition runCase (idx : Z) (value : @OneofValue Payload) (c : EncoderCase) : JValue :=
  match c, value with
  | CaseVariant _ num encoder, VariantValue _ x =>
      if idx =? num then runEncoder encoder x else JNull
  | _, _ => JNull
  end.

Definition runOneofEncoder (t : OneOfCustomType) (idx : Z) (value : @OneofValue Payload)
    : option JValue :=
  runCase idx value <$> List.find (caseMatches value) (oneofEncoderCases t).

End ElmEncode.

(** The fields [messages] can make an entry of: a oneof member whose index
    names a declaration; a map field whose entry has two fields of
    supported kinds; an optional message field; a repeated field of a
    supported kind; a plain field of a supported kind that, if it is a
    bool, has a schema default. *)
Definition classifiable (messagePb : DescriptorProto) (fieldPb : FieldDescriptorProto) : bool :=
  match field_OneofIndex fieldPb with
  | Some oneofIndex =>
      (0 <=? oneofIndex) && (oneofIndex <? Z.of_nat (length (msg_OneofDecl messagePb)))
  | None =>
      match getNestedType fieldPb messagePb with
      | Some nested =>
          match msg_Field nested with
          | keyField :: valueField :: _ =>
              supportedKind (field_Type keyField) && supportedKind (field_Type valueField)
          | _ => false
          end
      | None =>
          if isOptional fieldPb then true
          else if isRepeated fieldPb then supportedKind (field_Type fieldPb)
          else supportedKind (field_Type fieldPb)
               && (negb (field_Type fieldPb =? TYPE_BOOL)
                   || nonEmpty (field_DefaultValue fieldPb))
      end
  end.

(** The value of a [key=value] parameter, [parts[1]], whether the name of
    a parameter is [name], and the error [parseParameters] makes of a
    parameter it has no case for. *)
Definition parameterValue (v : string) : string := List.nth 1 (GoStrings.Split v "=") "".

Definition namedParameter (name v : string) : bool := String.eqb (parameterName v) name.

Definition unknownParameterError (v : string) : string :=
  "unknown parameter: " +:+ dquote +:+ parameterName v +:+ dquote.

(** The list the generated message encoder passes to [valueList]: the
    list the emitted text denotes, if it is a list literal. *)
Definition encoderList (alias : TypeAlias) : option (list EncoderExpr) :=
  let items := encoderItems 1 (ta_FieldEncoders alias) in
  if wellSeparated (map item_comma items) then Some (map item_expr items) else None.

(** ** Further sample schemas *)

Definition mapEntryOptions : option MessageOptions :=
  Some {| MessageOptions_Deprecated := None; MessageOptions_MapEntry := Some true |}.

(** The entry type protoc makes of [map<string, int32> tags = 3;]. *)
Definition tagsEntry : DescriptorProto :=
  {| msg_Name := "TagsEntry";
     msg_Field := [plainField "key" 1 TYPE_STRING; plainField "value" 2 TYPE_INT32];
     msg_NestedType := []; msg_EnumType := []; msg_OneofDecl := [];
     msg_Options := mapEntryOptions |}.

Definition tagsField : FieldDescriptorProto :=
  {| field_Name := "tags"; field_Number := 3; field_Label := LABEL_REPEATED;
     field_Type := TYPE_MESSAGE; field_TypeName := ".Tagged.TagsEntry";
     field_DefaultValue := ""; field_OneofIndex := None; field_Options := None |}.

(** [message Tagged { int32 id = 1; map<string, int32> tags = 3; }] *)
Definition taggedMessage : DescriptorProto :=
  simpleMessage "Tagged" [plainField "id" 1 TYPE_INT32; tagsField] [tagsEntry].

Definition taggedFile : FileDescriptorProto :=
  {| file_Name := "tagged.proto"; file_Dependency := [];
     file_MessageType := [taggedMessage]; file_EnumType := [] |}.

Definition deprecatedMessage : option MessageOptions :=
  Some {| MessageOptions_Deprecated := Some true; MessageOptions_MapEntry := None |}.

(** [message Old { option deprecated = true; }] *)
Definition oldMessage : DescriptorProto :=
  {| msg_Name := "Old"; msg_Field := []; msg_NestedType := []; msg_EnumType := [];
     msg_OneofDecl := []; msg_Options := deprecatedMessage |}.

(** A map entry that lost its value field. *)
Definition shortEntry : DescriptorProto :=
  {| msg_Name := "TagsEntry"; msg_Field := [plainField "key" 1 TYPE_STRING];
     msg_NestedType := []; msg_EnumType := []; msg_OneofDecl := [];
     msg_Options := mapEntryOptions |}.

Definition shortMessage : DescriptorProto := simpleMessage "Tagged" [tagsField] [shortEntry].

(** A request that excludes one of its two schema files. *)
Definition excludingRequest : CodeGeneratorRequest :=
  {| req_Parameter := Some "debug,exclude=sparse.proto";
     req_ProtoFile := [shapesFile; sparseFile; timestampFile] |}.

Definition verboseRequest : CodeGeneratorRequest :=
  {| req_Parameter := Some "debug,verbose=1"; req_ProtoFile := [shapesFile] |}.

(** The custom types of [oneof kind] in [Shape] and of [Color]. *)
Definition shapeKind : OneOfCustomType :=
  {| oct_Name := "Shape_Kind"; oct_Decoder := "shape_KindPortDecoder";
     oct_Encoder := "shape_KindPortEncoder";
     oct_Variants := [ {| ov_Name := "Shape_Side"; ov_Type := "Int"; ov_Num := 1;
                          ov_Decoder := "intDecoder"; ov_Encoder := "JE.int" |};
                       {| ov_Name := "Shape_Label"; ov_Type := "String"; ov_Num := 2;
                          ov_Decoder := "JD.string"; ov_Encoder := "JE.string" |} ] |}.

Definition colorType : EnumCustomType :=
  {| ect_Name := "Color"; ect_Decoder := "colorPortDecoder"; ect_Encoder := "colorPortEncoder";
     ect_DefaultVariantVariable := "colorDefault"; ect_DefaultVariantValue := "Red";
     ect_Variants := [ {| ev_Name := "Red"; ev_Value := 0 |};
                       {| ev_Name := "Green"; ev_Value := 1 |} ] |}.

(** A meaning of the named field codecs on the values of the JavaScript
    side themselves: [intDecoder] and [JD.string] accept a number and a
    string, the encoders are the inclusion. *)
Definition sampleEncoder (encoder : VariableName) (x : JValue) : JValue := x.

Definition sampleDecoder (decoder : VariableName) (j : JValue) : option JValue :=
  match j with
  | JNumber _ => if String.eqb decoder "intDecoder" then Some j else None
  | JString _ => if String.eqb decoder "JD.string" then Some j else None
  | _ => None
  end.

(** Two fields with the number 1, and a field with the number 0: protoc
    refuses both, a descriptor can still carry them. *)
Definition twinMessage : DescriptorProto :=
  simpleMessage "Twin" [plainField "a" 1 TYPE_INT32; plainField "b" 1 TYPE_INT32] [].

Definition zeroMessage : DescriptorProto :=
  simpleMessage "Zero" [plainField "a" 0 TYPE_INT32; plainField "b" 2 TYPE_INT32] [].

Definition deprecatedField : option FieldOptions :=
  Some {| FieldOptions_Deprecated := Some true |}.

(** [message Shape { oneof kind { int32 side = 1 [deprecated = true];
    string label = 2 [deprecated = true]; } }] *)
Definition emptiedShape : DescriptorProto :=
  {| msg_Name := "Shape";
     msg_Field := [ {| field_Name := "side"; field_Number := 1; field_Label := LABEL_OPTIONAL;
                       field_Type := TYPE_INT32; field_TypeName := "";
                       field_DefaultValue := ""; field_OneofIndex := Some 0;
                       field_Options := deprecatedField |};
                    {| field_Name := "label"; field_Number := 2; field_Label := LABEL_OPTIONAL;
                       field_Type := TYPE_STRING; field_TypeName := "";
                       field_DefaultValue := ""; field_OneofIndex := Some 0;
                       field_Options := deprecatedField |} ];
     msg_NestedType := []; msg_EnumType := [];
     msg_OneofDecl := [ {| oneof_Name := "kind" |} ];
     msg_Options := None |}.
(** * Properties

    ** Go library functions on sample inputs *)

Example Split_dots : GoStrings.Split ".google.protobuf.Timestamp" "." = [""; "google"; "protobuf"; "Timestamp"].
Proof. reflexivity. Qed.

Example Split_empty : GoStrings.Split "" "," = [""].
Proof. reflexivity. Qed.

Example Join_three : GoStrings.Join ["B"; "A"; "C"] "_" = "B_A_C".
Proof. reflexivity. Qed.

Example itoa_examples : GoStrings.itoa 0 = "0" /\ GoStrings.itoa 42 = "42" /\ GoStrings.itoa (-7) = "-7".
Proof. repeat split; reflexivity. Qed.

Example filepath_Split_examples :
  GoStrings.filepath_Split "dir/sub/file.proto" = ("dir/sub/", "file.proto")
  /\ GoStrings.filepath_Split "file.proto" = ("", "file.proto")
  /\ GoStrings.filepath_Split "/x" = ("/", "x").
Proof. repeat split; reflexivity. Qed.

Example TrimSuffix_examples :
  GoStrings.TrimSuffix "file.proto" ".proto" = "file"
  /\ GoStrings.TrimSuffix "file.txt" ".proto" = "file.txt".
Proof. repeat split; reflexivity. Qed.

Example ToUpper1_examples :
  GoStrings.ToUpper1 "f" = "F" /\ GoStrings.ToUpper1 "T" = "T" /\ GoStrings.ToUpper1 "" = "".
Proof. repeat split; reflexivity. Qed.

(** ** The panic monad *)

Lemma bind_Ok {A B} (f : A -> result B) (a : A) : Ok a ≫= f = f a.
Proof. reflexivity. Qed.

Lemma bind_Panic {A B} (f : A -> result B) (e : panic) : Panic e ≫= f = Panic e.
Proof. reflexivity. Qed.

Lemma bind_eq_Ok {A B} (f : A -> result B) (m : result A) (b : B) :
  m ≫= f = Ok b <-> exists a, m = Ok a /\ f a = Ok b.
Proof.
  destruct m as [a|e]; simpl; split.
  - intros Hf. exists a. split; [reflexivity | exact Hf].
  - intros (a' & Ha & Hf). injection Ha as ->. exact Hf.
  - discriminate.
  - intros (a' & Ha & _). discriminate.
Qed.

Lemma panics_bind {A B} (f : A -> result B) (m : result A) :
  panics m = true -> panics (m ≫= f) = true.
Proof. destruct m; [discriminate | reflexivity]. Qed.

Lemma panics_bind_all {A B} (f : A -> result B) (m : result A) :
  (forall a, panics (f a) = true) -> panics (m ≫= f) = true.
Proof. intros Hf. destruct m as [a|e]; [apply Hf | reflexivity]. Qed.

Lemma returns_true {A} (m : result A) : returns m = true <-> exists a, m = Ok a.
Proof.
  destruct m as [a|e]; simpl; split; eauto; try discriminate.
  intros (a & Ha). discriminate.
Qed.

Lemma panics_true {A} (m : result A) : panics m = true <-> exists e, m = Panic e.
Proof.
  destruct m as [a|e]; simpl; split; eauto; try discriminate.
  intros (e & He). discriminate.
Qed.

Lemma index_0_nil {A} : index (@nil A) 0 = Panic (IndexOutOfRange 0 0).
Proof. reflexivity. Qed.

Lemma index_0_cons {A} (x : A) (l : list A) : index (x :: l) 0 = Ok x.
Proof. reflexivity. Qed.

Lemma index_Ok {A} (l : list A) (i : Z) (x : A) :
  index l i = Ok x <-> 0 <= i /\ l !! Z.to_nat i = Some x.
Proof.
  unfold index.
  destruct (i <? 0) eqn:Hneg; simpl.
  - apply Z.ltb_lt in Hneg. split; [discriminate | lia].
  - apply Z.ltb_ge in Hneg.
    destruct (Z.of_nat (length l) <=? i) eqn:Hlen.
    + apply Z.leb_le in Hlen. split; [discriminate |].
      intros [_ Hl]. apply lookup_lt_Some in Hl. lia.
    + destruct (l !! Z.to_nat i) as [y|]; split.
      * intros [= ->]. split; [lia | reflexivity].
      * intros [_ [= ->]]. reflexivity.
      * discriminate.
      * intros [_ ?]. discriminate.
Qed.

(** If the body of a loop panics on some element whatever the
    accumulator, the loop panics. *)
Lemma foldM_panics {A B} (f : B -> A -> result B) (l : list A) (x : A) :
  x ∈ l -> (forall acc, panics (f acc x) = true) ->
  forall acc, panics (foldM f acc l) = true.
Proof.
  intros Hin Hx. induction l as [|y l IH]; intros acc.
  - inversion Hin.
  - simpl. apply elem_of_cons in Hin as [<- | Hin].
    + apply panics_bind, Hx.
    + apply panics_bind_all. intros acc'. apply IH, Hin.
Qed.

Section Properties.
Context `{StringExtras} `{UnicodeTables}.

(** ** The type classifier *)

Ltac unsupported_kind Hk :=
  apply bool_decide_eq_false in Hk;
  match goal with
  | |- context [field_Type ?f] =>
      destruct (field_Type f) as [|q|q]; try reflexivity;
      do 5 (try (destruct q as [q|q|]; try reflexivity));
      exfalso; apply Hk; vm_compute; set_solver
  end.

Ltac supported_kind Hk :=
  apply bool_decide_eq_true in Hk;
  unfold supportedKinds, kinds32, kinds64 in Hk; simpl in Hk;
  repeat (apply elem_of_cons in Hk as [Hk | Hk]; [rewrite Hk |]);
  [.. | inversion Hk].

Lemma BasicFieldType_unsupported inField :
  supportedKind (field_Type inField) = false ->
  BasicFieldType inField
  = Panic (ErrorGenerating "Error generating type for field" (field_Type inField)).
Proof. unfold supportedKind, BasicFieldType. intros Hk. unsupported_kind Hk. Qed.

Lemma BasicFieldEncoder_unsupported inField :
  supportedKind (field_Type inField) = false ->
  BasicFieldEncoder inField
  = Panic (ErrorGenerating "Error generating decoder for field" (field_Type inField)).
Proof. unfold supportedKind, BasicFieldEncoder. intros Hk. unsupported_kind Hk. Qed.

Lemma BasicFieldDecoder_unsupported inField :
  supportedKind (field_Type inField) = false ->
  BasicFieldDecoder inField
  = Panic (ErrorGenerating "error generating decoder for field" (field_Type inField)).
Proof. unfold supportedKind, BasicFieldDecoder. intros Hk. unsupported_kind Hk. Qed.

Lemma BasicFieldType_supported inField :
  supportedKind (field_Type inField) = true -> returns (BasicFieldType inField) = true.
Proof.
  unfold supportedKind, BasicFieldType. intros Hk.
  supported_kind Hk; try reflexivity;
    destruct (WellKnownTypeMap !! field_TypeName inField); reflexivity.
Qed.

Lemma BasicFieldEncoder_supported inField :
  supportedKind (field_Type inField) = true -> returns (BasicFieldEncoder inField) = true.
Proof.
  unfold supportedKind, BasicFieldEncoder. intros Hk.
  supported_kind Hk; try reflexivity;
    destruct (WellKnownTypeMap !! field_TypeName inField); reflexivity.
Qed.

Lemma BasicFieldDecoder_supported inField :
  supportedKind (field_Type inField) = true -> returns (BasicFieldDecoder inField) = true.
Proof.
  unfold supportedKind, BasicFieldDecoder. intros Hk.
  supported_kind Hk; try reflexivity;
    destruct (WellKnownTypeMap !! field_TypeName inField); reflexivity.
Qed.


(** *** A panic of the classifier ends [messages] *)

Lemma isOptional_unsupported inField :
  supportedKind (field_Type inField) = false -> isOptional inField = false.
Proof.
  intros Hk. unfold isOptional.
  destruct (field_Type inField =? 11) eqn:Ht; [| apply andb_false_r].
  apply Z.eqb_eq in Ht. rewrite Ht in Hk. discriminate.
Qed.

Lemma fieldEntryOf_unsupported nestedPreface messagePb inField :
  field_OneofIndex inField = None ->
  getNestedType inField messagePb = None ->
  supportedKind (field_Type inField) = false ->
  panics (fieldEntryOf nestedPreface messagePb inField) = true.
Proof.
  intros Hone Hmap Hk. unfold fieldEntryOf.
  rewrite Hone, Hmap, (isOptional_unsupported _ Hk).
  destruct (isRepeated inField);
    rewrite (BasicFieldType_unsupported _ Hk); reflexivity.
Qed.

Lemma addField_unsupported nestedPreface messagePb p alias inField :
  keptField p inField = true ->
  field_OneofIndex inField = None ->
  getNestedType inField messagePb = None ->
  supportedKind (field_Type inField) = false ->
  panics (addField nestedPreface messagePb p alias inField) = true.
Proof.
  intros Hkept Hone Hmap Hk. unfold addField.
  unfold keptField in Hkept. apply negb_true_iff in Hkept. rewrite Hkept.
  apply panics_bind. apply fieldEntryOf_unsupported; assumption.
Qed.

Lemma messageAlias_unsupported preface messagePb p inField :
  inField ∈ msg_Field messagePb ->
  keptField p inField = true ->
  field_OneofIndex inField = None ->
  getNestedType inField messagePb = None ->
  supportedKind (field_Type inField) = false ->
  panics (messageAlias preface messagePb p) = true.
Proof.
  intros Hin Hkept Hone Hmap Hk. unfold messageAlias.
  apply panics_bind.
  apply (foldM_panics _ _ inField); [exact Hin |].
  intros acc. apply addField_unsupported; assumption.
Qed.

Lemma message_alias_panics preface messagePb p :
  panics (messageAlias preface messagePb p) = true ->
  panics (message preface messagePb p) = true.
Proof.
  intros Ha. destruct messagePb. simpl.
  apply panics_bind. exact Ha.
Qed.

Lemma messages_cons preface messagePb rest p :
  messages preface (messagePb :: rest) p
  = if isDeprecated (OfMessageOptions (msg_Options messagePb)) && RemoveDeprecated p
    then messages preface rest p
    else m ← message preface messagePb p;
         ms ← messages preface rest p;
         Ok (m :: ms).
Proof. reflexivity. Qed.

Lemma messages_panics preface messagePbs p messagePb :
  messagePb ∈ messagePbs ->
  keptMessage p messagePb = true ->
  panics (message preface messagePb p) = true ->
  panics (messages preface messagePbs p) = true.
Proof.
  intros Hin Hkept Hm. induction messagePbs as [|m rest IH].
  - inversion Hin.
  - rewrite messages_cons. apply elem_of_cons in Hin as [<- | Hin].
    + unfold keptMessage in Hkept. apply negb_true_iff in Hkept. rewrite Hkept.
      apply panics_bind. exact Hm.
    + destruct (isDeprecated (OfMessageOptions (msg_Options m)) && RemoveDeprecated p).
      * apply IH, Hin.
      * apply panics_bind_all. intros a. apply panics_bind. apply IH, Hin.
Qed.

(** C7: a field whose wire kind is outside the classifier's enumeration
    (every declared kind but [TYPE_GROUP]) makes each of [BasicFieldType],
    [BasicFieldEncoder] and [BasicFieldDecoder] panic, and the panic is
    not caught: [messages] panics on any list that holds a kept message
    with such a field (kept, outside a oneof and not a map field, so that
    the field itself is classified).  On a field of a supported kind each
    of the three classifiers returns. *)
Theorem classification_panics_iff_unsupported inField :
  (supportedKind (field_Type inField) = false ->
     BasicFieldType inField
       = Panic (ErrorGenerating "Error generating type for field" (field_Type inField))
     /\ BasicFieldEncoder inField
       = Panic (ErrorGenerating "Error generating decoder for field" (field_Type inField))
     /\ BasicFieldDecoder inField
       = Panic (ErrorGenerating "error generating decoder for field" (field_Type inField))
     /\ forall preface messagePbs messagePb p,
          messagePb ∈ messagePbs -> keptMessage p messagePb = true ->
          inField ∈ msg_Field messagePb -> keptField p inField = true ->
          field_OneofIndex inField = None -> getNestedType inField messagePb = None ->
          panics (messages preface messagePbs p) = true)
  /\ (supportedKind (field_Type inField) = true ->
        returns (BasicFieldType inField) = true
        /\ returns (BasicFieldEncoder inField) = true
        /\ returns (BasicFieldDecoder inField) = true).
Proof.
  split.
  - intros Hk. repeat split.
    + apply BasicFieldType_unsupported, Hk.
    + apply BasicFieldEncoder_unsupported, Hk.
    + apply BasicFieldDecoder_unsupported, Hk.
    + intros preface messagePbs messagePb p Hm Hkm Hf Hkf Hone Hmap.
      apply (messages_panics _ _ _ messagePb); [exact Hm | exact Hkm |].
      apply message_alias_panics.
      apply (messageAlias_unsupported _ _ _ inField); assumption.
  - intros Hk. repeat split.
    + apply BasicFieldType_supported, Hk.
    + apply BasicFieldEncoder_supported, Hk.
    + apply BasicFieldDecoder_supported, Hk.
Qed.

(** C8, as the code has it: every 64-bit integer kind gets the encoder
    [numericStringEncoder], which writes the value as a numeric string,
    and every 32-bit integer kind gets the direct encoder [JE.int]; both
    groups get one and the same decoder, [intDecoder], and both map to
    [Int]. *)
Theorem integer_kinds_codecs inField :
  (field_Type inField ∈ kinds64 ->
     BasicFieldEncoder inField = Ok "numericStringEncoder"
     /\ BasicFieldDecoder inField = Ok "intDecoder"
     /\ BasicFieldType inField = Ok intType)
  /\ (field_Type inField ∈ kinds32 ->
     BasicFieldEncoder inField = Ok "JE.int"
     /\ BasicFieldDecoder inField = Ok "intDecoder"
     /\ BasicFieldType inField = Ok intType).
Proof.
  unfold BasicFieldEncoder, BasicFieldDecoder, BasicFieldType, kinds32, kinds64.
  split; intros Hk;
    repeat (apply elem_of_cons in Hk as [Hk | Hk]; [rewrite Hk; repeat split; reflexivity |]);
    inversion Hk.
Qed.

(** ** Default values *)

Lemma fieldDefault_string field :
  field_Type field = TYPE_STRING ->
  fieldDefault field
  = Ok (dquote +:+ GoStrings.Replace (field_DefaultValue field)
                     (Stdlib.Strings.Ascii.ascii_of_N 34) ("\" +:+ dquote) +:+ dquote).
Proof. intros Ht. unfold fieldDefault. rewrite Ht. reflexivity. Qed.

Lemma fieldDefault_bool_explicit field c rest :
  field_Type field = TYPE_BOOL ->
  field_DefaultValue field = String c rest ->
  fieldDefault field = Ok (GoStrings.ToUpper1 (String c EmptyString) +:+ rest)%string.
Proof.
  intros Ht Hd. unfold fieldDefault. rewrite Ht, Hd.
  unfold sliceTo, sliceFrom.
  replace (String.length (String c rest)) with (S (String.length rest)) by reflexivity.
  replace (Z.of_nat (S (String.length rest)) <? 1) with false
    by (symmetry; apply Z.ltb_ge; lia).
  cbn [orb Z.ltb Z.compare mbind result_bind].
  replace (Z.to_nat 1) with 1%nat by reflexivity.
  replace (S (String.length rest) - 1)%nat with (String.length rest) by lia.
  cbn [String.substring].
  assert (Hsub : forall s, String.substring 0 (String.length s) s = s)
    by (induction s as [|a s IH]; simpl; [reflexivity | rewrite IH; reflexivity]).
  rewrite Hsub.
  destruct rest; cbn [String.substring].
  - destruct (GoStrings.byte c <? 128) eqn:Hb; unfold GoStrings.ToUpper1; rewrite Hb; reflexivity.
  - destruct (GoStrings.byte c <? 128) eqn:Hb; unfold GoStrings.ToUpper1; rewrite Hb; reflexivity.
Qed.

Lemma fieldDefault_bool_missing field :
  field_Type field = TYPE_BOOL ->
  field_DefaultValue field = "" ->
  fieldDefault field = Panic (SliceBoundsOutOfRange 1 0).
Proof. intros Ht Hd. unfold fieldDefault. rewrite Ht, Hd. reflexivity. Qed.

Lemma fieldDefault_int32_missing field :
  field_Type field = TYPE_INT32 ->
  field_Label field <> LABEL_REPEATED ->
  field_DefaultValue field = "" ->
  fieldDefault field = Ok "0".
Proof.
  intros Ht Hl Hd. unfold fieldDefault, BasicFieldDefaultValue. rewrite Ht, Hd.
  apply Z.eqb_neq in Hl. cbn. rewrite Hl. reflexivity.
Qed.

Example fieldDefault_samples :
  fieldDefault (fieldWithDefault "b" 1 TYPE_BOOL "false") = Ok "False"
  /\ fieldDefault (fieldWithDefault "b" 1 TYPE_BOOL "true") = Ok "True"
  /\ fieldDefault (fieldWithDefault "s" 1 TYPE_STRING ("He said " +:+ dquote +:+ "hi" +:+ dquote))
     = Ok (dquote +:+ "He said \" +:+ dquote +:+ "hi\" +:+ dquote +:+ dquote)
  /\ fieldDefault (plainField "n" 1 TYPE_INT32) = Ok "0".
Proof. repeat split; reflexivity. Qed.

(** C6: a singular bool field without a schema default, as every proto3
    bool field is: [fieldDefault] slices the empty default before it tests
    it for emptiness and panics, although the fallback it never reaches,
    [BasicFieldDefaultValue], gives ["False"]; the panic ends [messages]
    for the message that declares the field. *)
Theorem bool_field_without_default_panics :
  fieldDefault (plainField "flag" 1 TYPE_BOOL) = Panic (SliceBoundsOutOfRange 1 0)
  /\ BasicFieldDefaultValue (plainField "flag" 1 TYPE_BOOL) = Ok "False"
  /\ messages [] [flaggedMessage] noParameters = Panic (SliceBoundsOutOfRange 1 0).
Proof. repeat split; reflexivity. Qed.

(** ** Enums *)

Lemma foldl_append_filter {A B} (skip : A -> bool) (f : A -> B) (l : list A) (acc : list B) :
  foldl (fun acc x => if skip x then acc else acc ++ [f x]) acc l
  = acc ++ map f (List.filter (fun x => negb (skip x)) l).
Proof.
  revert acc. induction l as [|x l IH]; intros acc; simpl.
  - symmetry. apply app_nil_r.
  - rewrite IH. destruct (skip x); simpl; [reflexivity |].
    rewrite <- app_assoc. reflexivity.
Qed.

Lemma enumValues_kept preface enumPb p :
  enumValues preface enumPb p
  = map (variantOf preface) (List.filter (keptValue p) (enum_Value enumPb)).
Proof.
  unfold enumValues.
  exact (foldl_append_filter
           (fun value => isDeprecated (OfEnumValueOptions (value_Options value))
                         && RemoveDeprecated p)
           (variantOf preface) (enum_Value enumPb) []).
Qed.

Lemma enumToCustomType_Ok preface enumPb p t :
  enumToCustomType preface enumPb p = Ok t ->
  exists value rest,
    List.filter (keptValue p) (enum_Value enumPb) = value :: rest
    /\ ect_DefaultVariantValue t = NestedVariantName (value_Name value) preface
    /\ ect_Variants t = map (variantOf preface) (value :: rest).
Proof.
  unfold enumToCustomType. rewrite enumValues_kept.
  destruct (List.filter (keptValue p) (enum_Value enumPb)) as [|value rest].
  - discriminate.
  - simpl. intros [= <-]. exists value, rest. repeat split.
Qed.

Lemma enumToCustomType_empty preface enumPb p :
  List.filter (keptValue p) (enum_Value enumPb) = [] ->
  enumToCustomType preface enumPb p = Panic (IndexOutOfRange 0 0).
Proof.
  intros He. unfold enumToCustomType. rewrite enumValues_kept, He. reflexivity.
Qed.

Lemma enumToCustomType_panic preface enumPb p e :
  enumToCustomType preface enumPb p = Panic e -> e = IndexOutOfRange 0 0.
Proof.
  unfold enumToCustomType. rewrite enumValues_kept.
  destruct (List.filter (keptValue p) (enum_Value enumPb)) as [|value rest].
  - intros [= <-]. reflexivity.
  - cbn [map]. rewrite index_0_cons. discriminate.
Qed.

Lemma enumsToCustomTypes_cons preface enumPb rest p :
  enumsToCustomTypes preface (enumPb :: rest) p
  = if keptEnum p enumPb
    then t ← enumToCustomType preface enumPb p;
         ts ← enumsToCustomTypes preface rest p;
         Ok (t :: ts)
    else enumsToCustomTypes preface rest p.
Proof.
  unfold keptEnum. cbn [enumsToCustomTypes].
  destruct (isDeprecated (OfEnumOptions (enum_Options enumPb)) && RemoveDeprecated p);
    reflexivity.
Qed.

Lemma enumsToCustomTypes_Ok preface enumPbs p ts :
  enumsToCustomTypes preface enumPbs p = Ok ts ->
  Forall2 (fun enumPb t => enumToCustomType preface enumPb p = Ok t)
          (List.filter (keptEnum p) enumPbs) ts.
Proof.
  revert ts. induction enumPbs as [|enumPb rest IH]; intros ts.
  - simpl. intros [= <-]. constructor.
  - rewrite enumsToCustomTypes_cons. simpl.
    destruct (keptEnum p enumPb); [| apply IH].
    intros Hts. apply bind_eq_Ok in Hts as (t & Ht & Hts).
    apply bind_eq_Ok in Hts as (ts' & Hts' & [= <-]).
    constructor; [exact Ht | apply IH, Hts'].
Qed.

Lemma keptValue_without_filter p value :
  RemoveDeprecated p = false -> keptValue p value = true.
Proof. intros Hp. unfold keptValue. rewrite Hp, andb_false_r. reflexivity. Qed.

Lemma filter_all {A} (f : A -> bool) (l : list A) :
  (forall x, f x = true) -> List.filter f l = l.
Proof.
  intros Hf. induction l as [|x l IH]; simpl; [reflexivity |].
  rewrite Hf, IH. reflexivity.
Qed.

Lemma filter_none {A} (f : A -> bool) (l : list A) :
  Forall (fun x => f x = false) l -> List.filter f l = [].
Proof.
  induction 1 as [|x l Hx _ IH]; simpl; [reflexivity |].
  rewrite Hx. exact IH.
Qed.

(** C5, as the code has it: the default value of every enum custom type is the
    resolved name of the first declared variant that the deprecation
    filter keeps; with [remove-deprecated] off, or when the first declared
    variant is not deprecated, that is the first declared variant. *)
Theorem enum_default_is_first_kept_variant preface enumPbs p ts :
  enumsToCustomTypes preface enumPbs p = Ok ts ->
  Forall2 (fun enumPb t =>
             exists value rest,
               List.filter (keptValue p) (enum_Value enumPb) = value :: rest
               /\ ect_DefaultVariantValue t = NestedVariantName (value_Name value) preface
               /\ (forall first others,
                     enum_Value enumPb = first :: others ->
                     keptValue p first = true -> value = first))
          (List.filter (keptEnum p) enumPbs) ts.
Proof.
  intros Hts. apply enumsToCustomTypes_Ok in Hts.
  eapply Forall2_impl; [exact Hts |].
  intros enumPb t Ht. simpl in Ht.
  apply enumToCustomType_Ok in Ht as (value & rest & Hkept & Hdef & _).
  exists value, rest. repeat split; [exact Hkept | exact Hdef |].
  intros first others Hvalues Hfirst.
  rewrite Hvalues in Hkept. simpl in Hkept. rewrite Hfirst in Hkept.
  congruence.
Qed.

(** C10, as the code has it: an enum descriptor that the deprecation filter does
    not drop as a whole, and that either declares no variant or has only
    deprecated variants while [remove-deprecated] is on, makes
    [enumsToCustomTypes] panic: the default variant is read at index 0 of
    the empty list of kept variants. *)
Theorem enum_without_kept_variant_panics preface enumPbs p enumPb :
  enumPb ∈ enumPbs ->
  keptEnum p enumPb = true ->
  enum_Value enumPb = []
  \/ (RemoveDeprecated p = true
      /\ Forall (fun value => isDeprecated (OfEnumValueOptions (value_Options value)) = true)
                (enum_Value enumPb)) ->
  enumsToCustomTypes preface enumPbs p = Panic (IndexOutOfRange 0 0).
Proof.
  intros Hin Hkept Hvalues.
  assert (Hnone : List.filter (keptValue p) (enum_Value enumPb) = []).
  { destruct Hvalues as [-> | [Hp Hall]]; [reflexivity |].
    apply filter_none. eapply Forall_impl; [exact Hall |].
    intros value Hd. cbv beta in Hd. unfold keptValue. rewrite Hd, Hp. reflexivity. }
  induction enumPbs as [|enumPb' rest IH].
  - inversion Hin.
  - rewrite enumsToCustomTypes_cons.
    apply elem_of_cons in Hin as [<- | Hin].
    + rewrite Hkept, (enumToCustomType_empty _ _ _ Hnone). reflexivity.
    + specialize (IH Hin). rewrite IH.
      destruct (keptEnum p enumPb'); [| reflexivity].
      destruct (enumToCustomType preface enumPb' p) as [t|e] eqn:Ht; [reflexivity |].
      apply enumToCustomType_panic in Ht. rewrite Ht. reflexivity.
Qed.

(** ** The type alias of a message *)

Ltac bind_inv H :=
  repeat (apply bind_eq_Ok in H as (? & ? & H));
  try (injection H as <-).

Lemma fieldEntryOf_oneof nestedPreface messagePb fieldPb oneofIndex e :
  field_OneofIndex fieldPb = Some oneofIndex ->
  fieldEntryOf nestedPreface messagePb fieldPb = Ok e ->
  exists oneof,
    index (msg_OneofDecl messagePb) oneofIndex = Ok oneof
    /\ e = EncoderOnly
             {| taf_Name := FieldName (oneof_Name oneof);
                taf_Type := NestedType (oneof_Name oneof) nestedPreface;
                taf_Number := field_Number fieldPb;
                taf_Default := "";
                taf_Decoder := "";
                taf_Encoder := OneOfEncoder oneof fieldPb
                                 (NestedType (oneof_Name oneof) nestedPreface) |}.
Proof.
  intros Hone He. unfold fieldEntryOf in He. rewrite Hone in He.
  apply bind_eq_Ok in He as (oneof & Hidx & [= <-]).
  exists oneof. split; [exact Hidx | reflexivity].
Qed.

Lemma fieldEntryOf_plain nestedPreface messagePb fieldPb e :
  field_OneofIndex fieldPb = None ->
  fieldEntryOf nestedPreface messagePb fieldPb = Ok e ->
  exists f, e = FieldAndEncoder f
            /\ taf_Name f = FieldName (field_Name fieldPb)
            /\ taf_Number f = field_Number fieldPb.
Proof.
  intros Hone He. unfold fieldEntryOf in He. rewrite Hone in He.
  destruct (getNestedType fieldPb messagePb) as [nested|].
  { bind_inv He. eexists. repeat split. }
  destruct (isOptional fieldPb).
  { bind_inv He. eexists. repeat split. }
  destruct (isRepeated fieldPb).
  { bind_inv He. eexists. repeat split. }
  bind_inv He. eexists. repeat split.
Qed.

Lemma fieldEntryOf_number nestedPreface messagePb fieldPb e :
  fieldEntryOf nestedPreface messagePb fieldPb = Ok e ->
  taf_Number (entryField e) = field_Number fieldPb.
Proof.
  intros He. destruct (field_OneofIndex fieldPb) as [i|] eqn:Hone.
  - destruct (fieldEntryOf_oneof _ _ _ _ _ Hone He) as (oneof & _ & ->). reflexivity.
  - destruct (fieldEntryOf_plain _ _ _ _ Hone He) as (f & -> & _ & Hn). exact Hn.
Qed.

(** The first loop of [messages]: what it appends to the two lists. *)
Lemma foldM_addField nestedPreface messagePb p fields :
  forall alias alias',
    foldM (addField nestedPreface messagePb p) alias fields = Ok alias' ->
    exists entries,
      Forall2 (fun fieldPb e => fieldEntryOf nestedPreface messagePb fieldPb = Ok e)
              (List.filter (keptField p) fields) entries
      /\ ta_FieldEncoders alias' = ta_FieldEncoders alias ++ map entryField entries
      /\ ta_Fields alias' = ta_Fields alias ++ concat (map entryFields entries)
      /\ ta_Name alias' = ta_Name alias.
Proof.
  induction fields as [|fieldPb rest IH]; intros alias alias' Hfold.
  - simpl in Hfold. injection Hfold as <-. exists [].
    repeat split; simpl; rewrite ?app_nil_r; try reflexivity. constructor.
  - cbn [foldM] in Hfold. apply bind_eq_Ok in Hfold as (alias1 & Hstep & Hrest).
    apply IH in Hrest as (entries & Hentries & Hencs & Hfields & Hname).
    unfold addField in Hstep. cbn [List.filter]. unfold keptField at 1.
    destruct (isDeprecated (OfFieldOptions (field_Options fieldPb)) && RemoveDeprecated p).
    + injection Hstep as <-. exists entries. repeat split; assumption.
    + apply bind_eq_Ok in Hstep as (e & He & Hstep).
      exists (e :: entries). cbn [negb]. split; [constructor; assumption |].
      destruct e as [f|f]; injection Hstep as <-;
        rewrite Hencs, Hfields, Hname; cbn; rewrite <- ?app_assoc; repeat split.
Qed.

(** The second loop of [messages]: one field for every oneof declaration. *)
Lemma foldl_oneofFields nestedPreface decls :
  forall alias,
    let alias' := foldl (fun alias oneOfPb =>
                           appendFields alias (oneofField nestedPreface oneOfPb))
                        alias decls in
    ta_FieldEncoders alias' = ta_FieldEncoders alias
    /\ ta_Fields alias' = ta_Fields alias ++ map (oneofField nestedPreface) decls
    /\ ta_Name alias' = ta_Name alias.
Proof.
  induction decls as [|oneOfPb rest IH]; intros alias; cbn [foldl map].
  - rewrite app_nil_r. repeat split.
  - destruct (IH (appendFields alias (oneofField nestedPreface oneOfPb))) as (He & Hf & Hn).
    cbv zeta in *. rewrite He, Hf, Hn. cbn. rewrite <- app_assoc. repeat split.
Qed.

(** What [messages] puts into the type alias of a message it keeps. *)
Lemma messageAlias_Ok preface messagePb p alias :
  messageAlias preface messagePb p = Ok alias ->
  exists entries,
    Forall2 (fun fieldPb e =>
               fieldEntryOf (nestedPrefaceOf preface messagePb) messagePb fieldPb = Ok e)
            (keptFields messagePb p) entries
    /\ ta_FieldEncoders alias = sort_Slice lessByNumber (map entryField entries)
    /\ ta_Fields alias
       = concat (map entryFields entries)
         ++ map (oneofField (nestedPrefaceOf preface messagePb)) (msg_OneofDecl messagePb)
    /\ ta_Name alias = NestedType (msg_Name messagePb) preface.
Proof.
  unfold messageAlias. intros Ha.
  apply bind_eq_Ok in Ha as (alias1 & Hfold & [= <-]).
  apply foldM_addField in Hfold as (entries & Hentries & Hencs & Hfields & Hname).
  exists entries. split; [exact Hentries |].
  match goal with
  | |- context [foldl ?f ?a ?l] =>
      destruct (foldl_oneofFields (nestedPrefaceOf preface messagePb)
                  (msg_OneofDecl messagePb) a) as (He & Hf & Hn)
  end.
  cbv zeta in He, Hf, Hn. rewrite He, Hf, Hn. cbn.
  rewrite Hencs, Hfields, Hname. repeat split.
Qed.

(** ** The index alignment planner *)

#[local] Instance notLess_number_total : Total (notLess lessByNumber).
Proof.
  intros a b. unfold notLess, lessByNumber.
  destruct (Z.ltb_spec (taf_Number b) (taf_Number a));
    destruct (Z.ltb_spec (taf_Number a) (taf_Number b)); auto; lia.
Qed.

#[local] Instance notLess_number_trans : Transitive (notLess lessByNumber).
Proof.
  intros a b c. unfold notLess, lessByNumber.
  rewrite !Z.ltb_ge. lia.
Qed.

Lemma sort_Slice_Permutation (l : list TypeAliasField) :
  sort_Slice lessByNumber l ≡ₚ l.
Proof. apply merge_sort_Permutation. Qed.

(** Without duplicate numbers the sorted slice is strictly increasing. *)
Lemma sort_Slice_increasing (l : list TypeAliasField) :
  NoDup (map taf_Number l) ->
  StronglySorted (fun a b => taf_Number a < taf_Number b) (sort_Slice lessByNumber l).
Proof.
  intros Hnodup.
  assert (Hsorted : StronglySorted (notLess lessByNumber) (sort_Slice lessByNumber l))
    by apply (StronglySorted_merge_sort _).
  assert (Hnodup' : NoDup (map taf_Number (sort_Slice lessByNumber l))).
  { eapply NoDup_Permutation_proper; [| exact Hnodup].
    apply Permutation_map, sort_Slice_Permutation. }
  induction Hsorted as [|a rest Hrest IH Hhd]; [constructor |].
  cbn [map] in Hnodup'. apply NoDup_cons in Hnodup' as [Hnotin Hnodup'].
  constructor; [apply IH, Hnodup' |].
  rewrite Forall_forall in Hhd |- *. intros b Hb.
  specialize (Hhd b Hb). unfold notLess, lessByNumber in Hhd.
  apply Z.ltb_ge in Hhd.
  assert (taf_Number a <> taf_Number b).
  { intros Heq. apply Hnotin. rewrite Heq. apply list_elem_of_fmap_2, Hb. }
  lia.
Qed.

Lemma foldr_max_base (a b : Z) (l : list Z) :
  b <= a -> foldr Z.max a l = Z.max a (foldr Z.max b l).
Proof. intros Hab. induction l as [|x l IH]; simpl; lia. Qed.

Lemma maxNumber_ge (l : list Z) (k : Z) : k ∈ l -> k <= maxNumber l.
Proof.
  unfold maxNumber. induction l as [|x l IH]; intros Hin; [inversion Hin |].
  apply elem_of_cons in Hin as [-> | Hin]; simpl; [lia |].
  specialize (IH Hin). lia.
Qed.

Lemma maxNumber_Permutation (l1 l2 : list Z) : l1 ≡ₚ l2 -> maxNumber l1 = maxNumber l2.
Proof. unfold maxNumber. induction 1; simpl; lia. Qed.

(** One round of the template loop. *)
Lemma encoderItems_cons idx v rest :
  map item_expr (encoderItems idx (v :: rest))
  = replicate (Z.to_nat (taf_Number v - idx)) JE_null
    ++ EncoderCall (taf_Encoder v)
    :: map item_expr (encoderItems (taf_Number v + 1) rest).
Proof.
  cbn [encoderItems]. rewrite map_app, map_map. cbn [map item_expr].
  f_equal. unfold fieldSeq, seqZ. rewrite map_map.
  generalize (Z.to_nat (taf_Number v - idx)) as n. intros n.
  generalize 0%nat as start.
  induction n as [|n IH]; intros start; [reflexivity |].
  cbn [seq map replicate]. f_equal. apply IH.
Qed.

Lemma encoderItems_length idx fieldEncoders :
  StronglySorted (fun a b => taf_Number a < taf_Number b) fieldEncoders ->
  Forall (fun v => idx <= taf_Number v) fieldEncoders ->
  Z.of_nat (length (map item_expr (encoderItems idx fieldEncoders)))
  = foldr Z.max (idx - 1) (map taf_Number fieldEncoders) - (idx - 1).
Proof.
  intros Hsorted. revert idx.
  induction Hsorted as [|v rest Hrest IH Hhd]; intros idx Hge.
  - simpl. lia.
  - apply Forall_cons in Hge as [Hv Hge].
    rewrite encoderItems_cons, length_app, length_replicate. cbn [length].
    rewrite Nat2Z.inj_add, Nat2Z.inj_succ, IH
      by (eapply Forall_impl; [exact Hhd |]; intros w Hw; simpl in Hw; lia).
    cbn [map foldr].
    replace (taf_Number v + 1 - 1) with (taf_Number v) by lia.
    rewrite (foldr_max_base (taf_Number v) (idx - 1)) by lia.
    lia.
Qed.

(** Where the encoder of a field and where the placeholders are. *)
Lemma encoderItems_lookup idx fieldEncoders :
  StronglySorted (fun a b => taf_Number a < taf_Number b) fieldEncoders ->
  Forall (fun v => idx <= taf_Number v) fieldEncoders ->
  forall k, idx <= k ->
    (forall v, v ∈ fieldEncoders -> taf_Number v = k ->
       map item_expr (encoderItems idx fieldEncoders) !! Z.to_nat (k - idx)
       = Some (EncoderCall (taf_Encoder v)))
    /\ (k <= foldr Z.max (idx - 1) (map taf_Number fieldEncoders) ->
        (forall v, v ∈ fieldEncoders -> taf_Number v <> k) ->
        map item_expr (encoderItems idx fieldEncoders) !! Z.to_nat (k - idx) = Some JE_null).
Proof.
  intros Hsorted. revert idx.
  induction Hsorted as [|v rest Hrest IH Hhd]; intros idx Hge k Hk.
  - split; [intros v Hv; inversion Hv |]. simpl. lia.
  - apply Forall_cons in Hge as [Hv Hge].
    assert (Hge' : Forall (fun w => taf_Number v + 1 <= taf_Number w) rest)
      by (eapply Forall_impl; [exact Hhd |]; intros w Hw; simpl in Hw; lia).
    rewrite encoderItems_cons.
    assert (Hmax : foldr Z.max (idx - 1) (map taf_Number (v :: rest))
                   = foldr Z.max (taf_Number v + 1 - 1) (map taf_Number rest)).
    { cbn [map foldr]. replace (taf_Number v + 1 - 1) with (taf_Number v) by lia.
      rewrite (foldr_max_base (taf_Number v) (idx - 1)) by lia. lia. }
    destruct (Z.lt_trichotomy k (taf_Number v)) as [Hlt | [Heq | Hgt]].
    + (* a gap below the field *)
      split.
      * intros w Hw Hwk. exfalso. apply elem_of_cons in Hw as [-> | Hw]; [lia |].
        rewrite Forall_forall in Hhd. specialize (Hhd w Hw). lia.
      * intros _ _. rewrite lookup_app_l by (rewrite length_replicate; lia).
        apply lookup_replicate_2. lia.
    + (* the field itself *)
      split.
      * intros w Hw Hwk. apply elem_of_cons in Hw as [-> | Hw].
        -- rewrite lookup_app_r by (rewrite length_replicate; lia).
           rewrite length_replicate.
           replace (Z.to_nat (k - idx) - Z.to_nat (taf_Number v - idx))%nat with 0%nat by lia.
           reflexivity.
        -- exfalso. rewrite Forall_forall in Hhd. specialize (Hhd w Hw). lia.
      * intros _ Hnone. exfalso. apply (Hnone v); [left | lia].
    + (* above the field: the rest of the loop *)
      destruct (IH (taf_Number v + 1) Hge' k ltac:(lia)) as [IHenc IHnull].
      assert (Hpos : forall x,
                 (replicate (Z.to_nat (taf_Number v - idx)) JE_null
                  ++ EncoderCall (taf_Encoder v) :: x) !! Z.to_nat (k - idx)
                 = x !! Z.to_nat (k - (taf_Number v + 1))).
      { intros x. rewrite lookup_app_r by (rewrite length_replicate; lia).
        rewrite length_replicate.
        replace (Z.to_nat (k - idx) - Z.to_nat (taf_Number v - idx))%nat
          with (S (Z.to_nat (k - (taf_Number v + 1)))) by lia.
        reflexivity. }
      rewrite Hpos. split.
      * intros w Hw Hwk. apply elem_of_cons in Hw as [-> | Hw]; [lia |].
        apply IHenc; assumption.
      * intros Hle Hnone. apply IHnull.
        -- rewrite <- Hmax. exact Hle.
        -- intros w Hw. apply Hnone. right. exact Hw.
Qed.

Lemma lookup_map {A B} (f : A -> B) (l : list A) (i : nat) :
  map f l !! i = f <$> (l !! i).
Proof.
  revert i. induction l as [|x l IH]; intros [|i]; simpl; try reflexivity. apply IH.
Qed.

Lemma entries_numbers nestedPreface messagePb fields entries :
  Forall2 (fun fieldPb e => fieldEntryOf nestedPreface messagePb fieldPb = Ok e)
          fields entries ->
  map taf_Number (map entryField entries) = map field_Number fields.
Proof.
  induction 1 as [|fieldPb e fields entries He _ IH]; [reflexivity |].
  cbn [map]. rewrite IH, (fieldEntryOf_number _ _ _ _ He). reflexivity.
Qed.

(** The encoder slots of a message carry the numbers of its kept fields,
    in increasing order when no number occurs twice. *)
Lemma messageAlias_FieldEncoders preface messagePb p alias :
  messageAlias preface messagePb p = Ok alias ->
  map taf_Number (ta_FieldEncoders alias) ≡ₚ map field_Number (keptFields messagePb p)
  /\ (NoDup (map field_Number (keptFields messagePb p)) ->
      StronglySorted (fun a b => taf_Number a < taf_Number b) (ta_FieldEncoders alias)).
Proof.
  intros Ha. apply messageAlias_Ok in Ha as (entries & Hentries & Hencs & _).
  apply entries_numbers in Hentries. rewrite Hencs, <- Hentries. split.
  - apply Permutation_map, sort_Slice_Permutation.
  - apply sort_Slice_increasing.
Qed.

(** The shape of the plan over a strictly increasing list of slots with
    positive numbers: position [k] holds a placeholder exactly when no
    slot has number [k]. *)
Lemma encodePlan_shape fieldEncoders :
  StronglySorted (fun a b => taf_Number a < taf_Number b) fieldEncoders ->
  Forall (fun v => 1 <= taf_Number v) fieldEncoders ->
  map isPlaceholder (map item_expr (encoderItems 1 fieldEncoders))
  = map (fun k => bool_decide (k ∉ map taf_Number fieldEncoders))
        (seqZ 1 (maxNumber (map taf_Number fieldEncoders))).
Proof.
  intros Hsorted Hpos.
  pose proof (encoderItems_length 1 _ Hsorted Hpos) as Hlen.
  change (foldr Z.max (1 - 1) (map taf_Number fieldEncoders))
    with (maxNumber (map taf_Number fieldEncoders)) in Hlen.
  apply list_eq. intros i.
  rewrite (lookup_map isPlaceholder),
    (lookup_map (fun k => bool_decide (k ∉ map taf_Number fieldEncoders))).
  destruct (decide (Z.of_nat i < maxNumber (map taf_Number fieldEncoders))) as [Hi | Hi].
  - rewrite lookup_seqZ_lt by lia. cbn [fmap option_fmap option_map].
    destruct (encoderItems_lookup 1 _ Hsorted Hpos (1 + Z.of_nat i) ltac:(lia))
      as [Henc Hnull].
    replace (Z.to_nat (1 + Z.of_nat i - 1)) with i in Henc, Hnull by lia.
    destruct (decide (1 + Z.of_nat i ∈ map taf_Number fieldEncoders)) as [Hin | Hnotin].
    + apply list_elem_of_fmap in Hin as (v & Hv & Hin).
      rewrite (Henc v Hin (eq_sym Hv)). cbn.
      rewrite bool_decide_eq_false_2; [reflexivity |].
      intros Hn. apply Hn. rewrite Hv. apply list_elem_of_fmap_2, Hin.
    + rewrite Hnull.
      * cbn. rewrite bool_decide_eq_true_2; [reflexivity | exact Hnotin].
      * change (foldr Z.max (1 - 1) (map taf_Number fieldEncoders))
          with (maxNumber (map taf_Number fieldEncoders)). lia.
      * intros v Hv Hk. apply Hnotin. rewrite <- Hk. apply list_elem_of_fmap_2, Hv.
  - rewrite lookup_seqZ_ge by lia.
    rewrite lookup_ge_None_2; [reflexivity |]. lia.
Qed.

(** C1: for a message whose kept fields have positive, pairwise distinct
    wire numbers, the encode-side plan has one expression for every
    position from 1 to the largest number: the parenthesised encoder of a
    slot at the position of its number, [JE.null] at every position that
    is the number of no kept field, and nothing after the last field.  With
    numbers 1, 3 and 5 the plan has five expressions with placeholders at
    positions 2 and 4; with the single number 4 it has four, the first
    three being placeholders. *)
Theorem encode_plan_alignment preface messagePb p alias :
  messageAlias preface messagePb p = Ok alias ->
  NoDup (map field_Number (keptFields messagePb p)) ->
  Forall (fun n => 1 <= n) (map field_Number (keptFields messagePb p)) ->
  let numbers := map field_Number (keptFields messagePb p) in
  let plan := encodePlan alias in
  map taf_Number (ta_FieldEncoders alias) ≡ₚ numbers
  /\ Z.of_nat (length plan) = maxNumber numbers
  /\ (forall v, v ∈ ta_FieldEncoders alias ->
        plan !! Z.to_nat (taf_Number v - 1) = Some (EncoderCall (taf_Encoder v)))
  /\ (forall k, 1 <= k <= maxNumber numbers -> k ∉ numbers ->
        plan !! Z.to_nat (k - 1) = Some JE_null)
  /\ map isPlaceholder plan
     = map (fun k => bool_decide (k ∉ numbers)) (seqZ 1 (maxNumber numbers))
  /\ (numbers ≡ₚ [1; 3; 5] ->
        map isPlaceholder plan = [false; true; false; true; false])
  /\ (numbers = [4] -> map isPlaceholder plan = [true; true; true; false]).
Proof.
  intros Ha Hnodup Hpos numbers plan.
  subst numbers.
  destruct (messageAlias_FieldEncoders _ _ _ _ Ha) as [Hperm Hsorted].
  specialize (Hsorted Hnodup).
  assert (Hpos' : Forall (fun v => 1 <= taf_Number v) (ta_FieldEncoders alias)).
  { rewrite Forall_forall. intros v Hv.
    rewrite Forall_forall in Hpos. apply Hpos.
    rewrite <- Hperm. apply list_elem_of_fmap_2, Hv. }
  assert (Hmax : maxNumber (map taf_Number (ta_FieldEncoders alias))
                 = maxNumber (map field_Number (keptFields messagePb p)))
    by apply maxNumber_Permutation, Hperm.
  assert (Hshape : map isPlaceholder plan
                   = map (fun k => bool_decide (k ∉ map field_Number (keptFields messagePb p)))
                         (seqZ 1 (maxNumber (map field_Number (keptFields messagePb p))))).
  { unfold plan, encodePlan. rewrite (encodePlan_shape _ Hsorted Hpos'), Hmax.
    apply map_ext. intros k. apply bool_decide_ext. rewrite Hperm. reflexivity. }
  split; [exact Hperm |].
  split.
  { unfold plan, encodePlan. rewrite (encoderItems_length 1 _ Hsorted Hpos').
    change (foldr Z.max (1 - 1) (map taf_Number (ta_FieldEncoders alias)))
      with (maxNumber (map taf_Number (ta_FieldEncoders alias))). lia. }
  split.
  { intros v Hv. rewrite Forall_forall in Hpos'.
    apply (encoderItems_lookup 1 _ Hsorted); try assumption; try reflexivity.
    - rewrite Forall_forall. exact Hpos'.
    - apply Hpos', Hv. }
  split.
  { intros k Hk Hnotin.
    apply (encoderItems_lookup 1 _ Hsorted Hpos'); [lia | |].
    - change (foldr Z.max (1 - 1) (map taf_Number (ta_FieldEncoders alias)))
        with (maxNumber (map taf_Number (ta_FieldEncoders alias))). lia.
    - intros v Hv Hvk. apply Hnotin. rewrite <- Hperm, <- Hvk.
      apply list_elem_of_fmap_2, Hv. }
  split; [exact Hshape |].
  split.
  - intros H135. rewrite Hshape, (maxNumber_Permutation _ _ H135).
    change (seqZ 1 (maxNumber [1; 3; 5])) with [1; 2; 3; 4; 5].
    cbn [map].
    repeat match goal with
           | |- context [bool_decide (?k ∉ map field_Number (keptFields messagePb p))] =>
               rewrite (bool_decide_ext (k ∉ map field_Number (keptFields messagePb p)) (k ∉ [1; 3; 5]))
                 by (rewrite H135; reflexivity)
           end.
    reflexivity.
  - intros H4. rewrite Hshape, H4. reflexivity.
Qed.

(** ** Oneofs *)

(** The inner loop of [oneOfsToCustomTypes]: a variant for every kept
    member field, with the number of the field. *)
Lemma oneOfVariants_numbers preface messagePb p oneofIndex variants :
  oneOfVariants preface messagePb p oneofIndex = Ok variants ->
  map ov_Num variants
  = map field_Number (List.filter (memberOf oneofIndex) (keptFields messagePb p)).
Proof.
  unfold oneOfVariants, keptFields.
  assert (Hgen : forall fields acc acc',
             foldM (fun variants inField =>
                      if isDeprecated (OfFieldOptions (field_Options inField))
                         && RemoveDeprecated p
                      then Ok variants
                      else if match field_OneofIndex inField with
                              | None => true
                              | Some i => negb (i =? oneofIndex)
                              end
                      then Ok variants
                      else
                        t ← BasicFieldType inField;
                        dec ← BasicFieldDecoder inField;
                        enc ← BasicFieldEncoder inField;
                        Ok (variants ++ [ {| ov_Name := NestedVariantName (field_Name inField) preface;
                                             ov_Type := t;
                                             ov_Num := field_Number inField;
                                             ov_Decoder := dec;
                                             ov_Encoder := enc |} ]))
                   acc fields = Ok acc' ->
             map ov_Num acc'
             = map ov_Num acc
               ++ map field_Number
                    (List.filter (memberOf oneofIndex) (List.filter (keptField p) fields))).
  { induction fields as [|inField rest IH]; intros acc acc' Hfold.
    - simpl in Hfold. injection Hfold as <-. simpl. rewrite app_nil_r. reflexivity.
    - cbn [foldM] in Hfold. apply bind_eq_Ok in Hfold as (acc1 & Hstep & Hrest).
      apply IH in Hrest. rewrite Hrest. clear Hrest IH.
      cbn [List.filter]. unfold keptField at 2.
      destruct (isDeprecated (OfFieldOptions (field_Options inField)) && RemoveDeprecated p).
      { injection Hstep as <-. reflexivity. }
      cbn [negb List.filter]. unfold memberOf at 2.
      destruct (field_OneofIndex inField) as [i|].
      + destruct (i =? oneofIndex); cbn [negb] in Hstep.
        * bind_inv Hstep. rewrite map_app. cbn. rewrite <- app_assoc. reflexivity.
        * injection Hstep as <-. reflexivity.
      + injection Hstep as <-. reflexivity. }
  intros Hv. apply Hgen in Hv. exact Hv.
Qed.

(** The outer loop of [oneOfsToCustomTypes]: a custom type for every
    oneof declaration, named as the field of the oneof is typed. *)
Lemma oneOfsFrom_Ok preface messagePb p decls :
  forall oneofIndex ts,
    oneOfsFrom preface messagePb p oneofIndex decls = Ok ts ->
    map oct_Name ts = map (fun oneOfPb => NestedType (oneof_Name oneOfPb) preface) decls
    /\ forall j t, ts !! j = Some t ->
         map ov_Num (oct_Variants t)
         = map field_Number
             (List.filter (memberOf (oneofIndex + Z.of_nat j)) (keptFields messagePb p)).
Proof.
  induction decls as [|oneOfPb rest IH]; intros oneofIndex ts Hts.
  - simpl in Hts. injection Hts as <-. split; [reflexivity |].
    intros j t Hj. rewrite lookup_nil in Hj. discriminate.
  - cbn [oneOfsFrom] in Hts.
    apply bind_eq_Ok in Hts as (variants & Hvariants & Hts).
    apply bind_eq_Ok in Hts as (ts' & Hts' & [= <-]).
    apply IH in Hts' as [Hnames Hnums]. split.
    + cbn [map oct_Name]. rewrite Hnames. reflexivity.
    + intros [|j] t Hj.
      * injection Hj as <-. cbn [oct_Variants].
        rewrite Z.add_0_r. apply oneOfVariants_numbers in Hvariants. exact Hvariants.
      * cbn in Hj. rewrite (Hnums j t Hj). do 3 f_equal. lia.
Qed.

(** The fields outside the oneofs are the ones the first loop appends
    to [alias.Fields]. *)
Lemma entries_fields nestedPreface messagePb fields entries :
  Forall2 (fun fieldPb e => fieldEntryOf nestedPreface messagePb fieldPb = Ok e)
          fields entries ->
  Forall2 (fun fieldPb f =>
             fieldEntryOf nestedPreface messagePb fieldPb = Ok (FieldAndEncoder f))
          (List.filter outsideOneof fields) (concat (map entryFields entries)).
Proof.
  induction 1 as [|fieldPb e fields entries He _ IH]; [constructor |].
  cbn [List.filter map concat]. unfold outsideOneof at 1.
  destruct (field_OneofIndex fieldPb) as [i|] eqn:Hone.
  - destruct (fieldEntryOf_oneof _ _ _ _ _ Hone He) as (oneof & _ & ->). exact IH.
  - destruct (fieldEntryOf_plain _ _ _ _ Hone He) as (f & -> & _).
    constructor; [exact He | exact IH].
Qed.

(** The slots are the entries of the kept fields. *)
Lemma entries_slots nestedPreface messagePb fields entries :
  Forall2 (fun fieldPb e => fieldEntryOf nestedPreface messagePb fieldPb = Ok e)
          fields entries ->
  Forall2 (fun fieldPb slot =>
             taf_Number slot = field_Number fieldPb
             /\ forall oneofIndex,
                  field_OneofIndex fieldPb = Some oneofIndex ->
                  exists oneof,
                    index (msg_OneofDecl messagePb) oneofIndex = Ok oneof
                    /\ taf_Name slot = FieldName (oneof_Name oneof)
                    /\ taf_Type slot = NestedType (oneof_Name oneof) nestedPreface
                    /\ taf_Encoder slot
                       = OneOfEncoder oneof fieldPb
                           (NestedType (oneof_Name oneof) nestedPreface))
          fields (map entryField entries).
Proof.
  induction 1 as [|fieldPb e fields entries He _ IH]; [constructor |].
  cbn [map]. constructor; [| exact IH]. split.
  - apply (fieldEntryOf_number _ _ _ _ He).
  - intros oneofIndex Hone.
    destruct (fieldEntryOf_oneof _ _ _ _ _ Hone He) as (oneof & Hidx & ->).
    exists oneof. repeat split. exact Hidx.
Qed.

(** C3, as the code has it: the encode-ordered field list of a message carries one
    slot for every kept field.  A field of a oneof gets a slot of its own:
    it has the name and the type of the oneof, the wire number of that
    field, and an encoder that passes this number to the encoder of the
    oneof.  A oneof thus has as many slots as it has kept variant fields,
    and the generated oneof encoder has a case for each of these numbers,
    in which it compares the number passed with the number of the
    variant. *)
Theorem oneof_has_a_slot_per_variant preface messagePb p alias :
  messageAlias preface messagePb p = Ok alias ->
  let nestedPreface := nestedPrefaceOf preface messagePb in
  (exists slots,
     ta_FieldEncoders alias ≡ₚ slots
     /\ Forall2 (fun fieldPb slot =>
                   taf_Number slot = field_Number fieldPb
                   /\ forall oneofIndex,
                        field_OneofIndex fieldPb = Some oneofIndex ->
                        exists oneof,
                          index (msg_OneofDecl messagePb) oneofIndex = Ok oneof
                          /\ taf_Name slot = FieldName (oneof_Name oneof)
                          /\ taf_Type slot = NestedType (oneof_Name oneof) nestedPreface
                          /\ taf_Encoder slot
                             = OneOfEncoder oneof fieldPb
                                 (NestedType (oneof_Name oneof) nestedPreface))
                (keptFields messagePb p) slots)
  /\ length (ta_FieldEncoders alias) = length (keptFields messagePb p)
  /\ forall oneofs j t,
       oneOfsFrom nestedPreface messagePb p 0 (msg_OneofDecl messagePb) = Ok oneofs ->
       oneofs !! j = Some t ->
       oneofEncoderCases t
       = CaseUnspecified (oct_Name t +:+ "Unspecified")
         :: map (fun v => CaseVariant (ov_Name v) (ov_Num v) (ov_Encoder v)) (oct_Variants t)
       /\ map ov_Num (oct_Variants t)
          = map field_Number
              (List.filter (memberOf (Z.of_nat j)) (keptFields messagePb p)).
Proof.
  intros Ha nestedPreface.
  apply messageAlias_Ok in Ha as (entries & Hentries & Hencs & _).
  split; [| split].
  - exists (map entryField entries). split.
    + rewrite Hencs. apply sort_Slice_Permutation.
    + apply entries_slots, Hentries.
  - rewrite Hencs, (Permutation_length (sort_Slice_Permutation _)), length_map.
    symmetry. apply (Forall2_length _ _ _ Hentries).
  - intros oneofs j t Honeofs Hj. split; [reflexivity |].
    apply oneOfsFrom_Ok in Honeofs as [_ Hnums]. apply (Hnums j t Hj).
Qed.

(** *** The generated oneof decoder *)

Lemma runAlt_absent {Payload} (runDecoder : VariableName -> JValue -> option Payload)
    ctor idx decoder v :
  slotAbsent v idx = true ->
  runAlt runDecoder (AltVariant ctor idx decoder) v = None.
Proof.
  unfold slotAbsent, runAlt, JD_index. intros Habs.
  destruct v as [| | | |elems|]; try reflexivity.
  destruct (idx <? 0); [reflexivity |].
  destruct (elems !! Z.to_nat idx) as [[]|]; try discriminate; reflexivity.
Qed.

Lemma variantItems_decoders variants :
  forall i, map alt_decoder (variantItems i variants) = map variantAlternative variants.
Proof.
  induction variants as [|v rest IH]; intros i; [reflexivity |].
  cbn [variantItems map alt_decoder]. rewrite IH. reflexivity.
Qed.

Lemma variantItems_commas variants :
  forall i, 1 <= i -> forallb id (map alt_comma (variantItems i variants)) = true.
Proof.
  induction variants as [|v rest IH]; intros i Hi; [reflexivity |].
  cbn [variantItems map alt_comma forallb]. rewrite IH by lia.
  replace (i =? 0) with false by (symmetry; apply Z.eqb_neq; lia). reflexivity.
Qed.

Lemma forallb_app_true {A} (f : A -> bool) (l1 l2 : list A) :
  forallb f l1 = true -> forallb f l2 = true -> forallb f (l1 ++ l2) = true.
Proof. intros H1 H2. rewrite forallb_app, H1, H2. reflexivity. Qed.

(** The emitted text is a list literal exactly when the oneof has a
    variant: without one, the comma before [JD.succeed] comes first. *)
Lemma oneofDecoderAlternatives_eq (t : OneOfCustomType) :
  oneofDecoderAlternatives t
  = match oct_Variants t with
    | [] => None
    | _ :: _ =>
        Some (map variantAlternative (oct_Variants t)
              ++ [AltSucceed (oct_Name t +:+ "Unspecified")])
    end.
Proof.
  unfold oneofDecoderAlternatives, oneofDecoderItems.
  destruct (oct_Variants t) as [|v rest]; [reflexivity |].
  cbn [variantItems app map alt_comma alt_decoder wellSeparated Z.eqb negb andb].
  rewrite map_app, forallb_app_true; [| apply variantItems_commas; lia | reflexivity].
  rewrite map_app, variantItems_decoders. reflexivity.
Qed.

Lemma oneofDecoderAlternatives_Some (t : OneOfCustomType) alts :
  oneofDecoderAlternatives t = Some alts ->
  oct_Variants t <> []
  /\ alts = map variantAlternative (oct_Variants t)
            ++ [AltSucceed (oct_Name t +:+ "Unspecified")].
Proof.
  rewrite oneofDecoderAlternatives_eq.
  destruct (oct_Variants t) as [|v rest]; [discriminate |].
  intros [= <-]. split; [discriminate | reflexivity].
Qed.

Lemma oneofDecoderAlternatives_None (t : OneOfCustomType) :
  oneofDecoderAlternatives t = None <-> oct_Variants t = [].
Proof.
  rewrite oneofDecoderAlternatives_eq.
  destruct (oct_Variants t) as [|v rest]; split; intros Heq;
    try reflexivity; discriminate.
Qed.

Lemma JD_oneOf_total {Payload} (runDecoder : VariableName -> JValue -> option Payload)
    (variants : list OneOfVariant) (name : string) (v : JValue) :
  exists x,
    JD_oneOf runDecoder (map variantAlternative variants ++ [AltSucceed name]) v = Some x.
Proof.
  induction variants as [|variant rest IH]; cbn [map app JD_oneOf].
  - eexists. reflexivity.
  - destruct (runAlt runDecoder _ v) as [x|]; [exists x; reflexivity | exact IH].
Qed.

Lemma JD_oneOf_absent {Payload} (runDecoder : VariableName -> JValue -> option Payload)
    (variants : list OneOfVariant) (name : string) (v : JValue) :
  forallb (fun variant => slotAbsent v (toJSIdx (ov_Num variant))) variants = true ->
  JD_oneOf runDecoder (map variantAlternative variants ++ [AltSucceed name]) v
  = Some (Nullary name).
Proof.
  induction variants as [|variant rest IH]; cbn [forallb map app JD_oneOf].
  - reflexivity.
  - intros Habs. apply andb_true_iff in Habs as [Hhere Hrest].
    unfold variantAlternative at 1.
    rewrite (runAlt_absent _ _ _ _ _ Hhere). apply IH, Hrest.
Qed.

(** X25: the oneof field of a message and the decoder of a oneof with a
    variant.  The field list of a message is made of the fields outside
    the oneofs followed by one field for every oneof declaration; that
    field has the resolved name of the oneof as its type and the type name
    suffixed with [Unspecified] as its default, and the custom type
    generated for the oneof carries the same name.  The decoder the
    template emits for a custom type has a list of alternatives exactly
    when the type has a variant; the list then ends with [JD.succeed] of
    the unspecified constructor, so the decoder never fails, and yields
    the unspecified constructor on a wire value that shows none of the
    variants. *)
Theorem oneof_field_defaults_to_unspecified preface messagePb p alias :
  messageAlias preface messagePb p = Ok alias ->
  let nestedPreface := nestedPrefaceOf preface messagePb in
  (exists fields,
     ta_Fields alias = fields ++ map (oneofField nestedPreface) (msg_OneofDecl messagePb)
     /\ Forall2 (fun fieldPb f =>
                   fieldEntryOf nestedPreface messagePb fieldPb = Ok (FieldAndEncoder f))
                (List.filter outsideOneof (keptFields messagePb p)) fields)
  /\ Forall (fun oneOfPb =>
               taf_Type (oneofField nestedPreface oneOfPb)
                 = NestedType (oneof_Name oneOfPb) nestedPreface
               /\ taf_Default (oneofField nestedPreface oneOfPb)
                 = NestedType (oneof_Name oneOfPb) nestedPreface +:+ "Unspecified")
            (msg_OneofDecl messagePb)
  /\ (forall oneofs,
        keptMessage p messagePb = true ->
        oneOfsToCustomTypes nestedPreface messagePb p = Ok oneofs ->
        map oct_Name oneofs
        = map (fun oneOfPb => taf_Type (oneofField nestedPreface oneOfPb))
              (msg_OneofDecl messagePb))
  /\ forall t : OneOfCustomType,
       (oneofDecoderAlternatives t = None <-> oct_Variants t = [])
       /\ forall (alts : list DecoderAlt) (Payload : Type)
                 (runDecoder : VariableName -> JValue -> option Payload) (v : JValue),
            oneofDecoderAlternatives t = Some alts ->
            last alts = Some (AltSucceed (oct_Name t +:+ "Unspecified"))
            /\ (exists x, JD_oneOf runDecoder alts v = Some x)
            /\ (oneofAbsent t v = true ->
                JD_oneOf runDecoder alts v = Some (Nullary (oct_Name t +:+ "Unspecified"))).
Proof.
  intros Ha nestedPreface.
  apply messageAlias_Ok in Ha as (entries & Hentries & _ & Hfields & _).
  split; [| split; [| split]].
  - exists (concat (map entryFields entries)). split; [exact Hfields |].
    apply entries_fields, Hentries.
  - rewrite Forall_forall. intros oneOfPb _. split; reflexivity.
  - intros oneofs Hkept Honeofs. unfold oneOfsToCustomTypes in Honeofs.
    unfold keptMessage in Hkept. apply negb_true_iff in Hkept. rewrite Hkept in Honeofs.
    apply oneOfsFrom_Ok in Honeofs as [Hnames _]. exact Hnames.
  - intros t. split; [apply oneofDecoderAlternatives_None |].
    intros alts Payload runDecoder v Halts.
    apply oneofDecoderAlternatives_Some in Halts as [_ ->]. split; [| split].
    + apply last_snoc.
    + apply JD_oneOf_total.
    + apply JD_oneOf_absent.
Qed.

(** ** Nesting and type names *)

Lemma NestedType_two_levels name preface outer inner :
  NestedType name (nestedPrefaceOf (nestedPrefaceOf preface outer) inner)
  = FirstUpper (GoStrings.Join ([msg_Name inner; msg_Name outer] ++ preface ++ [CamelCase name])
                               "_").
Proof. reflexivity. Qed.

Lemma nested_type_names_generic :
  flat_map typeNames <$> messages [] [nestedABC] noParameters
  = Ok [FirstUpper (CamelCase "A");
        FirstUpper ("A_" +:+ CamelCase "B");
        FirstUpper ("B_A_" +:+ CamelCase "C")].
Proof. reflexivity. Qed.

(** ** The global [excludedFiles] *)

Lemma Gen_bind_Ok {A B} (f : A -> Gen B) (m : Gen A) excludedFiles b excludedFiles' :
  (m ≫= f) excludedFiles = Ok (b, excludedFiles') <->
  exists a excludedFiles1,
    m excludedFiles = Ok (a, excludedFiles1) /\ f a excludedFiles1 = Ok (b, excludedFiles').
Proof.
  unfold mbind, Gen_bind.
  destruct (m excludedFiles) as [[a s1]|e]; split.
  - intros Hf. exists a, s1. split; [reflexivity | exact Hf].
  - intros (a' & s' & [= <- <-] & Hf). exact Hf.
  - discriminate.
  - intros (a' & s' & Hm & _). discriminate.
Qed.

Lemma readsOnly_ret {A} (a : A) : readsOnly (mret a).
Proof. intros s a' s' [= _ <-]. reflexivity. Qed.

Lemma readsOnly_bind {A B} (m : Gen A) (f : A -> Gen B) :
  readsOnly m -> (forall a, readsOnly (f a)) -> readsOnly (m ≫= f).
Proof.
  intros Hm Hf s b s' Hb. apply Gen_bind_Ok in Hb as (a & s1 & Ha & Hb).
  apply Hm in Ha. subst s1. apply (Hf a) in Hb. exact Hb.
Qed.

Lemma readsOnly_isExcluded k : readsOnly (isExcluded k).
Proof. intros s a s' [= _ <-]. reflexivity. Qed.

Lemma readsOnly_liftResult {A} (m : result A) : readsOnly (liftResult m).
Proof. intros s a s'. unfold liftResult. destruct m; [intros [= _ <-] |]; easy. Qed.

Lemma readsOnly_forM {A B} (f : A -> Gen (list B)) (l : list A) :
  (forall x, readsOnly (f x)) -> readsOnly (forM f l).
Proof.
  intros Hf. induction l as [|x l IH]; cbn [forM].
  - apply readsOnly_ret.
  - apply readsOnly_bind; [apply Hf |]. intros ys.
    apply readsOnly_bind; [exact IH |]. intros zs. apply readsOnly_ret.
Qed.

Lemma readsOnly_additionalImports modPrefix dependencies :
  readsOnly (additionalImports modPrefix dependencies).
Proof.
  unfold additionalImports. apply readsOnly_forM. intros d.
  apply readsOnly_bind; [apply readsOnly_isExcluded |].
  intros []; apply readsOnly_ret.
Qed.

Lemma readsOnly_templateFile inFile p : readsOnly (templateFile inFile p).
Proof.
  unfold templateFile.
  apply readsOnly_bind; [apply readsOnly_additionalImports |]. intros imports.
  apply readsOnly_bind; [apply readsOnly_liftResult |]. intros enums.
  apply readsOnly_bind; [apply readsOnly_liftResult |]. intros msgs.
  apply readsOnly_ret.
Qed.

Lemma readsOnly_generateFiles protoFiles p : readsOnly (generateFiles protoFiles p).
Proof.
  unfold generateFiles. apply readsOnly_forM. intros inFile.
  apply readsOnly_bind; [apply readsOnly_isExcluded |].
  intros []; [apply readsOnly_ret |].
  apply readsOnly_bind; [apply readsOnly_templateFile |]. intros content.
  apply readsOnly_ret.
Qed.

(** The loop over a concatenation is the two loops, each started with the
    same [excludedFiles]. *)
Lemma forM_app {A B} (f : A -> Gen (list B)) (l1 l2 : list A) excludedFiles out excludedFiles' :
  (forall x, readsOnly (f x)) ->
  forM f (l1 ++ l2) excludedFiles = Ok (out, excludedFiles') <->
  exists o1 o2,
    out = o1 ++ o2 /\ excludedFiles' = excludedFiles
    /\ forM f l1 excludedFiles = Ok (o1, excludedFiles)
    /\ forM f l2 excludedFiles = Ok (o2, excludedFiles).
Proof.
  intros Hf. revert out. induction l1 as [|x l1 IH]; intros out; cbn [app forM].
  - split.
    + intros H2. pose proof (readsOnly_forM f l2 Hf _ _ _ H2) as ->.
      exists [], out. repeat split. exact H2.
    + intros (o1 & o2 & -> & -> & [= <-] & H2). exact H2.
  - split.
    + intros Hall. apply Gen_bind_Ok in Hall as (ys & s1 & Hx & Hall).
      pose proof (Hf x _ _ _ Hx) as ->.
      apply Gen_bind_Ok in Hall as (zs & s2 & Hrest & [= <- <-]).
      apply IH in Hrest as (o1 & o2 & -> & -> & H1 & H2).
      exists (ys ++ o1), o2. rewrite app_assoc. repeat split; [| exact H2].
      apply Gen_bind_Ok. exists ys, excludedFiles. split; [exact Hx |].
      apply Gen_bind_Ok. exists o1, excludedFiles. split; [exact H1 | reflexivity].
    + intros (o1 & o2 & -> & -> & H1 & H2).
      apply Gen_bind_Ok in H1 as (ys & s1 & Hx & H1).
      pose proof (Hf x _ _ _ Hx) as ->.
      apply Gen_bind_Ok in H1 as (zs & s2 & H1 & [= <- _]).
      pose proof (readsOnly_forM f l1 Hf _ _ _ H1) as ->.
      apply Gen_bind_Ok. exists ys, excludedFiles. split; [exact Hx |].
      apply Gen_bind_Ok. exists (zs ++ o2), excludedFiles. split.
      * apply IH. exists zs, o2. repeat split; assumption.
      * rewrite app_assoc. reflexivity.
Qed.

Lemma generateFiles_app l1 l2 p excludedFiles out excludedFiles' :
  generateFiles (l1 ++ l2) p excludedFiles = Ok (out, excludedFiles') <->
  exists o1 o2,
    out = o1 ++ o2 /\ excludedFiles' = excludedFiles
    /\ generateFiles l1 p excludedFiles = Ok (o1, excludedFiles)
    /\ generateFiles l2 p excludedFiles = Ok (o2, excludedFiles).
Proof.
  unfold generateFiles. apply forM_app. intros inFile.
  apply readsOnly_bind; [apply readsOnly_isExcluded |].
  intros []; [apply readsOnly_ret |].
  apply readsOnly_bind; [apply readsOnly_templateFile |]. intros content.
  apply readsOnly_ret.
Qed.

Lemma generateFiles_single inFile p excludedFiles o :
  generateFiles [inFile] p excludedFiles = Ok (o, excludedFiles) ->
  if default false (excludedFiles !! file_Name inFile)
  then o = []
  else exists model,
         templateFile inFile p excludedFiles = Ok (model, excludedFiles)
         /\ o = [(fileName (file_Name inFile), model)].
Proof.
  unfold generateFiles. cbn [forM]. intros Ho.
  apply Gen_bind_Ok in Ho as (ys & s1 & Hx & Ho).
  apply Gen_bind_Ok in Ho as (zs & s2 & [= <- <-] & [= <- _]).
  apply Gen_bind_Ok in Hx as (b & s2 & [= <- <-] & Hx).
  destruct (default false (excludedFiles !! file_Name inFile)).
  - injection Hx as <- _. reflexivity.
  - apply Gen_bind_Ok in Hx as (model & s3 & Hmodel & Hret).
    pose proof (readsOnly_templateFile _ _ _ _ _ Hmodel) as ->.
    injection Hret as <- _.
    exists model. rewrite app_nil_r. split; [exact Hmodel | reflexivity].
Qed.

(** [main] writes [excludedFiles] while it parses the parameters, before
    the first file is processed, and not after. *)
Lemma main_excludedFiles req excludedFiles files excludedFiles' :
  main req excludedFiles = Ok (Response files, excludedFiles') ->
  exists p,
    parseParameters (req_Parameter req) excludedFiles = Ok ((p, None), excludedFiles')
    /\ generateFiles (req_ProtoFile req) p excludedFiles' = Ok (files, excludedFiles').
Proof.
  unfold main. intros Hmain.
  apply Gen_bind_Ok in Hmain as ([p err] & s1 & Hparse & Hmain).
  destruct err as [e|]; [discriminate |].
  apply Gen_bind_Ok in Hmain as (files' & s2 & Hgen & [= <- <-]).
  pose proof (readsOnly_generateFiles _ _ _ _ _ Hgen) as ->.
  exists p. split; assumption.
Qed.

(** C9: the model of a schema file is a function of the file, the
    parameters and the exclusion set.  In a run over a batch that
    completes, the global exclusion set is at the end what it was at the
    start, every file gets the model that a run on this file alone gives
    from the same exclusion set, whatever comes before or after it in the
    batch, and the batch in the other order completes with the same
    models. *)
Theorem model_construction_is_deterministic p excludedFiles before inFile after outs excludedFiles' :
  generateFiles (before ++ inFile :: after) p excludedFiles = Ok (outs, excludedFiles') ->
  excludedFiles' = excludedFiles
  /\ exists o1 o o2,
       outs = o1 ++ o ++ o2
       /\ generateFiles [inFile] p excludedFiles = Ok (o, excludedFiles)
       /\ generateFiles before p excludedFiles = Ok (o1, excludedFiles)
       /\ generateFiles after p excludedFiles = Ok (o2, excludedFiles)
       /\ generateFiles (after ++ inFile :: before) p excludedFiles
          = Ok (o2 ++ o ++ o1, excludedFiles)
       /\ if default false (excludedFiles !! file_Name inFile)
          then o = []
          else exists model,
                 templateFile inFile p excludedFiles = Ok (model, excludedFiles)
                 /\ o = [(fileName (file_Name inFile), model)].
Proof.
  intros Hrun.
  apply generateFiles_app in Hrun as (o1 & o23 & -> & -> & H1 & H23).
  change (inFile :: after) with ([inFile] ++ after) in H23.
  apply generateFiles_app in H23 as (o & o2 & -> & _ & Hfile & H2).
  split; [reflexivity |].
  exists o1, o, o2. repeat split; try assumption.
  - apply generateFiles_app. exists o2, (o ++ o1). repeat split; [exact H2 |].
    change (inFile :: before) with ([inFile] ++ before).
    apply generateFiles_app. exists o, o1. repeat split; assumption.
  - apply generateFiles_single, Hfile.
Qed.

(** ** The descriptor walker *)

(** [messages] builds the model of a kept message from its type alias,
    its oneofs, its enums and, by recursion, its nested messages, all but
    the alias under the preface extended by the name of the message. *)
Lemma message_eq preface messagePb p :
  message preface messagePb p
  = (alias ← messageAlias preface messagePb p;
     oneofs ← oneOfsToCustomTypes (nestedPrefaceOf preface messagePb) messagePb p;
     enums ← enumsToCustomTypes (nestedPrefaceOf preface messagePb) (msg_EnumType messagePb) p;
     nested ← messages (nestedPrefaceOf preface messagePb) (msg_NestedType messagePb) p;
     Ok {| pb_TypeAlias := alias; pb_OneOfCustomTypes := oneofs;
           pb_EnumCustomTypes := enums; pb_NestedMessages := nested |}).
Proof.
  destruct messagePb as [name fields nested enums decls opts].
  cbn [message]. unfold nestedPrefaceOf. cbn [msg_Name msg_NestedType msg_EnumType].
  destruct (messageAlias _ _ _) as [alias|e]; [| reflexivity].
  destruct (oneOfsToCustomTypes _ _ _) as [oneofs|e]; [| reflexivity].
  destruct (enumsToCustomTypes _ _ _) as [es|e]; [| reflexivity].
  cbn [mbind result_bind]. f_equal.
  induction nested as [|m rest IH]; [reflexivity |].
  cbn [messages]. rewrite IH. reflexivity.
Qed.

Lemma message_Ok preface messagePb p pm :
  message preface messagePb p = Ok pm ->
  messageAlias preface messagePb p = Ok (pb_TypeAlias pm)
  /\ oneOfsToCustomTypes (nestedPrefaceOf preface messagePb) messagePb p
     = Ok (pb_OneOfCustomTypes pm)
  /\ enumsToCustomTypes (nestedPrefaceOf preface messagePb) (msg_EnumType messagePb) p
     = Ok (pb_EnumCustomTypes pm)
  /\ messages (nestedPrefaceOf preface messagePb) (msg_NestedType messagePb) p
     = Ok (pb_NestedMessages pm).
Proof.
  rewrite message_eq. intros Hm.
  apply bind_eq_Ok in Hm as (alias & Ha & Hm).
  apply bind_eq_Ok in Hm as (oneofs & Ho & Hm).
  apply bind_eq_Ok in Hm as (enums & He & Hm).
  apply bind_eq_Ok in Hm as (nested & Hn & [= <-]).
  repeat split; assumption.
Qed.

Lemma messages_Ok preface messagePbs p ms :
  messages preface messagePbs p = Ok ms ->
  Forall2 (fun messagePb pm => message preface messagePb p = Ok pm)
          (List.filter (keptMessage p) messagePbs) ms.
Proof.
  revert ms. induction messagePbs as [|messagePb rest IH]; intros ms.
  - simpl. intros [= <-]. constructor.
  - rewrite messages_cons. cbn [List.filter]. unfold keptMessage at 1.
    destruct (isDeprecated (OfMessageOptions (msg_Options messagePb)) && RemoveDeprecated p);
      cbn [negb]; [apply IH |].
    intros Hms. apply bind_eq_Ok in Hms as (m & Hm & Hms).
    apply bind_eq_Ok in Hms as (ms' & Hms' & [= <-]).
    constructor; [exact Hm | apply IH, Hms'].
Qed.

(** X1: at every level [messages] returns one model for every message
    that the deprecation filter keeps, in the order of declaration, named
    by [NestedType] from the name of the message and the preface; a
    deprecated message under [remove-deprecated] has no model. *)
Theorem messages_models_kept_in_order preface messagePbs p ms :
  messages preface messagePbs p = Ok ms ->
  map (fun pm => ta_Name (pb_TypeAlias pm)) ms
  = map (fun messagePb => NestedType (msg_Name messagePb) preface)
        (List.filter (keptMessage p) messagePbs)
  /\ Forall2 (fun messagePb pm =>
                messages (nestedPrefaceOf preface messagePb) (msg_NestedType messagePb) p
                = Ok (pb_NestedMessages pm))
             (List.filter (keptMessage p) messagePbs) ms.
Proof.
  intros Hms. apply messages_Ok in Hms.
  induction Hms as [|messagePb pm kept ms Hm _ IH]; [split; [reflexivity | constructor] |].
  destruct IH as [IHnames IHnested].
  apply message_Ok in Hm as (Ha & _ & _ & Hn).
  apply messageAlias_Ok in Ha as (_ & _ & _ & _ & Hname).
  split.
  - cbn [map]. rewrite Hname, IHnames. reflexivity.
  - constructor; assumption.
Qed.

Lemma Forall2_elem_of_r {A B} (R : A -> B -> Prop) (l : list A) (k : list B) (y : B) :
  Forall2 R l k -> y ∈ k -> exists x, x ∈ l /\ R x y.
Proof.
  induction 1 as [|x y' l k Hxy _ IH]; intros Hy; [inversion Hy |].
  apply elem_of_cons in Hy as [-> | Hy].
  - exists x. split; [left | exact Hxy].
  - destruct (IH Hy) as (x' & Hx' & HR). exists x'. split; [right; exact Hx' | exact HR].
Qed.

Lemma Forall2_elem_of_l {A B} (R : A -> B -> Prop) (l : list A) (k : list B) (x : A) :
  Forall2 R l k -> x ∈ l -> exists y, y ∈ k /\ R x y.
Proof.
  induction 1 as [|x' y l k Hxy _ IH]; intros Hx; [inversion Hx |].
  apply elem_of_cons in Hx as [-> | Hx].
  - exists y. split; [left | exact Hxy].
  - destruct (IH Hx) as (y' & Hy' & HR). exists y'. split; [right; exact Hy' | exact HR].
Qed.

Lemma elem_of_filter_bool {A} (f : A -> bool) (l : list A) (x : A) :
  x ∈ List.filter f l <-> x ∈ l /\ f x = true.
Proof. rewrite !list_elem_of_In. apply filter_In. Qed.

Lemma elem_of_flat_map {A B} (f : A -> list B) (l : list A) (y : B) :
  y ∈ flat_map f l <-> exists x, x ∈ l /\ y ∈ f x.
Proof.
  rewrite list_elem_of_In, in_flat_map. split; intros (x & Hx & Hy); exists x;
    rewrite ?list_elem_of_In in *; split; assumption.
Qed.

Lemma allMessages_eq messagePb :
  allMessages messagePb = messagePb :: flat_map allMessages (msg_NestedType messagePb).
Proof. destruct messagePb; reflexivity. Qed.

Lemma allModels_eq pm :
  allModels pm = pm :: flat_map allModels (pb_NestedMessages pm).
Proof. destruct pm; reflexivity. Qed.

(** X2: every model in the tree [messages] returns, at any depth, is the
    model of a descriptor of the input tree that the filter keeps, built
    under some preface: its type alias is the [messageAlias] of that
    descriptor, and its enums and oneofs are those of that descriptor
    under the preface extended by its name. *)
Theorem every_model_is_of_a_kept_descriptor p messagePbs preface ms pm :
  messages preface messagePbs p = Ok ms ->
  pm ∈ flat_map allModels ms ->
  exists preface' messagePb,
    messagePb ∈ flat_map allMessages messagePbs
    /\ keptMessage p messagePb = true
    /\ messageAlias preface' messagePb p = Ok (pb_TypeAlias pm)
    /\ oneOfsToCustomTypes (nestedPrefaceOf preface' messagePb) messagePb p
       = Ok (pb_OneOfCustomTypes pm)
    /\ enumsToCustomTypes (nestedPrefaceOf preface' messagePb) (msg_EnumType messagePb) p
       = Ok (pb_EnumCustomTypes pm).
Proof.
  assert (Htree : forall messagePb,
             forall preface pm0 pm,
               message preface messagePb p = Ok pm0 ->
               keptMessage p messagePb = true ->
               pm ∈ allModels pm0 ->
               exists preface' messagePb',
                 messagePb' ∈ allMessages messagePb
                 /\ keptMessage p messagePb' = true
                 /\ message preface' messagePb' p = Ok pm).
  { clear. intros messagePb.
    induction messagePb as [messagePb IH] using DescriptorProto_nested_ind.
    intros preface pm0 pm Hm Hkept Hin.
    rewrite allModels_eq in Hin. apply elem_of_cons in Hin as [-> | Hin].
    { exists preface, messagePb. rewrite allMessages_eq.
      split; [left | split; assumption]. }
    apply elem_of_flat_map in Hin as (child & Hchild & Hin).
    pose proof (message_Ok _ _ _ _ Hm) as (_ & _ & _ & Hnested).
    apply messages_Ok in Hnested.
    destruct (Forall2_elem_of_r _ _ _ _ Hnested Hchild) as (nestedPb & Hn & Hmn).
    apply elem_of_filter_bool in Hn as [Hn Hkn].
    rewrite Forall_forall in IH.
    destruct (IH nestedPb Hn _ _ _ Hmn Hkn Hin) as (preface' & messagePb' & Hd & Hk & Hm').
    exists preface', messagePb'. rewrite allMessages_eq.
    split; [| split; assumption].
    right. apply elem_of_flat_map. exists nestedPb. split; assumption. }
  intros Hms Hin.
  apply elem_of_flat_map in Hin as (pm0 & Hpm0 & Hin).
  apply messages_Ok in Hms.
  destruct (Forall2_elem_of_r _ _ _ _ Hms Hpm0) as (messagePb0 & Hin0 & Hm0).
  apply elem_of_filter_bool in Hin0 as [Hin0 Hk0].
  destruct (Htree _ _ _ _ Hm0 Hk0 Hin) as (preface' & messagePb' & Hd & Hk & Hm').
  apply message_Ok in Hm' as (Ha & Ho & He & _).
  exists preface', messagePb'. repeat split; try assumption.
  apply elem_of_flat_map. exists messagePb0. split; assumption.
Qed.

(** ** Field lists *)

Lemma entries_fields_names nestedPreface messagePb fields entries :
  Forall2 (fun fieldPb f =>
             fieldEntryOf nestedPreface messagePb fieldPb = Ok (FieldAndEncoder f))
          (List.filter outsideOneof fields) entries ->
  map taf_Name entries
  = map (fun fieldPb => FieldName (field_Name fieldPb)) (List.filter outsideOneof fields)
  /\ map taf_Number entries = map field_Number (List.filter outsideOneof fields).
Proof.
  assert (Hout : Forall (fun fieldPb => field_OneofIndex fieldPb = None)
                        (List.filter outsideOneof fields)).
  { rewrite Forall_forall. intros fieldPb Hin.
    apply elem_of_filter_bool in Hin as [_ Hout]. unfold outsideOneof in Hout.
    destruct (field_OneofIndex fieldPb); [discriminate | reflexivity]. }
  revert Hout. generalize (List.filter outsideOneof fields) as plain.
  intros plain Hout Hentries.
  induction Hentries as [|fieldPb f plain entries He _ IH]; [split; reflexivity |].
  apply Forall_cons in Hout as [Hone Hout]. destruct (IH Hout) as [IHn IHk].
  destruct (fieldEntryOf_plain _ _ _ _ Hone He) as (f' & [= <-] & Hname & Hnum).
  cbn [map]. rewrite Hname, Hnum, IHn, IHk. split; reflexivity.
Qed.

(** X3: the field list of a type alias, which is the order of the record
    and of the decoder pipeline, follows the declaration: the kept fields
    outside the oneofs in the order they are declared, under their
    [FieldName] and wire number, and then one field for every oneof
    declaration, with number 0.  A deprecated field under
    [remove-deprecated] is not in the list. *)
Theorem fields_follow_declaration_order preface messagePb p alias :
  messageAlias preface messagePb p = Ok alias ->
  map taf_Name (ta_Fields alias)
  = map (fun fieldPb => FieldName (field_Name fieldPb))
        (List.filter outsideOneof (keptFields messagePb p))
    ++ map (fun oneOfPb => FieldName (oneof_Name oneOfPb)) (msg_OneofDecl messagePb)
  /\ map taf_Number (ta_Fields alias)
     = map field_Number (List.filter outsideOneof (keptFields messagePb p))
       ++ map (fun _ => 0) (msg_OneofDecl messagePb).
Proof.
  intros Ha. apply messageAlias_Ok in Ha as (entries & Hentries & _ & Hfields & _).
  apply entries_fields, entries_fields_names in Hentries as [Hnames Hnums].
  rewrite Hfields, !map_app, Hnames, Hnums, !map_map. split; reflexivity.
Qed.

(** *** The separators of the encoder list *)

Lemma encoderItems_commas idx v rest :
  map item_comma (encoderItems idx (v :: rest))
  = map (fun i => negb (i =? 1)) (fieldSeq idx (taf_Number v))
    ++ negb (taf_Number v =? 1) :: map item_comma (encoderItems (taf_Number v + 1) rest).
Proof.
  cbn [encoderItems]. rewrite map_app, map_map. reflexivity.
Qed.

Lemma placeholder_commas idx number :
  2 <= idx -> forallb id (map (fun i => negb (i =? 1)) (fieldSeq idx number)) = true.
Proof.
  intros Hidx. apply forallb_forall. intros c Hc.
  apply list_elem_of_In, list_elem_of_fmap in Hc as (i & -> & Hi).
  apply elem_of_seqZ in Hi.
  unfold id. apply negb_true_iff, Z.eqb_neq. lia.
Qed.

Lemma encoderItems_commas_later fieldEncoders :
  forall idx,
    2 <= idx ->
    Forall (fun v => 1 <= taf_Number v) fieldEncoders ->
    forallb id (map item_comma (encoderItems idx fieldEncoders))
    = forallb (fun v => negb (taf_Number v =? 1)) fieldEncoders.
Proof.
  induction fieldEncoders as [|v rest IH]; intros idx Hidx Hpos; [reflexivity |].
  apply Forall_cons in Hpos as [Hv Hrest].
  rewrite encoderItems_commas, forallb_app, placeholder_commas by exact Hidx.
  cbn [forallb andb]. rewrite IH by (try exact Hrest; lia). reflexivity.
Qed.

(** With the slots in non-decreasing order of number, the emitted list
    has its separators in place exactly when the first number is at least
    1 and no later number is 1. *)
Lemma encoderItems_wellSeparated v rest :
  Forall (fun w => taf_Number v <= taf_Number w) rest ->
  wellSeparated (map item_comma (encoderItems 1 (v :: rest)))
  = (1 <=? taf_Number v) && forallb (fun w => negb (taf_Number w =? 1)) rest.
Proof.
  intros Hsorted. rewrite encoderItems_commas.
  destruct (Z.lt_trichotomy (taf_Number v) 1) as [Hlt | [Heq | Hgt]].
  - unfold fieldSeq. rewrite seqZ_nil by lia. cbn [map app wellSeparated].
    replace (taf_Number v =? 1) with false by (symmetry; apply Z.eqb_neq; lia).
    replace (1 <=? taf_Number v) with false by (symmetry; apply Z.leb_gt; lia).
    reflexivity.
  - unfold fieldSeq. rewrite seqZ_nil by lia. cbn [map app wellSeparated].
    rewrite Heq. cbn [Z.eqb Z.leb Z.compare Pos.eqb negb andb Z.add Pos.add].
    apply encoderItems_commas_later; [lia |].
    eapply Forall_impl; [exact Hsorted |]. intros w Hw. cbv beta in Hw. lia.
  - unfold fieldSeq. rewrite seqZ_cons by lia. cbn [map app wellSeparated Z.eqb Pos.eqb negb andb].
    rewrite forallb_app.
    replace (1 <=? taf_Number v) with true by (symmetry; apply Z.leb_le; lia).
    replace (taf_Number v =? 1) with false by (symmetry; apply Z.eqb_neq; lia).
    cbn [forallb negb andb id].
    assert (Hnulls : forallb id (map (fun i => negb (i =? 1))
                                     (seqZ (Z.succ 1) (Z.pred (taf_Number v - 1)))) = true).
    { apply forallb_forall. intros c Hc.
      apply list_elem_of_In, list_elem_of_fmap in Hc as (i & -> & Hi).
      apply elem_of_seqZ in Hi. unfold id. apply negb_true_iff, Z.eqb_neq. lia. }
    rewrite Hnulls. cbn [andb]. unfold id at 1. cbn [andb].
    apply encoderItems_commas_later; [lia |].
    eapply Forall_impl; [exact Hsorted |]. intros w Hw. cbv beta in Hw. lia.
Qed.

Lemma sorted_numbers_separable (n : Z) (rest : list Z) :
  Forall (fun m => n <= m) rest ->
  (1 <= n /\ Forall (fun m => m <> 1) rest)
  <-> (Forall (fun m => 1 <= m) (n :: rest)
       /\ (count_occ Z.eq_dec (n :: rest) 1%Z <= 1)%nat).
Proof.
  intros Hsorted. split.
  - intros [Hn Hrest]. split.
    + apply Forall_cons. split; [exact Hn |].
      eapply Forall_impl; [exact Hsorted |]. intros m Hm. cbv beta in Hm. lia.
    + assert (Hnone : count_occ Z.eq_dec rest 1 = 0%nat).
      { apply count_occ_not_In. intros Hin. apply list_elem_of_In in Hin.
        rewrite Forall_forall in Hrest. apply (Hrest 1 Hin). reflexivity. }
      cbn [count_occ]. destruct (Z.eq_dec n 1); lia.
  - intros [Hpos Hcount]. apply Forall_cons in Hpos as [Hn Hpos].
    split; [exact Hn |]. rewrite Forall_forall. intros m Hm ->.
    rewrite Forall_forall in Hsorted. pose proof (Hsorted 1 Hm) as Hle.
    assert (Hone : n = 1) by lia. subst n.
    apply list_elem_of_In, (count_occ_In Z.eq_dec) in Hm.
    rewrite count_occ_cons_eq in Hcount by reflexivity. lia.
Qed.

Lemma messageAlias_slots_sorted preface messagePb p alias :
  messageAlias preface messagePb p = Ok alias ->
  StronglySorted (fun a b => taf_Number a <= taf_Number b) (ta_FieldEncoders alias).
Proof.
  intros Ha. apply messageAlias_Ok in Ha as (entries & _ & Hencs & _).
  rewrite Hencs.
  assert (Hsorted : StronglySorted (notLess lessByNumber)
                      (sort_Slice lessByNumber (map entryField entries)))
    by apply (StronglySorted_merge_sort _).
  clear Hencs.
  induction Hsorted as [|a rest _ IH Hhd]; [apply SSorted_nil |].
  apply SSorted_cons; [exact IH |].
  eapply Forall_impl; [exact Hhd |].
  intros b Hb. cbv beta in Hb. unfold notLess, lessByNumber in Hb.
  apply Z.ltb_ge in Hb. exact Hb.
Qed.

Lemma encoderItems_keep_encoders fieldEncoders :
  forall idx,
    List.filter (fun e => negb (isPlaceholder e)) (map item_expr (encoderItems idx fieldEncoders))
    = map (fun v => EncoderCall (taf_Encoder v)) fieldEncoders.
Proof.
  induction fieldEncoders as [|v rest IH]; intros idx; [reflexivity |].
  rewrite encoderItems_cons, List.filter_app. cbn [List.filter isPlaceholder negb map].
  rewrite IH.
  assert (Hnulls : forall n, List.filter (fun e => negb (isPlaceholder e))
                               (replicate n JE_null) = [])
    by (induction n as [|n IHn]; [reflexivity | exact IHn]).
  rewrite Hnulls. reflexivity.
Qed.

Lemma encoderList_separable (fieldEncoders : list TypeAliasField) :
  StronglySorted (fun a b => taf_Number a <= taf_Number b) fieldEncoders ->
  wellSeparated (map item_comma (encoderItems 1 fieldEncoders)) = true
  <-> (Forall (fun n => 1 <= n) (map taf_Number fieldEncoders)
       /\ (count_occ Z.eq_dec (map taf_Number fieldEncoders) 1%Z <= 1)%nat).
Proof.
  intros Hsorted. destruct Hsorted as [|v rest Hrest Hhd].
  - cbn. split; [intros _; split; [constructor | lia] | reflexivity].
  - rewrite encoderItems_wellSeparated by exact Hhd. cbn [map].
    rewrite <- sorted_numbers_separable.
    + rewrite andb_true_iff, Z.leb_le, forallb_forall, Forall_forall.
      split; intros [Hv Hones]; (split; [exact Hv |]).
      * intros m Hm. apply list_elem_of_fmap in Hm as (w & -> & Hw).
        apply list_elem_of_In in Hw. specialize (Hones w Hw).
        apply negb_true_iff, Z.eqb_neq in Hones. exact Hones.
      * intros w Hw. apply negb_true_iff, Z.eqb_neq.
        apply Hones, list_elem_of_fmap_2, list_elem_of_In, Hw.
    + rewrite Forall_fmap. exact Hhd.
Qed.

(** X4: the encoder slots of a type alias are in non-decreasing order of
    number.  What the template emits between the brackets after
    [valueList] is a list, with every separator in its place, exactly
    when no kept field has a number below 1 and at most one has the
    number 1; a duplicate of 1 leaves two encoders without a comma between
    them, and a number below 1 puts a comma first.  When it is a list, it
    is the plan, and it holds the encoder of every slot once, in the order
    of the slots, with nothing but [JE.null] placeholders added. *)
Theorem plan_keeps_every_encoder preface messagePb p alias :
  messageAlias preface messagePb p = Ok alias ->
  let numbers := map field_Number (keptFields messagePb p) in
  StronglySorted (fun a b => taf_Number a <= taf_Number b) (ta_FieldEncoders alias)
  /\ (is_Some (encoderList alias)
      <-> Forall (fun n => 1 <= n) numbers /\ (count_occ Z.eq_dec numbers 1%Z <= 1)%nat)
  /\ forall plan,
       encoderList alias = Some plan ->
       plan = encodePlan alias
       /\ List.filter (fun e => negb (isPlaceholder e)) plan
          = map (fun v => EncoderCall (taf_Encoder v)) (ta_FieldEncoders alias).
Proof.
  intros Ha numbers.
  pose proof (messageAlias_slots_sorted _ _ _ _ Ha) as Hsorted.
  apply messageAlias_FieldEncoders in Ha as [Hperm _]. fold numbers in Hperm.
  split; [exact Hsorted |]. split.
  - rewrite <- (proj1 (Permutation_count_occ Z.eq_dec _ _) Hperm 1), <- Hperm.
    rewrite <- (encoderList_separable _ Hsorted). unfold encoderList.
    destruct (wellSeparated _); split; intros Hsome;
      try reflexivity; try discriminate; try (eexists; reflexivity).
    destruct Hsome as [plan [=]].
  - unfold encoderList, encodePlan. intros plan Hplan.
    destruct (wellSeparated _); [| discriminate]. injection Hplan as <-.
    split; [reflexivity | apply encoderItems_keep_encoders].
Qed.

Lemma append_assoc_string (a b c : string) : (a +:+ b) +:+ c = a +:+ (b +:+ c).
Proof.
  induction a as [|x a IH]; [reflexivity |].
  change (String x ((a +:+ b) +:+ c) = String x (a +:+ (b +:+ c))).
  f_equal. exact IH.
Qed.

Lemma prefix_app (s t : string) : String.prefix s (s +:+ t) = true.
Proof.
  induction s as [|c s IH]; simpl.
  - destruct t; reflexivity.
  - destruct (ascii_dec c c) as [_ | Hne]; [exact IH | contradiction].
Qed.

Lemma fieldEntryOf_decoder_index nestedPreface messagePb fieldPb e :
  field_OneofIndex fieldPb = None ->
  getNestedType fieldPb messagePb = None ->
  fieldEntryOf nestedPreface messagePb fieldPb = Ok e ->
  String.prefix ("idxWithDefault " +:+ GoStrings.itoa (field_Number fieldPb - 1) +:+ " ")
                (taf_Decoder (entryField e)) = true.
Proof.
  intros Hone Hmap He. unfold fieldEntryOf in He. rewrite Hone, Hmap in He.
  assert (Hpre : forall n rest,
             String.prefix ("idxWithDefault " +:+ n +:+ " ")
                           ("idxWithDefault " +:+ n +:+ " " +:+ rest) = true).
  { intros n rest.
    rewrite <- (append_assoc_string n " " rest),
      <- (append_assoc_string "idxWithDefault " (n +:+ " ") rest).
    apply prefix_app. }
  destruct (isOptional fieldPb); [| destruct (isRepeated fieldPb)].
  - bind_inv He. cbn [entryField taf_Decoder].
    unfold MaybeDecoder in *.
    match goal with
    | Hd : _ ≫= _ = Ok _ |- _ => apply bind_eq_Ok in Hd as (dec & _ & [= <-])
    end.
    unfold jsIdx, FieldNum. apply (Hpre _ ("(JD.maybe " +:+ dec +:+ ") Nothing")).
  - bind_inv He. cbn [entryField taf_Decoder].
    unfold ListDecoder in *.
    match goal with
    | Hd : _ ≫= _ = Ok _ |- _ => apply bind_eq_Ok in Hd as (dec & _ & [= <-])
    end.
    unfold jsIdx, FieldNum. apply (Hpre _ ("(JD.list " +:+ dec +:+ ") []")).
  - bind_inv He. cbn [entryField taf_Decoder].
    unfold RequiredFieldDecoder in *.
    match goal with
    | Hd : _ ≫= _ = Ok _ |- _ => apply bind_eq_Ok in Hd as (dec & _ & Hd)
    end.
    match goal with
    | Hd : _ ≫= _ = Ok _ |- _ => apply bind_eq_Ok in Hd as (def & _ & [= <-])
    end.
    unfold jsIdx, FieldNum. apply (Hpre _ (dec +:+ " " +:+ def)).
Qed.

(** X5: encode position and decode index agree.  In a message whose kept
    fields have positive, pairwise distinct numbers, a kept field that is
    neither in a oneof nor a map is in both lists of the type alias; the
    plan holds its encoder at position [number - 1] of the list given to
    [valueList], and its decoder starts with [idxWithDefault] applied to
    the same index [number - 1]. *)
Theorem decoder_reads_where_encoder_writes preface messagePb p alias fieldPb :
  messageAlias preface messagePb p = Ok alias ->
  NoDup (map field_Number (keptFields messagePb p)) ->
  Forall (fun n => 1 <= n) (map field_Number (keptFields messagePb p)) ->
  fieldPb ∈ keptFields messagePb p ->
  field_OneofIndex fieldPb = None ->
  getNestedType fieldPb messagePb = None ->
  exists f,
    f ∈ ta_Fields alias /\ f ∈ ta_FieldEncoders alias
    /\ taf_Number f = field_Number fieldPb
    /\ encodePlan alias !! Z.to_nat (field_Number fieldPb - 1)
       = Some (EncoderCall (taf_Encoder f))
    /\ String.prefix ("idxWithDefault " +:+ GoStrings.itoa (field_Number fieldPb - 1) +:+ " ")
                     (taf_Decoder f) = true.
Proof.
  intros Ha Hnodup Hpos Hin Hone Hmap.
  destruct (messageAlias_FieldEncoders _ _ _ _ Ha) as [Hperm Hsorted].
  specialize (Hsorted Hnodup).
  apply messageAlias_Ok in Ha as (entries & Hentries & Hencs & Hfields & _).
  destruct (Forall2_elem_of_l _ _ _ _ Hentries Hin) as (e & He & Hentry).
  cbv beta in Hentry.
  destruct (fieldEntryOf_plain _ _ _ _ Hone Hentry) as (f & -> & _ & Hnum).
  pose proof (fieldEntryOf_decoder_index _ _ _ _ Hone Hmap Hentry) as Hdec.
  cbn [entryField] in Hdec.
  assert (Hfe : f ∈ ta_FieldEncoders alias).
  { rewrite Hencs, sort_Slice_Permutation.
    apply (list_elem_of_fmap_2 entryField _ _ He). }
  exists f. repeat split; try assumption.
  - rewrite Hfields. apply elem_of_app. left.
    apply list_elem_of_In, in_concat. exists [f]. split; [| left; reflexivity].
    apply list_elem_of_In. apply (list_elem_of_fmap_2 entryFields _ _ He).
  - assert (Hpos' : Forall (fun v => 1 <= taf_Number v) (ta_FieldEncoders alias)).
    { rewrite Forall_forall. intros v Hv.
      rewrite Forall_forall in Hpos. apply Hpos.
      rewrite <- Hperm. apply list_elem_of_fmap_2, Hv. }
    rewrite <- Hnum. unfold encodePlan.
    apply (encoderItems_lookup 1 _ Hsorted Hpos'); [| exact Hfe | reflexivity].
    rewrite Forall_forall in Hpos'. apply Hpos', Hfe.
Qed.

(** X6: without a schema default [fieldDefault] is the zero value of
    [BasicFieldDefaultValue], panics included, for every kind but bool
    (where it panics) and, for a repeated field, string (where it gives
    the empty string literal and the other the empty list). *)
Theorem fieldDefault_falls_back_to_zero_value field :
  field_DefaultValue field = "" ->
  field_Type field <> TYPE_BOOL ->
  (field_Type field = TYPE_STRING -> field_Label field <> LABEL_REPEATED) ->
  fieldDefault field = BasicFieldDefaultValue field.
Proof.
  intros Hd Hbool Hstring. unfold fieldDefault. rewrite Hd.
  destruct (decide (field_Type field = TYPE_STRING)) as [Hs | Hs].
  - unfold BasicFieldDefaultValue. rewrite Hs. specialize (Hstring Hs).
    apply Z.eqb_neq in Hstring. rewrite Hstring. reflexivity.
  - destruct (field_Type field) as [|q|q]; try reflexivity.
    do 4 (try (destruct q as [q|q|]; try reflexivity)); contradiction.
Qed.

(** ** Go's [strings.Split] and [strings.Join] *)

Lemma Split_noByte c s : noByte c s = true -> GoStrings.Split s c = [s].
Proof.
  induction s as [|a s IH]; [reflexivity |].
  cbn [noByte GoStrings.Split]. intros Hn. apply andb_true_iff in Hn as [Ha Hs].
  apply negb_true_iff in Ha. rewrite Ha, (IH Hs). reflexivity.
Qed.

Lemma Split_app c a b :
  noByte c a = true ->
  GoStrings.Split (a +:+ String c b) c = a :: GoStrings.Split b c.
Proof.
  induction a as [|x a IH]; intros Hn.
  - change ("" +:+ String c b) with (String c b).
    cbn [GoStrings.Split]. rewrite Stdlib.Strings.Ascii.eqb_refl. reflexivity.
  - cbn [noByte] in Hn. apply andb_true_iff in Hn as [Hx Ha].
    apply negb_true_iff in Hx.
    change (String x a +:+ String c b) with (String x (a +:+ String c b)).
    cbn [GoStrings.Split]. rewrite Hx, (IH Ha). reflexivity.
Qed.

Lemma Join_cons x y l sep :
  GoStrings.Join (x :: y :: l) sep = x +:+ sep +:+ GoStrings.Join (y :: l) sep.
Proof. reflexivity. Qed.

(** Splitting what was joined gives the elements back, when none of them
    holds the separator. *)
Lemma Split_Join c l :
  l <> [] -> Forall (fun s => noByte c s = true) l ->
  GoStrings.Split (GoStrings.Join l (String c EmptyString)) c = l.
Proof.
  intros Hne Hall. induction Hall as [|x l Hx Hl IH]; [contradiction |].
  destruct l as [|y l].
  - cbn [GoStrings.Join]. apply Split_noByte, Hx.
  - rewrite Join_cons.
    change (x +:+ String c EmptyString +:+ GoStrings.Join (y :: l) (String c EmptyString))
      with (x +:+ String c (GoStrings.Join (y :: l) (String c EmptyString))).
    rewrite (Split_app _ _ _ Hx), IH by discriminate. reflexivity.
Qed.

Lemma Split_nonempty s c : GoStrings.Split s c <> [].
Proof.
  destruct s as [|a s]; cbn [GoStrings.Split]; [discriminate |].
  destruct (Ascii.eqb a c); [discriminate |].
  destruct (GoStrings.Split s c); discriminate.
Qed.

(** ** Names *)

(** X7: [avoidCollision], and with it [FieldName], never returns a
    reserved word of Elm: a reserved word gets an underscore appended, and
    every other name is returned as it is. *)
Theorem avoidCollision_avoids_reserved_words (in_ : string) :
  default false (reservedKeywords !! avoidCollision in_) = false
  /\ default false (reservedKeywords !! FieldName in_) = false
  /\ (default false (reservedKeywords !! in_) = false -> avoidCollision in_ = in_)
  /\ (default false (reservedKeywords !! in_) = true -> avoidCollision in_ = in_ +:+ "_").
Proof.
  assert (Hgen : forall s, default false (reservedKeywords !! avoidCollision s) = false).
  { intros s. unfold avoidCollision.
    destruct (reservedKeywords !! s) as [[|]|] eqn:Hs; cbn [from_option id];
      [| rewrite Hs; reflexivity ..].
    unfold reservedKeywords in Hs. apply elem_of_list_to_map_2 in Hs.
    cbn [map] in Hs.
    repeat (apply elem_of_cons in Hs as [[= ->] | Hs]; [vm_compute; reflexivity |]).
    inversion Hs. }
  split; [apply Hgen |]. split; [apply Hgen |].
  unfold avoidCollision. split; intros ->; reflexivity.
Qed.

Lemma ExternalType_segments inType :
  ExternalType inType
  = GoStrings.Join
      (map FirstUpper
           (List.filter (fun s => negb (String.eqb s "") && negb (firstRuneIsLower s))
                        (GoStrings.Split inType ".")))
      "_".
Proof.
  unfold ExternalType. f_equal.
  generalize (GoStrings.Split inType ".") as segs. intros segs.
  assert (Hgen : forall acc,
             foldl (fun segs s =>
                      if String.eqb s "" then segs
                      else if negb (firstRuneIsLower s) then segs ++ [FirstUpper s]
                      else segs) acc segs
             = acc ++ map FirstUpper
                        (List.filter (fun s => negb (String.eqb s "")
                                               && negb (firstRuneIsLower s)) segs)).
  { induction segs as [|s segs IH]; intros acc; cbn [foldl List.filter map].
    - rewrite app_nil_r. reflexivity.
    - rewrite IH. destruct (String.eqb s ""); cbn [negb andb]; [reflexivity |].
      destruct (firstRuneIsLower s); cbn [negb map]; [reflexivity |].
      rewrite <- app_assoc. reflexivity. }
  apply (Hgen []).
Qed.

(** X8: [ExternalType] resolves a dotted type name to the segments that
    are not empty and do not start with a lower-case letter, each through
    [FirstUpper], joined by underscores: the leading dot and the package
    segments leave no trace in the name. *)
Theorem ExternalType_drops_package_segments (segments : list string) :
  segments <> [] ->
  Forall (fun s => noByte "." s = true) segments ->
  ExternalType (GoStrings.Join segments ".")
  = GoStrings.Join
      (map FirstUpper
           (List.filter (fun s => negb (String.eqb s "") && negb (firstRuneIsLower s))
                        segments))
      "_".
Proof.
  intros Hne Hall. rewrite ExternalType_segments.
  change "."%string with (String "."%char EmptyString) at 1.
  rewrite (Split_Join _ _ Hne Hall). reflexivity.
Qed.

(** ** Map fields *)

Lemma getNestedType_Some inField inMessage nested :
  getNestedType inField inMessage = Some nested ->
  nested ∈ msg_NestedType inMessage
  /\ msg_Name nested = getLocalType (field_TypeName inField)
  /\ GetMapEntry (msg_Options nested) = true.
Proof.
  unfold getNestedType. intros Hfind. apply find_some in Hfind as [Hin Hcond].
  apply andb_true_iff in Hcond as [Hname Hmap].
  apply String.eqb_eq in Hname. apply list_elem_of_In in Hin.
  repeat split; assumption.
Qed.

Lemma index_short {A} (l : list A) (i : Z) :
  Z.of_nat (length l) <= i -> 0 <= i ->
  index l i = Panic (IndexOutOfRange i (Z.of_nat (length l))).
Proof.
  intros Hlen Hi. unfold index.
  replace (i <? 0) with false by (symmetry; apply Z.ltb_ge; lia).
  replace (Z.of_nat (length l) <=? i) with true by (symmetry; apply Z.leb_le; lia).
  reflexivity.
Qed.

(** X9: a field whose type names a nested map-entry message is given the
    type [Dict.Dict K V] of the first two fields of the entry, the default
    [Nothing], and a decoder and an encoder made of the field's wire
    number and the codec of the value field alone.  A map entry with
    fewer than two fields makes the classification panic with an index
    out of range. *)
Theorem map_field_uses_the_entry_fields nestedPreface messagePb fieldPb nested :
  field_OneofIndex fieldPb = None ->
  getNestedType fieldPb messagePb = Some nested ->
  ((length (msg_Field nested) < 2)%nat ->
     fieldEntryOf nestedPreface messagePb fieldPb
     = Panic (IndexOutOfRange (Z.of_nat (length (msg_Field nested)))
                              (Z.of_nat (length (msg_Field nested)))))
  /\ (forall e,
        fieldEntryOf nestedPreface messagePb fieldPb = Ok e ->
        exists keyField valueField k v enc dec,
          msg_Field nested !! 0%nat = Some keyField
          /\ msg_Field nested !! 1%nat = Some valueField
          /\ BasicFieldType keyField = Ok k
          /\ BasicFieldType valueField = Ok v
          /\ BasicFieldEncoder valueField = Ok enc
          /\ BasicFieldDecoder valueField = Ok dec
          /\ e = FieldAndEncoder
                   {| taf_Name := FieldName (field_Name fieldPb);
                      taf_Type := "Dict.Dict " +:+ k +:+ " " +:+ v;
                      taf_Number := field_Number fieldPb;
                      taf_Default := "Nothing";
                      taf_Decoder := "mapEntries " +:+ GoStrings.itoa (field_Number fieldPb)
                                       +:+ " " +:+ dec;
                      taf_Encoder := "mapEntriesFieldEncoder "
                                       +:+ GoStrings.itoa (field_Number fieldPb)
                                       +:+ " " +:+ enc +:+ " v."
                                       +:+ FieldName (field_Name fieldPb) |}).
Proof.
  intros Hone Hmap. unfold fieldEntryOf. rewrite Hone, Hmap. split.
  - intros Hlen. unfold MapType.
    destruct (msg_Field nested) as [|keyField [|valueField rest]]; cbn [length] in *.
    + reflexivity.
    + reflexivity.
    + lia.
  - intros e He.
    apply bind_eq_Ok in He as (t & Ht & He).
    apply bind_eq_Ok in He as (enc' & Henc & He).
    apply bind_eq_Ok in He as (dec' & Hdec & [= <-]).
    unfold MapType in Ht.
    apply bind_eq_Ok in Ht as (keyField & Hk & Ht).
    apply bind_eq_Ok in Ht as (valueField & Hv & Ht).
    apply bind_eq_Ok in Ht as (k & Htk & Ht).
    apply bind_eq_Ok in Ht as (v & Htv & [= <-]).
    unfold MapEncoder in Henc. rewrite Hv in Henc. cbn [mbind result_bind] in Henc.
    apply bind_eq_Ok in Henc as (enc & Henc & [= <-]).
    unfold MapDecoder in Hdec. rewrite Hv in Hdec. cbn [mbind result_bind] in Hdec.
    apply bind_eq_Ok in Hdec as (dec & Hdec & [= <-]).
    apply index_Ok in Hk as [_ Hk]. apply index_Ok in Hv as [_ Hv].
    exists keyField, valueField, k, v, enc, dec. repeat split; assumption.
Qed.

Lemma hasMapEntriesInMessage_eq inMessage :
  hasMapEntriesInMessage inMessage
  = GetMapEntry (msg_Options inMessage)
    || existsb hasMapEntriesInMessage (msg_NestedType inMessage).
Proof. destruct inMessage as [? ? ? ? ? opts]. cbn. destruct (GetMapEntry opts); reflexivity. Qed.

Lemma existsb_flat_map {A B} (f : B -> bool) (g : A -> list B) (l : list A) :
  existsb f (flat_map g l) = existsb (fun x => existsb f (g x)) l.
Proof.
  induction l as [|x l IH]; [reflexivity |].
  cbn [flat_map existsb]. rewrite existsb_app, IH. reflexivity.
Qed.

Lemma hasMapEntriesInMessage_allMessages inMessage :
  hasMapEntriesInMessage inMessage
  = existsb (fun m => GetMapEntry (msg_Options m)) (allMessages inMessage).
Proof.
  induction inMessage as [inMessage IH] using DescriptorProto_nested_ind.
  rewrite hasMapEntriesInMessage_eq, allMessages_eq. cbn [existsb]. f_equal.
  rewrite existsb_flat_map.
  induction IH as [|m rest Hm _ IHrest]; [reflexivity |].
  cbn [existsb]. rewrite Hm, IHrest. reflexivity.
Qed.

(** X10: [hasMapEntries], which decides whether the generated module
    imports [Dict], holds exactly when some message of the file, at any
    depth, is a map entry; so it holds whenever a field of some message of
    the file is classified as a map. *)
Theorem hasMapEntries_finds_every_map inFile :
  hasMapEntries inFile
  = existsb (fun m => GetMapEntry (msg_Options m))
            (flat_map allMessages (file_MessageType inFile))
  /\ forall messagePb fieldPb nested,
       messagePb ∈ flat_map allMessages (file_MessageType inFile) ->
       getNestedType fieldPb messagePb = Some nested ->
       hasMapEntries inFile = true.
Proof.
  assert (Heq : hasMapEntries inFile
                = existsb (fun m => GetMapEntry (msg_Options m))
                          (flat_map allMessages (file_MessageType inFile))).
  { unfold hasMapEntries. rewrite existsb_flat_map.
    induction (file_MessageType inFile) as [|m rest IH]; [reflexivity |].
    cbn [existsb]. rewrite hasMapEntriesInMessage_allMessages, IH. reflexivity. }
  split; [exact Heq |].
  intros messagePb fieldPb nested Hin Hmap.
  apply getNestedType_Some in Hmap as (Hnested & _ & Hentry).
  rewrite Heq. apply existsb_exists. exists nested. split; [| exact Hentry].
  apply list_elem_of_In.
  apply elem_of_flat_map in Hin as (top & Htop & Hin).
  apply elem_of_flat_map. exists top. split; [exact Htop |].
  clear Htop. revert messagePb Hin Hnested.
  induction top as [top IH] using DescriptorProto_nested_ind.
  intros messagePb Hin Hnested.
  rewrite allMessages_eq in Hin |- *. apply elem_of_cons in Hin as [-> | Hin].
  - right. apply elem_of_flat_map. exists nested. split; [exact Hnested |].
    rewrite allMessages_eq. left.
  - right. apply elem_of_flat_map in Hin as (child & Hchild & Hin).
    apply elem_of_flat_map. exists child. split; [exact Hchild |].
    rewrite Forall_forall in IH. apply (IH child Hchild messagePb Hin Hnested).
Qed.

(** ** Enums, again *)

(** X11: [enumsToCustomTypes] returns whenever every enum the filter
    keeps has a variant the filter keeps; it then gives one custom type
    for every kept enum, in order, named by [NestedType], whose variants
    are the kept values in the order of declaration with their numbers. *)
Theorem enums_with_kept_variants_resolve preface enumPbs p :
  Forall (fun enumPb => keptEnum p enumPb = true ->
                        List.filter (keptValue p) (enum_Value enumPb) <> []) enumPbs ->
  exists ts,
    enumsToCustomTypes preface enumPbs p = Ok ts
    /\ map ect_Name ts
       = map (fun enumPb => NestedType (enum_Name enumPb) preface)
             (List.filter (keptEnum p) enumPbs)
    /\ map ect_Variants ts
       = map (fun enumPb => map (variantOf preface)
                                (List.filter (keptValue p) (enum_Value enumPb)))
             (List.filter (keptEnum p) enumPbs).
Proof.
  induction 1 as [|enumPb rest Hhere _ (ts & Hts & Hnames & Hvariants)].
  - exists []. repeat split.
  - rewrite enumsToCustomTypes_cons. cbn [List.filter].
    destruct (keptEnum p enumPb).
    + specialize (Hhere eq_refl).
      unfold enumToCustomType. rewrite enumValues_kept.
      destruct (List.filter (keptValue p) (enum_Value enumPb)) as [|value values] eqn:Hkept;
        [contradiction |].
      cbn [map]. rewrite index_0_cons, Hts. cbn [mbind result_bind].
      eexists. split; [reflexivity |].
      cbn [map ect_Name ect_Variants]. rewrite Hnames, Hvariants, Hkept.
      split; reflexivity.
    + exists ts. repeat split; assumption.
Qed.

(** ** Parameters and the exclusion set *)

Lemma generateFiles_Ok_files protoFiles p excludedFiles outs excludedFiles' :
  generateFiles protoFiles p excludedFiles = Ok (outs, excludedFiles') ->
  map fst outs
  = map (fun inFile => fileName (file_Name inFile))
        (List.filter (fun inFile => notExcluded excludedFiles (file_Name inFile)) protoFiles)
  /\ Forall2 (fun inFile out => templateFile inFile p excludedFiles = Ok (snd out, excludedFiles))
             (List.filter (fun inFile => notExcluded excludedFiles (file_Name inFile)) protoFiles)
             outs.
Proof.
  intros Hrun. pose proof (readsOnly_generateFiles _ _ _ _ _ Hrun) as ->.
  revert outs Hrun.
  induction protoFiles as [|inFile rest IH]; intros outs Hrun.
  - cbn in Hrun. injection Hrun as <-. split; [reflexivity | constructor].
  - change (inFile :: rest) with ([inFile] ++ rest) in Hrun.
    apply generateFiles_app in Hrun as (o & os & -> & _ & Hfile & Hrest).
    apply IH in Hrest as [IHnames IHmodels].
    apply generateFiles_single in Hfile.
    cbn [List.filter]. unfold notExcluded in *.
    destruct (default false (excludedFiles !! file_Name inFile)); cbn [negb].
    + subst o. cbn [app]. split; assumption.
    + destruct Hfile as (model & Hmodel & ->). cbn [app map fst].
      rewrite IHnames. split; [reflexivity |].
      constructor; [exact Hmodel | exact IHmodels].
Qed.

(** X12: a run of the file loop that completes returns one response file
    for every input file that is not in the exclusion set, in the order
    of the request, named by [fileName] and holding the model
    [templateFile] gives for that file; excluded files, such as the
    well-known types, leave nothing in the response. *)
Theorem generateFiles_skips_excluded_files protoFiles p excludedFiles outs excludedFiles' :
  generateFiles protoFiles p excludedFiles = Ok (outs, excludedFiles') ->
  map fst outs
  = map (fun inFile => fileName (file_Name inFile))
        (List.filter (fun inFile => notExcluded excludedFiles (file_Name inFile)) protoFiles)
  /\ Forall2 (fun inFile out => templateFile inFile p excludedFiles = Ok (snd out, excludedFiles))
             (List.filter (fun inFile => notExcluded excludedFiles (file_Name inFile)) protoFiles)
             outs.
Proof. apply generateFiles_Ok_files. Qed.

Lemma forM_pure {A B} (f : A -> Gen (list B)) (g : gmap string bool -> A -> list B)
    (l : list A) (excludedFiles : gmap string bool) :
  (forall x s, f x s = Ok (g s x, s)) ->
  forM f l excludedFiles = Ok (concat (map (g excludedFiles) l), excludedFiles).
Proof.
  intros Hf. induction l as [|x l IH]; [reflexivity |].
  cbn [forM map concat]. unfold mbind, Gen_bind in *. rewrite Hf, IH. reflexivity.
Qed.

Lemma appendSegments_eq final segments :
  appendSegments final segments = final ++ map FirstUpper (List.filter nonEmpty segments).
Proof.
  unfold appendSegments. revert final.
  induction segments as [|s segments IH]; intros final; cbn [foldl List.filter map].
  - rewrite app_nil_r. reflexivity.
  - rewrite IH. unfold nonEmpty at 2.
    destruct (String.eqb s ""); cbn [negb map]; [reflexivity |].
    rewrite <- app_assoc. reflexivity.
Qed.

(** X13: [additionalImports] never fails and leaves the exclusion set
    alone; it gives one import for every dependency that is not excluded,
    in order.  The import is made of the segments of the module prefix as
    they are, empty ones included, followed by the capitalised non-empty
    segments of the path without [.proto]. *)
Theorem additionalImports_skips_excluded_dependencies modPrefix dependencies excludedFiles :
  additionalImports modPrefix dependencies excludedFiles
  = Ok (map (importOf modPrefix) (List.filter (notExcluded excludedFiles) dependencies),
        excludedFiles)
  /\ forall d,
       importOf modPrefix d
       = GoStrings.Join
           (GoStrings.Split modPrefix "."
            ++ map FirstUpper
                 (List.filter nonEmpty
                    (GoStrings.Split (GoStrings.TrimSuffix d ".proto") "/")))
           ".".
Proof.
  split.
  - unfold additionalImports.
    rewrite (forM_pure _ (fun s d => if notExcluded s d then [importOf modPrefix d] else [])).
    + f_equal. f_equal.
      induction dependencies as [|d rest IH]; [reflexivity |].
      cbn [map concat List.filter]. rewrite IH.
      destruct (notExcluded excludedFiles d); reflexivity.
    + intros d s. unfold mbind, Gen_bind, isExcluded, notExcluded.
      destruct (default false (s !! d)); reflexivity.
  - intros d. unfold importOf. rewrite appendSegments_eq. reflexivity.
Qed.

(** *** [parseParameters] *)

Lemma parseParameter_Ok result err v excludedFiles acc' excludedFiles' :
  parseParameter (result, err) v excludedFiles = Ok (acc', excludedFiles') ->
  (forall k, excludedFiles' !! k = excludedFiles !! k \/ excludedFiles' !! k = Some true)
  /\ (if knownParameter v then snd acc' = err else exists e, snd acc' = Some e).
Proof.
  unfold parseParameter, knownParameter, parameterName.
  destruct (String.eqb (List.hd "" (GoStrings.Split v "=")) "remove-deprecated").
  { intros [= <- <-]. split; [left; reflexivity | reflexivity]. }
  destruct (String.eqb (List.hd "" (GoStrings.Split v "=")) "debug").
  { intros [= <- <-]. split; [left; reflexivity | reflexivity]. }
  destruct (String.eqb (List.hd "" (GoStrings.Split v "=")) "module-prefix").
  { unfold mbind, Gen_bind, liftResult.
    destruct (index (List.tl (GoStrings.Split v "=")) 0); [| discriminate].
    intros [= <- <-]. split; [left; reflexivity | reflexivity]. }
  destruct (String.eqb (List.hd "" (GoStrings.Split v "=")) "exclude").
  { unfold mbind, Gen_bind, liftResult, exclude.
    destruct (index (List.tl (GoStrings.Split v "=")) 0) as [v0|]; [| discriminate].
    intros [= <- <-]. split; [| reflexivity].
    intros k. destruct (decide (v0 = k)) as [-> | Hne].
    - right. apply lookup_insert_eq.
    - left. apply lookup_insert_ne, Hne. }
  intros [= <- <-]. split; [left; reflexivity |]. eexists. reflexivity.
Qed.

Lemma parseParameter_panic acc v excludedFiles e :
  parseParameter acc v excludedFiles = Panic e -> e = IndexOutOfRange 0 0.
Proof.
  destruct acc as [result err]. unfold parseParameter.
  destruct (String.eqb _ "remove-deprecated"); [discriminate |].
  destruct (String.eqb _ "debug"); [discriminate |].
  assert (Hidx : forall l : list string, forall e', index l 0 = Panic e' -> e' = IndexOutOfRange 0 0).
  { intros [|x l] e'; [intros [= <-]; reflexivity | rewrite index_0_cons; discriminate]. }
  destruct (String.eqb _ "module-prefix").
  { unfold mbind, Gen_bind, liftResult.
    destruct (index (List.tl (GoStrings.Split v "=")) 0) eqn:Hi; [discriminate |].
    intros [= <-]. apply (Hidx _ _ Hi). }
  destruct (String.eqb _ "exclude").
  { unfold mbind, Gen_bind, liftResult, exclude.
    destruct (index (List.tl (GoStrings.Split v "=")) 0) eqn:Hi; [discriminate |].
    intros [= <-]. apply (Hidx _ _ Hi). }
  discriminate.
Qed.

Lemma parseParameter_missing_value acc v excludedFiles :
  missingValue v = true ->
  parseParameter acc v excludedFiles = Panic (IndexOutOfRange 0 0).
Proof.
  destruct acc as [result err]. unfold missingValue. intros Hv.
  apply orb_true_iff in Hv as [Hv | Hv]; apply String.eqb_eq in Hv; subst v; reflexivity.
Qed.

Lemma parseLoop_cons acc v rest excludedFiles :
  parseLoop acc (v :: rest) excludedFiles
  = match parseParameter acc v excludedFiles with
    | Ok (acc', excludedFiles') => parseLoop acc' rest excludedFiles'
    | Panic e => Panic e
    end.
Proof. reflexivity. Qed.

Lemma parseLoop_Ok vs :
  forall result err excludedFiles acc' excludedFiles',
    parseLoop (result, err) vs excludedFiles = Ok (acc', excludedFiles') ->
    (forall k, excludedFiles' !! k = excludedFiles !! k \/ excludedFiles' !! k = Some true)
    /\ (snd acc' = None <-> err = None /\ forallb knownParameter vs = true).
Proof.
  induction vs as [|v rest IH]; intros result err s acc' s' Hloop.
  - injection Hloop as <- <-. split; [left; reflexivity |]. cbn. tauto.
  - rewrite parseLoop_cons in Hloop.
    destruct (parseParameter (result, err) v s) as [[[result1 err1] s1]|e] eqn:Hstep;
      [| discriminate].
    apply parseParameter_Ok in Hstep as [Hgrow1 Herr1].
    apply IH in Hloop as [Hgrow Herr]. split.
    + intros k. destruct (Hgrow k) as [-> | ->]; [apply Hgrow1 | right; reflexivity].
    + rewrite Herr. cbn [forallb snd] in *.
      destruct (knownParameter v); cbn [andb].
      * rewrite Herr1. tauto.
      * destruct Herr1 as (e & ->). split; [intros [[=] _] | intros [_ [=]]].
Qed.

(** X14: [parseParameters] only ever adds to the exclusion set: a file
    excluded before the call, such as the well-known types, is excluded
    after it.  It reports an error exactly when some comma-separated
    element has a name other than [remove-deprecated], [debug],
    [module-prefix] and [exclude]; the empty parameter string is such an
    element. *)
Theorem parseParameters_grows_exclusions input excludedFiles p err excludedFiles' :
  parseParameters input excludedFiles = Ok ((p, err), excludedFiles') ->
  (forall k, default false (excludedFiles !! k) = true ->
             default false (excludedFiles' !! k) = true)
  /\ (err = None <->
      match input with
      | None => True
      | Some input => forallb knownParameter (GoStrings.Split input ",") = true
      end).
Proof.
  unfold parseParameters. destruct input as [input|].
  - intros Hloop. apply parseLoop_Ok in Hloop as [Hgrow Herr]. split.
    + intros k Hk. destruct (Hgrow k) as [-> | ->]; [exact Hk | reflexivity].
    + cbn [snd] in Herr. rewrite Herr. tauto.
  - intros [= <- <- <-]. split; [tauto | tauto].
Qed.

(** X15: a [module-prefix] or [exclude] element without [=] makes
    [parseParameters] panic with an index out of range, wherever it
    stands in the parameter string: the value is read at index 0 of an
    empty slice. *)
Theorem parameter_without_value_panics input excludedFiles v :
  v ∈ GoStrings.Split input "," ->
  missingValue v = true ->
  parseParameters (Some input) excludedFiles = Panic (IndexOutOfRange 0 0).
Proof.
  intros Hin Hv. unfold parseParameters.
  generalize {| Version := false; Debug := false; RemoveDeprecated := false; modPrefix := "" |}.
  generalize (@None string). revert excludedFiles.
  induction (GoStrings.Split input ",") as [|v' rest IH]; intros s err result;
    [inversion Hin |].
  rewrite parseLoop_cons.
  apply elem_of_cons in Hin as [<- | Hin].
  - rewrite (parseParameter_missing_value _ _ _ Hv). reflexivity.
  - destruct (parseParameter (result, err) v' s) as [[[result1 err1] s1]|e] eqn:Hstep.
    + apply IH, Hin.
    + apply parseParameter_panic in Hstep. rewrite Hstep. reflexivity.
Qed.

Lemma parseParameter_exclude result err v excludedFiles name more :
  GoStrings.Split v "=" = "exclude" :: name :: more ->
  parseParameter (result, err) v excludedFiles
  = Ok ((result, err), <[name := true]> excludedFiles).
Proof. intros Hv. unfold parseParameter. rewrite Hv. reflexivity. Qed.

Lemma parseLoop_exclude vs v name more :
  v ∈ vs ->
  GoStrings.Split v "=" = "exclude" :: name :: more ->
  forall result err excludedFiles acc' excludedFiles',
    parseLoop (result, err) vs excludedFiles = Ok (acc', excludedFiles') ->
    excludedFiles' !! name = Some true.
Proof.
  intros Hin Hv. induction vs as [|v' rest IH]; intros result err s acc' s' Hloop;
    [inversion Hin |].
  rewrite parseLoop_cons in Hloop.
  apply elem_of_cons in Hin as [<- | Hin].
  - rewrite (parseParameter_exclude _ _ _ _ _ _ Hv) in Hloop.
    apply parseLoop_Ok in Hloop as [Hgrow _].
    destruct (Hgrow name) as [Hsame | Htrue]; [| exact Htrue].
    rewrite Hsame. apply lookup_insert_eq.
  - destruct (parseParameter (result, err) v' s) as [[[result1 err1] s1]|e]; [| discriminate].
    apply (IH Hin _ _ _ _ _ Hloop).
Qed.

(** X16: an [exclude=NAME] element of the parameter string takes effect
    on the run: when [main] answers with a response, [NAME] is in the
    exclusion set, the response holds one file for every input file not
    in the set after parsing, in order, and none of them comes from an
    input file called [NAME]. *)
Theorem exclude_parameter_removes_the_file req input excludedFiles outs excludedFiles'
    v name more :
  main req excludedFiles = Ok (Response outs, excludedFiles') ->
  req_Parameter req = Some input ->
  v ∈ GoStrings.Split input "," ->
  GoStrings.Split v "=" = "exclude" :: name :: more ->
  default false (excludedFiles' !! name) = true
  /\ map fst outs
     = map (fun inFile => fileName (file_Name inFile))
           (List.filter (fun inFile => notExcluded excludedFiles' (file_Name inFile))
                        (req_ProtoFile req))
  /\ Forall (fun inFile => file_Name inFile <> name)
            (List.filter (fun inFile => notExcluded excludedFiles' (file_Name inFile))
                         (req_ProtoFile req)).
Proof.
  intros Hmain Hinput Hin Hv.
  apply main_excludedFiles in Hmain as (p & Hparse & Hgen).
  rewrite Hinput in Hparse. unfold parseParameters in Hparse.
  pose proof (parseLoop_exclude _ _ _ _ Hin Hv _ _ _ _ _ Hparse) as Hname.
  apply generateFiles_Ok_files in Hgen as [Hnames _].
  split; [rewrite Hname; reflexivity |]. split; [exact Hnames |].
  rewrite Forall_forall. intros inFile Hfile.
  apply elem_of_filter_bool in Hfile as [_ Hkept].
  intros Heq. unfold notExcluded in Hkept. rewrite Heq, Hname in Hkept. discriminate.
Qed.

(** X17: a run of [main] that does not panic stops with the fatal error
    [Failed to parse parameters], and generates no file, exactly when the
    parameter string has an element with an unknown name; a request
    without a parameter string is accepted. *)
Theorem main_is_fatal_on_unknown_parameters req excludedFiles out excludedFiles' :
  main req excludedFiles = Ok (out, excludedFiles') ->
  (exists e, out = Fatal ("Failed to parse parameters: " +:+ e)) <->
  match req_Parameter req with
  | None => False
  | Some input => forallb knownParameter (GoStrings.Split input ",") = false
  end.
Proof.
  unfold main. intros Hmain.
  apply Gen_bind_Ok in Hmain as ([p err] & s1 & Hparse & Hmain).
  assert (Herr : err = None <->
                 match req_Parameter req with
                 | None => True
                 | Some input => forallb knownParameter (GoStrings.Split input ",") = true
                 end).
  { unfold parseParameters in Hparse. destruct (req_Parameter req) as [input|].
    - apply parseLoop_Ok in Hparse as [_ Herr]. cbn [snd] in Herr. rewrite Herr. tauto.
    - injection Hparse as _ <- _. tauto. }
  clear Hparse.
  destruct err as [e|].
  - injection Hmain as <- _. split; [intros _ | intros _; eexists; reflexivity].
    destruct (req_Parameter req) as [input|].
    + destruct (forallb knownParameter (GoStrings.Split input ",")); [| reflexivity].
      destruct Herr as [_ Herr]. discriminate (Herr eq_refl).
    + destruct Herr as [_ Herr]. discriminate (Herr I).
  - apply Gen_bind_Ok in Hmain as (files & s2 & _ & [= <- _]).
    split; [intros (msg & [=]) |].
    destruct (req_Parameter req) as [input|]; [| contradiction].
    destruct Herr as [Herr _]. rewrite (Herr eq_refl). discriminate.
Qed.

(** ** File and module names *)

Lemma length_append_string (s t : string) :
  String.length (s +:+ t) = (String.length s + String.length t)%nat.
Proof. induction s as [|c s IH]; [reflexivity |]. simpl. rewrite IH. reflexivity. Qed.

Lemma substring_all (s : string) : String.substring 0 (String.length s) s = s.
Proof. induction s as [|c s IH]; [reflexivity |]. simpl. rewrite IH. reflexivity. Qed.

Lemma substring_app_l (s t : string) :
  String.substring 0 (String.length s) (s +:+ t) = s.
Proof.
  induction s as [|c s IH]; simpl.
  - destruct t; reflexivity.
  - rewrite IH. reflexivity.
Qed.

Lemma substring_app_r (s t : string) :
  String.substring (String.length s) (String.length t) (s +:+ t) = t.
Proof. induction s as [|c s IH]; simpl; [apply substring_all | exact IH]. Qed.

(** [TrimSuffix] takes off what was appended. *)
Lemma TrimSuffix_app (s suffix : string) : GoStrings.TrimSuffix (s +:+ suffix) suffix = s.
Proof.
  unfold GoStrings.TrimSuffix, GoStrings.HasSuffix.
  rewrite length_append_string.
  replace (String.length s + String.length suffix - String.length suffix)%nat
    with (String.length s) by lia.
  rewrite substring_app_r, String.eqb_refl, andb_true_r.
  replace (String.length suffix <=? String.length s + String.length suffix)%nat with true
    by (symmetry; apply Nat.leb_le; lia).
  apply substring_app_l.
Qed.

Lemma noByte_app c (s t : string) :
  noByte c (s +:+ t) = noByte c s && noByte c t.
Proof.
  induction s as [|a s IH]; [reflexivity |].
  change (String a s +:+ t) with (String a (s +:+ t)). cbn [noByte].
  rewrite IH, andb_assoc. reflexivity.
Qed.

Lemma filepath_Split_noSlash (s : string) :
  noByte "/" s = true -> GoStrings.filepath_Split s = (EmptyString, s).
Proof.
  induction s as [|c s IH]; [reflexivity |].
  cbn [noByte GoStrings.filepath_Split]. intros Hn.
  apply andb_true_iff in Hn as [Hc Hs]. apply negb_true_iff in Hc.
  rewrite (IH Hs), Hc. reflexivity.
Qed.

Lemma filepath_Split_app (a b : string) :
  GoStrings.filepath_Split (a +:+ String "/" b)
  = (a +:+ String "/" (fst (GoStrings.filepath_Split b)), snd (GoStrings.filepath_Split b)).
Proof.
  induction a as [|c a IH].
  - change ("" +:+ String "/" b) with (String "/" b). cbn [GoStrings.filepath_Split].
    destruct (GoStrings.filepath_Split b) as [dir file]. reflexivity.
  - change (String c a +:+ String "/" b) with (String c (a +:+ String "/" b)).
    cbn [GoStrings.filepath_Split]. rewrite IH.
    destruct (Stdlib.Strings.Ascii.eqb c "/"); [reflexivity |].
    destruct a; reflexivity.
Qed.

Lemma filepath_Split_dirPrefix (dirs : list string) (file : string) :
  noByte "/" file = true ->
  GoStrings.filepath_Split (dirPrefix dirs +:+ file) = (dirPrefix dirs, file).
Proof.
  intros Hfile. induction dirs as [|d dirs IH].
  - apply filepath_Split_noSlash, Hfile.
  - cbn [dirPrefix].
    rewrite (append_assoc_string d), (append_assoc_string "/").
    change ("/" +:+ dirPrefix dirs +:+ file) with (String "/" (dirPrefix dirs +:+ file)).
    rewrite filepath_Split_app, IH. reflexivity.
Qed.

Lemma Split_dirPrefix (dirs : list string) (last : string) :
  Forall (fun d => noByte "/" d = true) dirs ->
  noByte "/" last = true ->
  GoStrings.Split (dirPrefix dirs +:+ last) "/" = dirs ++ [last].
Proof.
  intros Hdirs Hlast. induction Hdirs as [|d dirs Hd _ IH].
  - apply Split_noByte, Hlast.
  - cbn [dirPrefix].
    rewrite (append_assoc_string d), (append_assoc_string "/").
    change ("/" +:+ dirPrefix dirs +:+ last) with (String "/" (dirPrefix dirs +:+ last)).
    rewrite (Split_app _ _ _ Hd), IH. reflexivity.
Qed.

Lemma append_empty_r (s : string) : s +:+ "" = s.
Proof.
  induction s as [|c s IH]; [reflexivity |].
  change (String c (s +:+ "") = String c s). f_equal. exact IH.
Qed.

Lemma fileName_fold (segments : list string) (acc : string) :
  foldl (fun fullFileName segment =>
           if String.eqb segment "" then fullFileName
           else fullFileName +:+ FirstUpper segment +:+ "/")
        acc segments
  = acc +:+ dirPrefix (map FirstUpper (List.filter nonEmpty segments)).
Proof.
  revert acc. induction segments as [|s segments IH]; intros acc;
    cbn [foldl List.filter map dirPrefix].
  - symmetry. apply append_empty_r.
  - rewrite IH. unfold nonEmpty at 2.
    destruct (String.eqb s ""); cbn [negb map dirPrefix]; [reflexivity |].
    rewrite !append_assoc_string. reflexivity.
Qed.

Lemma filter_nonEmpty_snoc_empty (l : list string) :
  List.filter nonEmpty (l ++ [""]) = List.filter nonEmpty l.
Proof. rewrite List.filter_app. cbn. apply app_nil_r. Qed.

(** X18: for a path [d1/.../dn/base.proto] whose segments hold no slash,
    the response file is named by the capitalised non-empty directories
    and the capitalised base with [.elm]; the module is named by the
    capitalised non-empty segments of the module prefix, then the same
    directories and base, joined by dots; the import of the same path as
    a dependency has the same directories and base after the segments of
    the prefix as they are.  With an empty prefix the import is the module
    name after a dot. *)
Theorem file_module_and_import_names modPrefix dirs base :
  Forall (fun d => noByte "/" d = true) dirs ->
  noByte "/" base = true ->
  let path := dirPrefix dirs +:+ base +:+ ".proto" in
  fileName path
  = dirPrefix (map FirstUpper (List.filter nonEmpty dirs)) +:+ FirstUpper base +:+ ".elm"
  /\ moduleName modPrefix path
     = GoStrings.Join
         (map FirstUpper (List.filter nonEmpty (GoStrings.Split modPrefix ".")
                          ++ List.filter nonEmpty dirs)
          ++ [FirstUpper base]) "."
  /\ importOf modPrefix path
     = GoStrings.Join
         (GoStrings.Split modPrefix "."
          ++ map FirstUpper (List.filter nonEmpty (dirs ++ [base]))) "."
  /\ (nonEmpty base = true -> importOf "" path = "." +:+ moduleName "" path).
Proof.
  intros Hdirs Hbase path.
  assert (Hfile : noByte "/" (base +:+ ".proto") = true)
    by (rewrite noByte_app, Hbase; reflexivity).
  assert (Hsplit : GoStrings.filepath_Split path = (dirPrefix dirs, base +:+ ".proto"))
    by apply (filepath_Split_dirPrefix dirs _ Hfile).
  assert (Hdir : GoStrings.Split (dirPrefix dirs) "/" = dirs ++ [""]).
  { rewrite <- (append_empty_r (dirPrefix dirs)).
    apply (Split_dirPrefix dirs "" Hdirs eq_refl). }
  assert (Hmodule : forall mp,
             moduleName mp path
             = GoStrings.Join
                 (map FirstUpper (List.filter nonEmpty (GoStrings.Split mp ".")
                                  ++ List.filter nonEmpty dirs)
                  ++ [FirstUpper base]) ".").
  { intros mp. unfold moduleName. rewrite Hsplit, TrimSuffix_app, Hdir. do 2 f_equal.
    destruct (String.eqb mp "") eqn:Hmp.
    - apply String.eqb_eq in Hmp. subst mp.
      rewrite appendSegments_eq, filter_nonEmpty_snoc_empty. reflexivity.
    - rewrite appendSegments_eq, !List.filter_app.
      change (List.filter nonEmpty [""]) with (@nil string).
      rewrite app_nil_r. reflexivity. }
  assert (Himport : forall mp,
             importOf mp path
             = GoStrings.Join
                 (GoStrings.Split mp "."
                  ++ map FirstUpper (List.filter nonEmpty (dirs ++ [base]))) ".").
  { intros mp. unfold importOf, path.
    rewrite <- (append_assoc_string (dirPrefix dirs) base ".proto"), TrimSuffix_app.
    rewrite (Split_dirPrefix dirs base Hdirs Hbase), appendSegments_eq. reflexivity. }
  split; [| split; [apply Hmodule | split; [apply Himport |]]].
  - unfold fileName. rewrite Hsplit, TrimSuffix_app, Hdir, fileName_fold.
    rewrite filter_nonEmpty_snoc_empty. reflexivity.
  - intros Hne. rewrite Himport, Hmodule.
    rewrite List.filter_app. cbn [List.filter]. rewrite Hne.
    change (GoStrings.Split "" ".") with [""].
    change (List.filter nonEmpty [""]) with (@nil string). cbn [app].
    rewrite map_app. cbn [map app].
    destruct (map FirstUpper (List.filter nonEmpty dirs)) as [|y l]; reflexivity.
Qed.

(** ** The generated codecs *)

Lemma find_first_of_key {A K} (key : A -> K) (eqb : K -> K -> bool) (l : list A) (x : A) :
  (forall a b, eqb a b = true <-> a = b) ->
  NoDup (map key l) -> x ∈ l ->
  List.find (fun y => eqb (key y) (key x)) l = Some x.
Proof.
  intros Heqb Hnodup Hin. induction l as [|y l IH]; [inversion Hin |].
  cbn [map] in Hnodup. apply NoDup_cons in Hnodup as [Hnotin Hnodup].
  cbn [List.find]. destruct (eqb (key y) (key x)) eqn:Hyx.
  - apply Heqb in Hyx. apply elem_of_cons in Hin as [-> | Hin]; [reflexivity |].
    exfalso. apply Hnotin. rewrite Hyx. apply list_elem_of_fmap_2, Hin.
  - apply elem_of_cons in Hin as [-> | Hin]; [| apply IH; assumption].
    assert (Hrefl : eqb (key y) (key y) = true) by (apply Heqb; reflexivity).
    congruence.
Qed.


Section Codec.
Context {Payload : Type}.
Context (runEncoder : VariableName -> Payload -> JValue).
Context (runDecoder : VariableName -> JValue -> option Payload).

Lemma runOneofEncoder_variant (t : OneOfCustomType) (idx : Z) (w : OneOfVariant) (x : Payload) :
  NoDup (map ov_Name (oct_Variants t)) ->
  w ∈ oct_Variants t ->
  runOneofEncoder runEncoder t idx (VariantValue (ov_Name w) x)
  = Some (if idx =? ov_Num w then runEncoder (ov_Encoder w) x else JNull).
Proof.
  intros Hnodup Hin. unfold runOneofEncoder, oneofEncoderCases.
  cbn [List.find caseMatches].
  assert (Hfind : List.find (caseMatches (VariantValue (ov_Name w) x))
                    (map (fun v => CaseVariant (ov_Name v) (ov_Num v) (ov_Encoder v))
                         (oct_Variants t))
                  = Some (CaseVariant (ov_Name w) (ov_Num w) (ov_Encoder w))).
  { induction (oct_Variants t) as [|u rest IH]; [inversion Hin |].
    cbn [map] in Hnodup. apply NoDup_cons in Hnodup as [Hnotin Hnodup].
    cbn [map List.find caseMatches].
    destruct (String.eqb (ov_Name u) (ov_Name w)) eqn:Huw.
    - apply String.eqb_eq in Huw.
      apply elem_of_cons in Hin as [-> | Hin]; [reflexivity |].
      exfalso. apply Hnotin. rewrite Huw. apply list_elem_of_fmap_2, Hin.
    - apply elem_of_cons in Hin as [-> | Hin]; [| apply IH; assumption].
      rewrite String.eqb_refl in Huw. discriminate. }
  rewrite Hfind. reflexivity.
Qed.

Lemma runOneofEncoder_unspecified (t : OneOfCustomType) (idx : Z) :
  runOneofEncoder runEncoder t idx (Nullary (oct_Name t +:+ "Unspecified")) = Some JNull.
Proof.
  unfold runOneofEncoder, oneofEncoderCases. cbn [List.find caseMatches].
  rewrite String.eqb_refl. reflexivity.
Qed.

Lemma JD_oneOf_app_none alts rest v :
  Forall (fun alt => runAlt runDecoder alt v = None) alts ->
  JD_oneOf runDecoder (alts ++ rest) v = JD_oneOf runDecoder rest v.
Proof.
  induction 1 as [|alt alts Halt _ IH]; [reflexivity |].
  cbn [app JD_oneOf]. rewrite Halt. exact IH.
Qed.

(** X20: the generated oneof codec.  Take a oneof whose decoder the
    template emits as a list of alternatives, which takes a variant, with
    pairwise distinct variant names and numbers, and an array that holds,
    at the index [number - 1] of every variant, what the generated encoder
    gives for that number.  For the unspecified value the decoder gives
    the unspecified value back; for the value of a variant with a positive
    number, whose field decoder inverts its field encoder on the payload
    and whose encoded payload is not [null], the decoder gives the value
    back. *)
Theorem oneof_codec_round_trip (t : OneOfCustomType) (alts : list DecoderAlt)
    (wire : list JValue) (value : @OneofValue Payload) :
  oneofDecoderAlternatives t = Some alts ->
  NoDup (map ov_Name (oct_Variants t)) ->
  NoDup (map ov_Num (oct_Variants t)) ->
  (forall u, u ∈ oct_Variants t ->
     1 <= ov_Num u ->
     wire !! Z.to_nat (ov_Num u - 1) = runOneofEncoder runEncoder t (ov_Num u) value) ->
  (value = Nullary (oct_Name t +:+ "Unspecified")
   \/ exists w x,
        value = VariantValue (ov_Name w) x
        /\ w ∈ oct_Variants t
        /\ 1 <= ov_Num w
        /\ runEncoder (ov_Encoder w) x <> JNull
        /\ runDecoder (ov_Decoder w) (runEncoder (ov_Encoder w) x) = Some x) ->
  JD_oneOf runDecoder alts (JArray wire) = Some value.
Proof.
  intros Halts Hnames Hnums Hwire Hvalue.
  apply oneofDecoderAlternatives_Some in Halts as [_ ->].
  assert (Hfail : forall u j,
             (1 <= ov_Num u -> wire !! Z.to_nat (ov_Num u - 1) = Some j) ->
             j = JNull ->
             runAlt runDecoder (AltVariant (ov_Name u) (toJSIdx (ov_Num u)) (ov_Decoder u))
                    (JArray wire) = None).
  { intros u j Hslot ->. unfold runAlt, JD_index, toJSIdx.
    destruct (ov_Num u - 1 <? 0) eqn:Hneg; [reflexivity |].
    apply Z.ltb_ge in Hneg. rewrite Hslot by lia. reflexivity. }
  destruct Hvalue as [-> | (w & x & -> & Hw & Hpos & Hnotnull & Hcodec)].
  - rewrite JD_oneOf_app_none; [reflexivity |].
    rewrite Forall_forall. intros alt Halt.
    apply list_elem_of_fmap in Halt as (u & -> & Hu).
    apply (Hfail u JNull); [| reflexivity].
    intros Hu1. rewrite (Hwire u Hu Hu1). apply runOneofEncoder_unspecified.
  - assert (Hslot : forall u, u ∈ oct_Variants t -> 1 <= ov_Num u ->
               wire !! Z.to_nat (ov_Num u - 1)
               = Some (if ov_Num u =? ov_Num w
                       then runEncoder (ov_Encoder w) x else JNull)).
    { intros u Hu Hu1. rewrite (Hwire u Hu Hu1).
      apply runOneofEncoder_variant; assumption. }
    apply list_elem_of_split in Hw as (before & after & Hsplit).
    rewrite Hsplit, map_app, <- app_assoc.
    rewrite JD_oneOf_app_none.
    + cbn [map app JD_oneOf].
      assert (Hhere : runAlt runDecoder (variantAlternative w) (JArray wire)
                      = Some (VariantValue (ov_Name w) x)).
      { unfold variantAlternative, runAlt, JD_index, toJSIdx.
        replace (ov_Num w - 1 <? 0) with false by (symmetry; apply Z.ltb_ge; lia).
        rewrite (Hslot w) by (try exact Hpos; rewrite Hsplit; apply elem_of_app; right; left).
        rewrite Z.eqb_refl. cbn [mbind option_bind].
        unfold failOnNull.
        destruct (runEncoder (ov_Encoder w) x) eqn:Henc; try contradiction;
          rewrite Hcodec; reflexivity. }
      rewrite Hhere. reflexivity.
    + rewrite Forall_forall. intros alt Halt.
      apply list_elem_of_fmap in Halt as (u & -> & Hu).
      assert (Hut : u ∈ oct_Variants t) by (rewrite Hsplit; apply elem_of_app; left; exact Hu).
      apply (Hfail u (if ov_Num u =? ov_Num w then runEncoder (ov_Encoder w) x else JNull)).
      * intros Hu1. apply (Hslot u Hut Hu1).
      * destruct (ov_Num u =? ov_Num w) eqn:Heq; [| reflexivity].
        exfalso. apply Z.eqb_eq in Heq.
        rewrite Hsplit, map_app in Hnums. cbn [map] in Hnums.
        apply NoDup_app in Hnums as (_ & Hdisj & _).
        apply (Hdisj (ov_Num u)); [apply list_elem_of_fmap_2, Hu |].
        rewrite Heq. left.
Qed.

End Codec.

(** ** When the walker returns *)

Lemma returns_bind {A B} (f : A -> result B) (m : result A) (b : bool) :
  (forall a, m = Ok a -> returns (f a) = b) ->
  returns (m ≫= f) = returns m && b.
Proof.
  intros Hf. destruct m as [a|e]; cbn [mbind result_bind returns andb]; [| reflexivity].
  apply Hf. reflexivity.
Qed.

Lemma returns_supported_type inField :
  returns (BasicFieldType inField) = supportedKind (field_Type inField).
Proof.
  destruct (supportedKind (field_Type inField)) eqn:Hk.
  - apply BasicFieldType_supported, Hk.
  - rewrite (BasicFieldType_unsupported _ Hk). reflexivity.
Qed.

Lemma returns_supported_encoder inField :
  returns (BasicFieldEncoder inField) = supportedKind (field_Type inField).
Proof.
  destruct (supportedKind (field_Type inField)) eqn:Hk.
  - apply BasicFieldEncoder_supported, Hk.
  - rewrite (BasicFieldEncoder_unsupported _ Hk). reflexivity.
Qed.

Lemma returns_supported_decoder inField :
  returns (BasicFieldDecoder inField) = supportedKind (field_Type inField).
Proof.
  destruct (supportedKind (field_Type inField)) eqn:Hk.
  - apply BasicFieldDecoder_supported, Hk.
  - rewrite (BasicFieldDecoder_unsupported _ Hk). reflexivity.
Qed.

Lemma BasicFieldDefaultValue_cases inField :
  (field_Label inField = LABEL_REPEATED -> BasicFieldDefaultValue inField = Ok "[]")
  /\ returns (BasicFieldDefaultValue inField)
     = (field_Label inField =? LABEL_REPEATED) || supportedKind (field_Type inField).
Proof.
  unfold BasicFieldDefaultValue. split.
  - intros ->. reflexivity.
  - destruct (field_Label inField =? 3); [reflexivity |]. cbn [orb].
    destruct (supportedKind (field_Type inField)) eqn:Hk.
    + unfold supportedKind in Hk. supported_kind Hk; reflexivity.
    + unfold supportedKind in Hk. unsupported_kind Hk.
Qed.

(** X21: [BasicFieldDefaultValue] gives the empty list for every repeated
    field, whatever its kind, and panics exactly on a field that is not
    repeated and whose kind is not supported. *)
Theorem BasicFieldDefaultValue_returns inField :
  (field_Label inField = LABEL_REPEATED -> BasicFieldDefaultValue inField = Ok "[]")
  /\ returns (BasicFieldDefaultValue inField)
     = (field_Label inField =? LABEL_REPEATED) || supportedKind (field_Type inField).
Proof. apply BasicFieldDefaultValue_cases. Qed.

Lemma returns_index {A} (l : list A) (i : Z) :
  returns (index l i) = (0 <=? i) && (i <? Z.of_nat (length l)).
Proof.
  unfold index.
  destruct (Z.ltb_spec i 0); destruct (Z.leb_spec (Z.of_nat (length l)) i);
    destruct (Z.leb_spec 0 i); destruct (Z.ltb_spec i (Z.of_nat (length l)));
    cbn [orb andb returns]; try reflexivity; try lia.
  destruct (l !! Z.to_nat i) eqn:Hl; [reflexivity |].
  apply lookup_ge_None in Hl. lia.
Qed.

Lemma fieldDefault_other field :
  field_Type field <> TYPE_BOOL -> field_Type field <> TYPE_STRING ->
  fieldDefault field
  = if String.eqb (field_DefaultValue field) "" then BasicFieldDefaultValue field
    else Ok (field_DefaultValue field).
Proof.
  intros Hbool Hstring. unfold fieldDefault.
  destruct (field_Type field) as [|q|q]; try reflexivity.
  do 4 (try (destruct q as [q|q|]; try reflexivity)); contradiction.
Qed.

Lemma returns_fieldDefault field :
  supportedKind (field_Type field) = true ->
  isRepeated field = false ->
  returns (fieldDefault field)
  = negb (field_Type field =? TYPE_BOOL) || nonEmpty (field_DefaultValue field).
Proof.
  intros Hk Hrep.
  destruct (decide (field_Type field = TYPE_BOOL)) as [Hbool | Hbool].
  { rewrite Hbool. cbn [Z.eqb Pos.eqb negb orb].
    destruct (field_DefaultValue field) as [|c rest] eqn:Hd.
    - rewrite (fieldDefault_bool_missing _ Hbool Hd). reflexivity.
    - rewrite (fieldDefault_bool_explicit _ _ _ Hbool Hd). reflexivity. }
  apply Z.eqb_neq in Hbool as Hb. rewrite Hb. cbn [negb orb].
  destruct (decide (field_Type field = TYPE_STRING)) as [Hstring | Hstring].
  { rewrite (fieldDefault_string _ Hstring). reflexivity. }
  rewrite (fieldDefault_other _ Hbool Hstring).
  destruct (String.eqb (field_DefaultValue field) ""); [| reflexivity].
  destruct (BasicFieldDefaultValue_cases field) as [_ ->].
  rewrite Hk. apply orb_true_r.
Qed.

Lemma returns_fieldEntryOf nestedPreface messagePb fieldPb :
  returns (fieldEntryOf nestedPreface messagePb fieldPb) = classifiable messagePb fieldPb.
Proof.
  unfold fieldEntryOf, classifiable.
  destruct (field_OneofIndex fieldPb) as [oneofIndex|].
  { rewrite <- returns_index. destruct (index _ _); reflexivity. }
  destruct (getNestedType fieldPb messagePb) as [nested|].
  { unfold MapType, MapEncoder, MapDecoder.
    destruct (msg_Field nested) as [|keyField [|valueField rest]]; try reflexivity.
    rewrite index_0_cons.
    replace (index (keyField :: valueField :: rest) 1) with (Ok valueField)
      by (symmetry; apply index_Ok; split; [lia | reflexivity]).
    cbn [mbind result_bind].
    rewrite <- (returns_supported_type keyField), <- (returns_supported_type valueField).
    pose proof (returns_supported_encoder valueField) as He.
    pose proof (returns_supported_decoder valueField) as Hd.
    rewrite <- (returns_supported_type valueField) in He, Hd.
    destruct (BasicFieldType keyField); [| reflexivity].
    destruct (BasicFieldType valueField); cbn [mbind result_bind returns andb] in *;
      [| reflexivity].
    destruct (BasicFieldEncoder valueField); [| discriminate].
    destruct (BasicFieldDecoder valueField); [| discriminate].
    reflexivity. }
  pose proof (returns_supported_type fieldPb) as Ht.
  pose proof (returns_supported_encoder fieldPb) as He.
  pose proof (returns_supported_decoder fieldPb) as Hd.
  destruct (isOptional fieldPb) eqn:Hopt.
  { unfold isOptional in Hopt. apply andb_true_iff in Hopt as [Hlabel Htype].
    apply Z.eqb_eq in Hlabel, Htype.
    assert (Hk : supportedKind (field_Type fieldPb) = true) by (rewrite Htype; reflexivity).
    rewrite Hk in Ht, He, Hd.
    assert (Hdef : returns (fieldDefault fieldPb) = true).
    { rewrite returns_fieldDefault; [rewrite Htype; reflexivity | exact Hk |].
      unfold isRepeated. rewrite Hlabel. reflexivity. }
    unfold MaybeEncoder, MaybeDecoder.
    destruct (BasicFieldType fieldPb); [| discriminate].
    destruct (fieldDefault fieldPb); [| discriminate].
    destruct (BasicFieldEncoder fieldPb); [| discriminate].
    destruct (BasicFieldDecoder fieldPb); [| discriminate].
    reflexivity. }
  destruct (isRepeated fieldPb) eqn:Hrep.
  { unfold ListEncoder, ListDecoder.
    destruct (supportedKind (field_Type fieldPb)).
    - destruct (BasicFieldType fieldPb); [| discriminate].
      destruct (BasicFieldEncoder fieldPb); [| discriminate].
      destruct (BasicFieldDecoder fieldPb); [| discriminate].
      reflexivity.
    - destruct (BasicFieldType fieldPb); [discriminate | reflexivity]. }
  destruct (supportedKind (field_Type fieldPb)) eqn:Hk.
  - pose proof (returns_fieldDefault fieldPb Hk Hrep) as Hdef.
    destruct (BasicFieldDefaultValue_cases fieldPb) as [_ Hzero].
    rewrite Hk, orb_true_r in Hzero.
    unfold RequiredFieldEncoder, RequiredFieldDecoder.
    destruct (BasicFieldType fieldPb); [| discriminate].
    cbn [mbind result_bind andb]. rewrite <- Hdef.
    destruct (fieldDefault fieldPb); [| reflexivity].
    destruct (BasicFieldEncoder fieldPb); [| discriminate].
    destruct (BasicFieldDecoder fieldPb); [| discriminate].
    destruct (BasicFieldDefaultValue fieldPb); [| discriminate].
    reflexivity.
  - destruct (BasicFieldType fieldPb); [discriminate | reflexivity].
Qed.

Lemma returns_foldM {A B} (f : B -> A -> result B) (g : A -> bool) (l : list A) :
  (forall acc x, returns (f acc x) = g x) ->
  forall acc, returns (foldM f acc l) = forallb g l.
Proof.
  intros Hf. induction l as [|x l IH]; intros acc; [reflexivity |].
  cbn [foldM forallb]. rewrite <- (Hf acc x).
  destruct (f acc x) as [acc'|e]; [apply IH | reflexivity].
Qed.

(** X22: the walker builds the type alias of a message exactly when every
    kept field can be classified: a oneof member whose index names a
    declaration of the message, a map field whose entry has two fields of
    supported kinds, an optional message field, a repeated field of a
    supported kind, or a plain field of a supported kind that, if it is a
    bool, has a schema default.  Every other kept field makes it panic. *)
Theorem messageAlias_returns_iff_classifiable preface messagePb p :
  returns (messageAlias preface messagePb p)
  = forallb (classifiable messagePb) (keptFields messagePb p).
Proof.
  unfold messageAlias, keptFields.
  match goal with
  | |- returns (foldM ?f ?a ?l ≫= ?k) = _ =>
      transitivity (returns (foldM f a l));
        [destruct (foldM f a l); reflexivity |]
  end.
  rewrite (returns_foldM _ (fun fieldPb => negb (keptField p fieldPb)
                                           || classifiable messagePb fieldPb)).
  - induction (msg_Field messagePb) as [|fieldPb rest IH]; [reflexivity |].
    cbn [forallb List.filter]. rewrite IH.
    destruct (keptField p fieldPb); reflexivity.
  - intros acc fieldPb. unfold addField, keptField.
    destruct (isDeprecated (OfFieldOptions (field_Options fieldPb)) && RemoveDeprecated p);
      [reflexivity |].
    cbn [negb orb].
    rewrite <- (returns_fieldEntryOf (nestedPrefaceOf preface messagePb)).
    destruct (fieldEntryOf _ _ _) as [[f|f]|e]; reflexivity.
Qed.

(** ** The custom type of a oneof *)

Lemma oneOfVariants_members preface messagePb p oneofIndex variants :
  oneOfVariants preface messagePb p oneofIndex = Ok variants ->
  Forall2 (fun fieldPb v =>
             ov_Name v = NestedVariantName (field_Name fieldPb) preface
             /\ ov_Num v = field_Number fieldPb
             /\ BasicFieldType fieldPb = Ok (ov_Type v)
             /\ BasicFieldDecoder fieldPb = Ok (ov_Decoder v)
             /\ BasicFieldEncoder fieldPb = Ok (ov_Encoder v))
          (List.filter (memberOf oneofIndex) (keptFields messagePb p)) variants.
Proof.
  unfold oneOfVariants, keptFields.
  set (R := fun fieldPb v =>
              ov_Name v = NestedVariantName (field_Name fieldPb) preface
              /\ ov_Num v = field_Number fieldPb
              /\ BasicFieldType fieldPb = Ok (ov_Type v)
              /\ BasicFieldDecoder fieldPb = Ok (ov_Decoder v)
              /\ BasicFieldEncoder fieldPb = Ok (ov_Encoder v)).
  assert (Hgen : forall fields acc acc',
             foldM (fun variants inField =>
                      if isDeprecated (OfFieldOptions (field_Options inField))
                         && RemoveDeprecated p
                      then Ok variants
                      else if match field_OneofIndex inField with
                              | None => true
                              | Some i => negb (i =? oneofIndex)
                              end
                      then Ok variants
                      else
                        t ← BasicFieldType inField;
                        dec ← BasicFieldDecoder inField;
                        enc ← BasicFieldEncoder inField;
                        Ok (variants ++ [ {| ov_Name := NestedVariantName (field_Name inField) preface;
                                             ov_Type := t;
                                             ov_Num := field_Number inField;
                                             ov_Decoder := dec;
                                             ov_Encoder := enc |} ]))
                   acc fields = Ok acc' ->
             exists added,
               acc' = acc ++ added
               /\ Forall2 R (List.filter (memberOf oneofIndex) (List.filter (keptField p) fields))
                          added).
  { induction fields as [|inField rest IH]; intros acc acc' Hfold.
    - simpl in Hfold. injection Hfold as <-. exists []. rewrite app_nil_r.
      split; [reflexivity | constructor].
    - cbn [foldM] in Hfold. apply bind_eq_Ok in Hfold as (acc1 & Hstep & Hrest).
      apply IH in Hrest as (added & -> & Hadded). clear IH.
      cbn [List.filter]. unfold keptField at 1.
      destruct (isDeprecated (OfFieldOptions (field_Options inField)) && RemoveDeprecated p).
      { injection Hstep as <-. exists added. split; [reflexivity | exact Hadded]. }
      cbn [negb List.filter]. unfold memberOf at 1.
      destruct (field_OneofIndex inField) as [i|].
      + destruct (i =? oneofIndex); cbn [negb] in Hstep.
        * apply bind_eq_Ok in Hstep as (t & Ht & Hstep).
          apply bind_eq_Ok in Hstep as (dec & Hdec & Hstep).
          apply bind_eq_Ok in Hstep as (enc & Henc & [= <-]).
          eexists (_ :: added). rewrite <- app_assoc. split; [reflexivity |].
          constructor; [| exact Hadded]. unfold R. cbn. repeat split; assumption.
        * injection Hstep as <-. exists added. split; [reflexivity | exact Hadded].
      + injection Hstep as <-. exists added. split; [reflexivity | exact Hadded]. }
  intros Hv. apply Hgen in Hv as (added & -> & Hadded). exact Hadded.
Qed.

Lemma oneOfsFrom_members preface messagePb p decls :
  forall oneofIndex ts,
    oneOfsFrom preface messagePb p oneofIndex decls = Ok ts ->
    length ts = length decls
    /\ forall j t, ts !! j = Some t ->
         Forall2 (fun fieldPb v =>
                    ov_Name v = NestedVariantName (field_Name fieldPb) preface
                    /\ ov_Num v = field_Number fieldPb
                    /\ BasicFieldType fieldPb = Ok (ov_Type v)
                    /\ BasicFieldDecoder fieldPb = Ok (ov_Decoder v)
                    /\ BasicFieldEncoder fieldPb = Ok (ov_Encoder v))
                 (List.filter (memberOf (oneofIndex + Z.of_nat j)) (keptFields messagePb p))
                 (oct_Variants t).
Proof.
  induction decls as [|oneOfPb rest IH]; intros oneofIndex ts Hts.
  - simpl in Hts. injection Hts as <-. split; [reflexivity |].
    intros j t Hj. rewrite lookup_nil in Hj. discriminate.
  - cbn [oneOfsFrom] in Hts.
    apply bind_eq_Ok in Hts as (variants & Hvariants & Hts).
    apply bind_eq_Ok in Hts as (ts' & Hts' & [= <-]).
    apply IH in Hts' as [Hlen Hmembers]. split.
    + cbn [length]. rewrite Hlen. reflexivity.
    + intros [|j] t Hj.
      * injection Hj as <-. cbn [oct_Variants].
        rewrite Z.add_0_r. apply oneOfVariants_members, Hvariants.
      * cbn in Hj. specialize (Hmembers j t Hj).
        replace (oneofIndex + Z.of_nat (S j)) with (oneofIndex + 1 + Z.of_nat j) by lia.
        exact Hmembers.
Qed.

(** X23: [oneOfsToCustomTypes] gives, for a kept message, one custom type
    for every oneof declaration, in order; the variants of the type at
    position [j] are made of the kept fields whose oneof index is [j], in
    the order of declaration: the name is [NestedVariantName] of the field
    name, the number is the wire number, and type, decoder and encoder are
    the classification of the field.  For a deprecated message under
    [remove-deprecated] it gives no custom type. *)
Theorem oneof_variants_are_the_kept_members preface messagePb p :
  (keptMessage p messagePb = false -> oneOfsToCustomTypes preface messagePb p = Ok [])
  /\ forall ts,
       keptMessage p messagePb = true ->
       oneOfsToCustomTypes preface messagePb p = Ok ts ->
       length ts = length (msg_OneofDecl messagePb)
       /\ forall j t, ts !! j = Some t ->
            Forall2 (fun fieldPb v =>
                       ov_Name v = NestedVariantName (field_Name fieldPb) preface
                       /\ ov_Num v = field_Number fieldPb
                       /\ BasicFieldType fieldPb = Ok (ov_Type v)
                       /\ BasicFieldDecoder fieldPb = Ok (ov_Decoder v)
                       /\ BasicFieldEncoder fieldPb = Ok (ov_Encoder v))
                    (List.filter (memberOf (Z.of_nat j)) (keptFields messagePb p))
                    (oct_Variants t).
Proof.
  unfold oneOfsToCustomTypes, keptMessage. split.
  - intros Hk. apply negb_false_iff in Hk. rewrite Hk. reflexivity.
  - intros ts Hk Hts. apply negb_true_iff in Hk. rewrite Hk in Hts.
    apply oneOfsFrom_members in Hts as [Hlen Hmembers].
    split; [exact Hlen |]. intros j t Hj. apply (Hmembers j t Hj).
Qed.

(** *** What [parseParameters] returns *)

Lemma parseParameter_step result err v excludedFiles result' err' excludedFiles' :
  parseParameter (result, err) v excludedFiles = Ok ((result', err'), excludedFiles') ->
  RemoveDeprecated result' = RemoveDeprecated result || namedParameter "remove-deprecated" v
  /\ Debug result' = Debug result || namedParameter "debug" v
  /\ Version result' = Version result
  /\ modPrefix result'
     = (if namedParameter "module-prefix" v then parameterValue v else modPrefix result)
  /\ err' = (if knownParameter v then err else Some (unknownParameterError v)).
Proof.
  unfold parseParameter, knownParameter, namedParameter, unknownParameterError, parameterValue,
    parameterName.
  destruct (String.eqb (List.hd "" (GoStrings.Split v "=")) "remove-deprecated") eqn:Hrd.
  { apply String.eqb_eq in Hrd. rewrite Hrd. intros [= <- <- _]. cbn.
    rewrite orb_true_r, orb_false_r. repeat split. }
  destruct (String.eqb (List.hd "" (GoStrings.Split v "=")) "debug") eqn:Hdebug.
  { apply String.eqb_eq in Hdebug. rewrite Hdebug. intros [= <- <- _]. cbn.
    rewrite orb_true_r, orb_false_r. repeat split. }
  destruct (String.eqb (List.hd "" (GoStrings.Split v "=")) "module-prefix") eqn:Hprefix.
  { unfold mbind, Gen_bind, liftResult.
    destruct (GoStrings.Split v "=") as [|name [|v0 more]]; cbn [List.tl List.hd List.nth];
      [discriminate | discriminate |].
    rewrite index_0_cons. intros [= <- <- _]. cbn.
    rewrite !orb_false_r. repeat split. }
  destruct (String.eqb (List.hd "" (GoStrings.Split v "=")) "exclude") eqn:Hexclude.
  { unfold mbind, Gen_bind, liftResult, exclude.
    destruct (index (List.tl (GoStrings.Split v "=")) 0) as [v0|]; [| discriminate].
    intros [= <- <- _]. cbn. rewrite !orb_false_r. repeat split. }
  intros [= <- <- _]. cbn. rewrite !orb_false_r. repeat split.
Qed.

Lemma parseLoop_result vs :
  forall result err excludedFiles result' err' excludedFiles',
    parseLoop (result, err) vs excludedFiles = Ok ((result', err'), excludedFiles') ->
    RemoveDeprecated result'
    = RemoveDeprecated result || existsb (namedParameter "remove-deprecated") vs
    /\ Debug result' = Debug result || existsb (namedParameter "debug") vs
    /\ Version result' = Version result
    /\ modPrefix result'
       = from_option parameterValue (modPrefix result)
                     (last (List.filter (namedParameter "module-prefix") vs))
    /\ err' = from_option (fun v => Some (unknownParameterError v)) err
                          (last (List.filter (fun v => negb (knownParameter v)) vs)).
Proof.
  induction vs as [|v rest IH]; intros result err s result' err' s' Hloop.
  - injection Hloop as <- <- _. cbn. rewrite !orb_false_r. repeat split.
  - rewrite parseLoop_cons in Hloop.
    destruct (parseParameter (result, err) v s) as [[[result1 err1] s1]|e] eqn:Hstep;
      [| discriminate].
    apply parseParameter_step in Hstep as (Hrd1 & Hdebug1 & Hversion1 & Hprefix1 & Herr1).
    apply IH in Hloop as (Hrd & Hdebug & Hversion & Hprefix & Herr). clear IH.
    cbn [existsb List.filter].
    rewrite Hrd, Hdebug, Hversion, Hprefix, Herr, Hrd1, Hdebug1, Hversion1, Hprefix1, Herr1.
    rewrite <- !orb_assoc. split; [reflexivity |]. split; [reflexivity |].
    split; [reflexivity |]. split.
    + destruct (namedParameter "module-prefix" v); [| reflexivity].
      rewrite last_cons.
      destruct (last (List.filter (namedParameter "module-prefix") rest)); reflexivity.
    + destruct (knownParameter v); cbn [negb]; [reflexivity |].
      rewrite last_cons.
      destruct (last (List.filter (fun v => negb (knownParameter v)) rest)); reflexivity.
Qed.

(** X24: what [parseParameters] makes of a parameter string it gets
    through without a panic.  [RemoveDeprecated] and [Debug] are set when
    some element has that name, whatever follows its [=]; [Version] is
    never set; the module prefix is the value of the last [module-prefix]
    element, and empty without one; the error names the last element
    with an unknown name, the earlier ones being overwritten. *)
Theorem parseParameters_later_elements_win input excludedFiles p err excludedFiles' :
  parseParameters (Some input) excludedFiles = Ok ((p, err), excludedFiles') ->
  RemoveDeprecated p
  = existsb (namedParameter "remove-deprecated") (GoStrings.Split input ",")
  /\ Debug p = existsb (namedParameter "debug") (GoStrings.Split input ",")
  /\ Version p = false
  /\ modPrefix p
     = from_option parameterValue ""
                   (last (List.filter (namedParameter "module-prefix")
                                      (GoStrings.Split input ",")))
  /\ err = unknownParameterError
             <$> last (List.filter (fun v => negb (knownParameter v))
                                   (GoStrings.Split input ",")).
Proof.
  unfold parseParameters. intros Hloop.
  apply parseLoop_result in Hloop as (Hrd & Hdebug & Hversion & Hprefix & Herr).
  cbn [RemoveDeprecated Debug Version modPrefix orb] in *.
  repeat (split; [assumption |]).
  rewrite Herr. destruct (last _); reflexivity.
Qed.

End Properties.

(** ** The statements on the sample schemas

    The package [stringextras] is instantiated by its model from the
    specification; the samples are ASCII. *)

Lemma encode_plan_alignment_witness :
  exists alias,
    @messageAlias specStringExtras asciiTables [] sparseMessage noParameters = Ok alias
    /\ map isPlaceholder (encodePlan alias) = [false; true; false; true; false]
    /\ Z.of_nat (length (encodePlan alias)) = 5.
Proof.
  eexists. split; [reflexivity |].
  assert (Hnodup : NoDup (map field_Number (keptFields sparseMessage noParameters)))
    by (vm_compute; repeat constructor; set_solver).
  assert (Hpos : Forall (fun n => 1 <= n)
                        (map field_Number (keptFields sparseMessage noParameters)))
    by (vm_compute; repeat constructor; discriminate).
  destruct (@encode_plan_alignment specStringExtras asciiTables [] sparseMessage noParameters
              _ eq_refl Hnodup Hpos) as (_ & Hlen & _ & _ & _ & H135 & _).
  split; [| exact Hlen].
  apply H135. vm_compute.
  apply (Permutation_cons_app [1; 3] [] 5). reflexivity.
Defined.

Example single_late_field_plan :
  encodePlan <$> @messageAlias specStringExtras asciiTables [] lateMessage noParameters
  = Ok [JE_null; JE_null; JE_null; EncoderCall "JE.int v.only"].
Proof. reflexivity. Qed.

(** C2: for [message A { message B { message C {} } }] the model names the
    three types [A], [A_B] and [B_A_C]: [messages] puts the name of each
    message in front of the preface it passes down, so the ancestors of a
    type nested three deep come innermost first, while [ExternalType]
    resolves a reference to the same type, [.A.B.C], to [A_B_C]. *)
Theorem nested_type_name_lists_parent_first :
  flat_map typeNames <$> @messages specStringExtras asciiTables [] [nestedABC] noParameters
  = Ok ["A"; "A_B"; "B_A_C"]
  /\ @ExternalType specStringExtras asciiTables ".A.B.C" = "A_B_C"
  /\ @NestedType specStringExtras "C" ["A"; "B"] = "A_B_C".
Proof. repeat split; reflexivity. Qed.

Lemma oneof_with_two_variants_has_two_slots :
  exists alias,
    @messageAlias specStringExtras asciiTables [] shapeMessage noParameters = Ok alias
    /\ length (msg_OneofDecl shapeMessage) = 1%nat
    /\ map taf_Name (ta_FieldEncoders alias) = ["kind"; "kind"]
    /\ map taf_Number (ta_FieldEncoders alias) = [1; 2]
    /\ map taf_Encoder (ta_FieldEncoders alias)
       = ["shape_KindPortEncoder 1 v.kind"; "shape_KindPortEncoder 2 v.kind"]
    /\ length (ta_FieldEncoders alias) <> length (msg_OneofDecl shapeMessage).
Proof. eexists. repeat split; try reflexivity. discriminate. Qed.

Lemma oneof_has_a_slot_per_variant_witness :
  exists alias,
    @messageAlias specStringExtras asciiTables [] shapeMessage noParameters = Ok alias
    /\ length (ta_FieldEncoders alias) = length (keptFields shapeMessage noParameters).
Proof.
  eexists. split; [reflexivity |].
  apply (@oneof_has_a_slot_per_variant specStringExtras asciiTables [] shapeMessage
           noParameters _ eq_refl).
Defined.

Lemma oneof_field_defaults_to_unspecified_witness :
  exists alias alts,
    @messageAlias specStringExtras asciiTables [] shapeMessage noParameters = Ok alias
    /\ Forall (fun oneOfPb =>
                 taf_Type (@oneofField specStringExtras ["Shape"] oneOfPb)
                   = @NestedType specStringExtras (oneof_Name oneOfPb) ["Shape"]
                 /\ taf_Default (@oneofField specStringExtras ["Shape"] oneOfPb)
                   = @NestedType specStringExtras (oneof_Name oneOfPb) ["Shape"]
                     +:+ "Unspecified")
              (msg_OneofDecl shapeMessage)
    /\ oneofDecoderAlternatives shapeKind = Some alts
    /\ JD_oneOf sampleDecoder alts (JArray [JNull])
       = Some (Nullary "Shape_KindUnspecified").
Proof.
  destruct (@oneof_field_defaults_to_unspecified specStringExtras asciiTables [] shapeMessage
              noParameters _ eq_refl) as (_ & Hfield & _ & Hdecoder).
  destruct (Hdecoder shapeKind) as [_ Halts].
  destruct (Halts _ JValue sampleDecoder (JArray [JNull]) eq_refl) as (_ & _ & Habsent).
  eexists. eexists. split; [reflexivity |]. split; [exact Hfield |].
  split; [reflexivity |]. apply Habsent. reflexivity.
Defined.

(** C4: for [message Shape { oneof kind { int32 side = 1 [deprecated =
    true]; string label = 2 [deprecated = true]; } }] under
    [remove-deprecated] the walker returns: the message keeps its field
    [kind] of type [Shape_Kind] with the default [Shape_KindUnspecified]
    and the decoder [custom shape_KindPortDecoder], and the custom type
    [Shape_Kind] is generated without a variant.  The template then emits
    the comma and [JD.succeed Shape_KindUnspecified] as the only element
    between the brackets of [JD.oneOf]: a comma comes first, the text is
    no list, and the decoder that is to yield the unspecified variant is
    not there.  Without the filter the same oneof gets the list of its two
    variants that ends in [JD.succeed Shape_KindUnspecified]. *)
Theorem oneof_without_kept_member_has_no_decoder_list :
  (exists alias t,
     map pb_TypeAlias
       <$> @messages specStringExtras asciiTables [] [emptiedShape] removeDeprecated
     = Ok [alias]
     /\ map (fun f => (taf_Name f, taf_Type f, taf_Default f, taf_Decoder f)) (ta_Fields alias)
        = [("kind", "Shape_Kind", "Shape_KindUnspecified", "custom shape_KindPortDecoder")]
     /\ flat_map pb_OneOfCustomTypes
          <$> @messages specStringExtras asciiTables [] [emptiedShape] removeDeprecated
        = Ok [t]
     /\ oct_Name t = "Shape_Kind"
     /\ oct_Variants t = []
     /\ map altItemText (oneofDecoderItems t) = [", JD.succeed Shape_KindUnspecified"]
     /\ wellSeparated (map alt_comma (oneofDecoderItems t)) = false
     /\ oneofDecoderAlternatives t = None)
  /\ (fun ms => map (fun t => map altItemText (oneofDecoderItems t))
                    (flat_map pb_OneOfCustomTypes ms))
       <$> @messages specStringExtras asciiTables [] [emptiedShape] noParameters
     = Ok [[" JD.map Shape_Side (JD.index 0 (failOnNull intDecoder))";
            ", JD.map Shape_Label (JD.index 1 (failOnNull JD.string))";
            ", JD.succeed Shape_KindUnspecified"]].
Proof.
  split; [| reflexivity].
  eexists. eexists. repeat split; reflexivity.
Qed.

Example shape_fields :
  map (fun f => (taf_Name f, taf_Type f, taf_Default f, taf_Decoder f)) <$>
    (ta_Fields <$> @messageAlias specStringExtras asciiTables [] shapeMessage noParameters)
  = Ok [("kind", "Shape_Kind", "Shape_KindUnspecified", "custom shape_KindPortDecoder")].
Proof. reflexivity. Qed.

Example shape_decoder_alternatives :
  map oneofDecoderAlternatives
    <$> @oneOfsToCustomTypes specStringExtras asciiTables ["Shape"] shapeMessage noParameters
  = Ok [Some [AltVariant "Shape_Side" 0 "intDecoder";
              AltVariant "Shape_Label" 1 "JD.string";
              AltSucceed "Shape_KindUnspecified"]].
Proof. reflexivity. Qed.

Lemma enum_default_skips_deprecated_first_variant :
  exists t,
    @enumsToCustomTypes specStringExtras asciiTables [] [colorEnum] removeDeprecated = Ok [t]
    /\ List.hd_error (enum_Value colorEnum)
       = Some {| value_Name := "RED"; value_Number := 0; value_Options := deprecatedValue |}
    /\ @NestedVariantName specStringExtras asciiTables "RED" [] = "Red"
    /\ ect_DefaultVariantValue t = "Green"
    /\ ect_DefaultVariantValue t <> @NestedVariantName specStringExtras asciiTables "RED" [].
Proof. eexists. repeat split; try reflexivity. discriminate. Qed.

Lemma enum_default_is_first_kept_variant_witness :
  Forall2 (fun enumPb t =>
             exists value rest,
               List.filter (keptValue noParameters) (enum_Value enumPb) = value :: rest
               /\ ect_DefaultVariantValue t
                  = @NestedVariantName specStringExtras asciiTables (value_Name value) []
               /\ (forall first others,
                     enum_Value enumPb = first :: others ->
                     keptValue noParameters first = true -> value = first))
          (List.filter (keptEnum noParameters) [colorEnum])
          [ {| ect_Name := "Color"; ect_Decoder := "colorPortDecoder";
               ect_Encoder := "colorPortEncoder";
               ect_DefaultVariantVariable := "colorDefault";
               ect_DefaultVariantValue := "Red";
               ect_Variants := [ {| ev_Name := "Red"; ev_Value := 0 |};
                                 {| ev_Name := "Green"; ev_Value := 1 |} ] |} ].
Proof.
  apply (@enum_default_is_first_kept_variant specStringExtras asciiTables [] [colorEnum]
           noParameters).
  reflexivity.
Defined.

Lemma deprecated_empty_enum_is_skipped :
  enum_Value emptyDeprecatedEnum = []
  /\ @enumsToCustomTypes specStringExtras asciiTables [] [emptyDeprecatedEnum] removeDeprecated
     = Ok [].
Proof. split; reflexivity. Qed.

Lemma enum_without_kept_variant_panics_witness :
  @enumsToCustomTypes specStringExtras asciiTables [] [colorEnum; goneEnum] removeDeprecated
  = Panic (IndexOutOfRange 0 0).
Proof.
  apply (@enum_without_kept_variant_panics specStringExtras asciiTables [] [colorEnum; goneEnum]
           removeDeprecated goneEnum).
  - right. left.
  - reflexivity.
  - right. split; [reflexivity |]. repeat constructor.
Defined.

Lemma classification_panics_iff_unsupported_witness :
  (supportedKind TYPE_GROUP = false
   /\ @BasicFieldType specStringExtras asciiTables (plainField "old" 1 TYPE_GROUP)
      = Panic (ErrorGenerating "Error generating type for field" TYPE_GROUP)
   /\ panics (@messages specStringExtras asciiTables [] [sparseMessage; groupMessage] noParameters)
      = true)
  /\ (supportedKind TYPE_INT32 = true
      /\ returns (@BasicFieldType specStringExtras asciiTables (plainField "a" 1 TYPE_INT32)) = true).
Proof.
  split.
  - split; [reflexivity |].
    destruct (proj1 (@classification_panics_iff_unsupported specStringExtras asciiTables
                       (plainField "old" 1 TYPE_GROUP)) eq_refl)
      as (Htype & _ & _ & Hmessages).
    split; [exact Htype |].
    apply (Hmessages [] [sparseMessage; groupMessage] groupMessage noParameters).
    + right. left.
    + reflexivity.
    + left.
    + reflexivity.
    + reflexivity.
    + reflexivity.
  - split; [reflexivity |].
    apply (proj2 (@classification_panics_iff_unsupported specStringExtras asciiTables
                    (plainField "a" 1 TYPE_INT32)) eq_refl).
Defined.

Lemma int32_decoder_is_not_direct :
  field_Type (plainField "n" 1 TYPE_INT32) ∈ kinds32
  /\ @BasicFieldDecoder specStringExtras asciiTables (plainField "n" 1 TYPE_INT32)
     = Ok "intDecoder"
  /\ isDirectCodec "intDecoder" = false
  /\ isDirectCodec "JD.float" = true
  /\ @BasicFieldDecoder specStringExtras asciiTables (plainField "n" 1 TYPE_INT32)
     = @BasicFieldDecoder specStringExtras asciiTables (plainField "n" 1 TYPE_INT64).
Proof. repeat split; try reflexivity. left. Qed.

Lemma integer_kinds_codecs_witness :
  (TYPE_SINT64 ∈ kinds64
   /\ @BasicFieldEncoder specStringExtras asciiTables (plainField "n" 1 TYPE_SINT64)
      = Ok "numericStringEncoder")
  /\ (TYPE_FIXED32 ∈ kinds32
      /\ @BasicFieldEncoder specStringExtras asciiTables (plainField "n" 1 TYPE_FIXED32)
         = Ok "JE.int").
Proof.
  assert (H64 : TYPE_SINT64 ∈ kinds64) by (do 2 right; left).
  assert (H32 : TYPE_FIXED32 ∈ kinds32) by (do 3 right; left).
  split; (split; [assumption |]).
  - apply (proj1 (@integer_kinds_codecs specStringExtras asciiTables
                    (plainField "n" 1 TYPE_SINT64)) H64).
  - apply (proj2 (@integer_kinds_codecs specStringExtras asciiTables
                    (plainField "n" 1 TYPE_FIXED32)) H32).
Defined.

Lemma model_construction_is_deterministic_witness :
  exists outs,
    @generateFiles specStringExtras asciiTables
      ([timestampFile; shapesFile] ++ sparseFile :: [shapesFile])
      noParameters initialExcludedFiles
    = Ok (outs, initialExcludedFiles)
    /\ exists o1 o o2,
         outs = o1 ++ o ++ o2
         /\ @generateFiles specStringExtras asciiTables [sparseFile] noParameters
              initialExcludedFiles
            = Ok (o, initialExcludedFiles)
         /\ @generateFiles specStringExtras asciiTables
              ([shapesFile] ++ sparseFile :: [timestampFile; shapesFile])
              noParameters initialExcludedFiles
            = Ok (o2 ++ o ++ o1, initialExcludedFiles).
Proof.
  eexists. split; [vm_compute; reflexivity |].
  destruct (@model_construction_is_deterministic specStringExtras asciiTables noParameters
              initialExcludedFiles [timestampFile; shapesFile] sparseFile [shapesFile]
              _ _ ltac:(vm_compute; reflexivity))
    as (_ & o1 & o & o2 & Houts & Hfile & _ & _ & Hswap & _).
  exists o1, o, o2. repeat split; assumption.
Defined.

Example parseParameters_excludes :
  (fun r => (RemoveDeprecated (fst (fst r)), snd (fst r), snd r !! "legacy.proto"))
    <$> parseParameters (Some "remove-deprecated,exclude=legacy.proto") initialExcludedFiles
  = Ok (true, None, Some true).
Proof. vm_compute. reflexivity. Qed.

(** ** The further properties on the sample schemas *)

Lemma messages_models_kept_in_order_witness :
  exists ms,
    @messages specStringExtras asciiTables [] [oldMessage; nestedABC; lateMessage]
      removeDeprecated = Ok ms
    /\ map (fun pm => ta_Name (pb_TypeAlias pm)) ms = ["A"; "Late"].
Proof.
  eexists. split; [reflexivity |].
  apply (@messages_models_kept_in_order specStringExtras asciiTables []
           [oldMessage; nestedABC; lateMessage] removeDeprecated _ eq_refl).
Defined.

Lemma every_model_is_of_a_kept_descriptor_witness :
  exists ms pm,
    @messages specStringExtras asciiTables [] [oldMessage; nestedABC] removeDeprecated = Ok ms
    /\ pm ∈ flat_map allModels ms
    /\ ta_Name (pb_TypeAlias pm) = "B_A_C"
    /\ exists preface' messagePb,
         messagePb ∈ flat_map allMessages [oldMessage; nestedABC]
         /\ keptMessage removeDeprecated messagePb = true
         /\ @messageAlias specStringExtras asciiTables preface' messagePb removeDeprecated
            = Ok (pb_TypeAlias pm).
Proof.
  eexists. eexists. split; [reflexivity |].
  assert (Hpm : forall a b c : pbMessage, c ∈ [a; b; c]) by (intros; set_solver).
  split; [apply Hpm |]. split; [reflexivity |].
  destruct (@every_model_is_of_a_kept_descriptor specStringExtras asciiTables removeDeprecated
              [oldMessage; nestedABC] [] _ _ eq_refl (Hpm _ _ _))
    as (preface' & messagePb & Hin & Hkept & Halias & _).
  exists preface', messagePb. repeat split; assumption.
Defined.

Lemma fields_follow_declaration_order_witness :
  exists alias,
    @messageAlias specStringExtras asciiTables [] sparseMessage noParameters = Ok alias
    /\ map taf_Name (ta_Fields alias) = ["e"; "a"; "c"]
    /\ map taf_Number (ta_Fields alias) = [5; 1; 3].
Proof.
  eexists. split; [reflexivity |].
  apply (@fields_follow_declaration_order specStringExtras asciiTables [] sparseMessage
           noParameters _ eq_refl).
Defined.

Lemma plan_keeps_every_encoder_witness :
  exists alias plan,
    @messageAlias specStringExtras asciiTables [] sparseMessage noParameters = Ok alias
    /\ encoderList alias = Some plan
    /\ map taf_Number (ta_FieldEncoders alias) = [1; 3; 5]
    /\ List.filter (fun e => negb (isPlaceholder e)) plan
       = map (fun v => EncoderCall (taf_Encoder v)) (ta_FieldEncoders alias).
Proof.
  eexists. eexists. split; [reflexivity |]. split; [reflexivity |]. split; [reflexivity |].
  destruct (@plan_keeps_every_encoder specStringExtras asciiTables [] sparseMessage
              noParameters _ eq_refl) as (_ & _ & Hplan).
  apply (Hplan _ eq_refl).
Defined.

Example twin_fields_lose_a_separator :
  (fun alias => (map itemText (encoderItems 1 (ta_FieldEncoders alias)), encoderList alias))
    <$> @messageAlias specStringExtras asciiTables [] twinMessage noParameters
  = Ok (["(JE.int v.a)"; "(JE.int v.b)"], None).
Proof. reflexivity. Qed.

Example field_zero_puts_a_comma_first :
  (fun alias => (map itemText (encoderItems 1 (ta_FieldEncoders alias)), encoderList alias))
    <$> @messageAlias specStringExtras asciiTables [] zeroMessage noParameters
  = Ok ([", (JE.int v.a)"; "JE.null"; ", (JE.int v.b)"], None).
Proof. reflexivity. Qed.

Lemma decoder_reads_where_encoder_writes_witness :
  exists alias f,
    @messageAlias specStringExtras asciiTables [] sparseMessage noParameters = Ok alias
    /\ f ∈ ta_Fields alias /\ f ∈ ta_FieldEncoders alias
    /\ taf_Number f = 3
    /\ encodePlan alias !! 2%nat = Some (EncoderCall (taf_Encoder f))
    /\ String.prefix "idxWithDefault 2 " (taf_Decoder f) = true.
Proof.
  assert (Hnodup : NoDup (map field_Number (keptFields sparseMessage noParameters)))
    by (vm_compute; repeat constructor; set_solver).
  assert (Hpos : Forall (fun n => 1 <= n)
                        (map field_Number (keptFields sparseMessage noParameters)))
    by (vm_compute; repeat constructor; discriminate).
  assert (Hin : plainField "c" 3 TYPE_INT32 ∈ keptFields sparseMessage noParameters)
    by (do 2 right; left).
  destruct (@decoder_reads_where_encoder_writes specStringExtras asciiTables [] sparseMessage
              noParameters _ (plainField "c" 3 TYPE_INT32) eq_refl Hnodup Hpos Hin
              eq_refl eq_refl)
    as (f & Hfields & Hencoders & Hnumber & Hplan & Hdecoder).
  eexists. exists f. split; [reflexivity |]. repeat split; assumption.
Defined.

Lemma fieldDefault_falls_back_to_zero_value_witness :
  @fieldDefault specStringExtras asciiTables (plainField "a" 1 TYPE_INT32)
  = @BasicFieldDefaultValue specStringExtras asciiTables (plainField "a" 1 TYPE_INT32).
Proof.
  apply (@fieldDefault_falls_back_to_zero_value specStringExtras asciiTables
           (plainField "a" 1 TYPE_INT32)).
  - reflexivity.
  - discriminate.
  - discriminate.
Defined.

Lemma avoidCollision_avoids_reserved_words_witness :
  (default false (reservedKeywords !! "type") = true /\ avoidCollision "type" = "type_")
  /\ (default false (reservedKeywords !! "name") = false /\ avoidCollision "name" = "name").
Proof.
  assert (Htype : default false (reservedKeywords !! "type") = true) by (vm_compute; reflexivity).
  assert (Hname : default false (reservedKeywords !! "name") = false) by (vm_compute; reflexivity).
  split; (split; [assumption |]).
  - apply (proj2 (proj2 (proj2 (@avoidCollision_avoids_reserved_words specStringExtras "type")))
             Htype).
  - apply (proj1 (proj2 (proj2 (@avoidCollision_avoids_reserved_words specStringExtras "name")))
             Hname).
Defined.

Lemma ExternalType_drops_package_segments_witness :
  @ExternalType specStringExtras asciiTables ".pkg.Outer.Inner" = "Outer_Inner".
Proof.
  apply (@ExternalType_drops_package_segments specStringExtras asciiTables
           [""; "pkg"; "Outer"; "Inner"]).
  - discriminate.
  - repeat constructor.
Defined.

Lemma map_field_uses_the_entry_fields_witness :
  @fieldEntryOf specStringExtras asciiTables ["Tagged"] shortMessage tagsField
  = Panic (IndexOutOfRange 1 1)
  /\ exists e keyField valueField,
       @fieldEntryOf specStringExtras asciiTables ["Tagged"] taggedMessage tagsField = Ok e
       /\ msg_Field tagsEntry !! 0%nat = Some keyField
       /\ msg_Field tagsEntry !! 1%nat = Some valueField
       /\ exists k v enc dec,
            @BasicFieldType specStringExtras asciiTables keyField = Ok k
            /\ @BasicFieldType specStringExtras asciiTables valueField = Ok v
            /\ @BasicFieldEncoder specStringExtras asciiTables valueField = Ok enc
            /\ @BasicFieldDecoder specStringExtras asciiTables valueField = Ok dec
            /\ e = FieldAndEncoder
                     {| taf_Name := "tags"; taf_Type := "Dict.Dict " +:+ k +:+ " " +:+ v;
                        taf_Number := 3; taf_Default := "Nothing";
                        taf_Decoder := "mapEntries 3 " +:+ dec;
                        taf_Encoder := "mapEntriesFieldEncoder 3 " +:+ enc +:+ " v.tags" |}.
Proof.
  split.
  - apply (proj1 (@map_field_uses_the_entry_fields specStringExtras asciiTables ["Tagged"]
                    shortMessage tagsField shortEntry eq_refl eq_refl)).
    simpl. lia.
  - destruct (proj2 (@map_field_uses_the_entry_fields specStringExtras asciiTables ["Tagged"]
                       taggedMessage tagsField tagsEntry eq_refl eq_refl) _ eq_refl)
      as (keyField & valueField & k & v & enc & dec & Hkey & Hvalue & Hk & Hv & Henc & Hdec & He).
    eexists. exists keyField, valueField. split; [reflexivity |].
    split; [exact Hkey |]. split; [exact Hvalue |].
    exists k, v, enc, dec. repeat split; assumption.
Defined.

Lemma hasMapEntries_finds_every_map_witness :
  getNestedType tagsField taggedMessage = Some tagsEntry
  /\ hasMapEntries taggedFile = true.
Proof.
  split; [reflexivity |].
  apply (proj2 (hasMapEntries_finds_every_map taggedFile) taggedMessage tagsField tagsEntry).
  - left.
  - reflexivity.
Defined.

Lemma enums_with_kept_variants_resolve_witness :
  exists ts,
    @enumsToCustomTypes specStringExtras asciiTables ["Paint"]
      [colorEnum; emptyDeprecatedEnum] removeDeprecated = Ok ts
    /\ map ect_Name ts = ["Paint_Color"]
    /\ map ect_Variants ts = [[ {| ev_Name := "Paint_Green"; ev_Value := 1 |} ]].
Proof.
  apply (@enums_with_kept_variants_resolve specStringExtras asciiTables ["Paint"]
           [colorEnum; emptyDeprecatedEnum] removeDeprecated).
  repeat constructor; intros Hkept; discriminate.
Defined.

Example shapeKind_is_generated :
  @oneOfsToCustomTypes specStringExtras asciiTables ["Shape"] shapeMessage noParameters
  = Ok [shapeKind].
Proof. reflexivity. Qed.

Example colorType_is_generated :
  @enumsToCustomTypes specStringExtras asciiTables [] [colorEnum] noParameters = Ok [colorType].
Proof. reflexivity. Qed.

Lemma generateFiles_skips_excluded_files_witness :
  exists outs,
    @generateFiles specStringExtras asciiTables [timestampFile; shapesFile; sparseFile]
      noParameters initialExcludedFiles
    = Ok (outs, initialExcludedFiles)
    /\ map fst outs = ["Geo/Shapes.elm"; "Sparse.elm"].
Proof.
  eassert (Hrun : @generateFiles specStringExtras asciiTables
                     [timestampFile; shapesFile; sparseFile] noParameters initialExcludedFiles
                   = Ok (_, initialExcludedFiles)) by reflexivity.
  eexists. split; [exact Hrun |].
  apply (@generateFiles_skips_excluded_files specStringExtras asciiTables
           [timestampFile; shapesFile; sparseFile] noParameters initialExcludedFiles _ _ Hrun).
Defined.

Lemma parseParameters_grows_exclusions_witness :
  exists p excludedFiles',
    parseParameters (Some "debug,exclude=sparse.proto") initialExcludedFiles
    = Ok ((p, None), excludedFiles')
    /\ (forall k, default false (initialExcludedFiles !! k) = true ->
                  default false (excludedFiles' !! k) = true)
    /\ forallb knownParameter (GoStrings.Split "debug,exclude=sparse.proto" ",") = true.
Proof.
  eassert (Hrun : parseParameters (Some "debug,exclude=sparse.proto") initialExcludedFiles
                   = Ok ((_, None), _)) by reflexivity.
  destruct (parseParameters_grows_exclusions (Some "debug,exclude=sparse.proto")
              initialExcludedFiles _ None _ Hrun)
    as [Hgrows Herr].
  eexists. eexists. split; [exact Hrun |].
  split; [exact Hgrows |]. apply Herr. reflexivity.
Defined.

Lemma parameter_without_value_panics_witness :
  parseParameters (Some "debug,exclude,remove-deprecated") initialExcludedFiles
  = Panic (IndexOutOfRange 0 0).
Proof.
  apply (parameter_without_value_panics "debug,exclude,remove-deprecated" initialExcludedFiles
           "exclude").
  - vm_compute. right. left.
  - reflexivity.
Defined.

Lemma exclude_parameter_removes_the_file_witness :
  exists outs excludedFiles',
    @main specStringExtras asciiTables excludingRequest initialExcludedFiles
    = Ok (Response outs, excludedFiles')
    /\ default false (excludedFiles' !! "sparse.proto") = true
    /\ map fst outs
       = map (fun inFile => @fileName specStringExtras (file_Name inFile))
             (List.filter (fun inFile => notExcluded excludedFiles' (file_Name inFile))
                          (req_ProtoFile excludingRequest))
    /\ Forall (fun inFile => file_Name inFile <> "sparse.proto")
              (List.filter (fun inFile => notExcluded excludedFiles' (file_Name inFile))
                           (req_ProtoFile excludingRequest)).
Proof.
  eassert (Hrun : @main specStringExtras asciiTables excludingRequest initialExcludedFiles
                   = Ok (Response _, _)) by reflexivity.
  eexists. eexists. split; [exact Hrun |].
  apply (@exclude_parameter_removes_the_file specStringExtras asciiTables excludingRequest
           "debug,exclude=sparse.proto" initialExcludedFiles _ _
           "exclude=sparse.proto" "sparse.proto" [] Hrun).
  - reflexivity.
  - vm_compute. right. left.
  - reflexivity.
Defined.

Lemma main_is_fatal_on_unknown_parameters_witness :
  exists e excludedFiles',
    @main specStringExtras asciiTables verboseRequest initialExcludedFiles
    = Ok (Fatal ("Failed to parse parameters: " +:+ e), excludedFiles').
Proof.
  eassert (Hrun : @main specStringExtras asciiTables verboseRequest initialExcludedFiles
                   = Ok (_, _)) by reflexivity.
  destruct (proj2 (@main_is_fatal_on_unknown_parameters specStringExtras asciiTables
                     verboseRequest initialExcludedFiles _ _ Hrun)
              eq_refl)
    as [e He].
  exists e. eexists. rewrite <- He. exact Hrun.
Defined.

Lemma file_module_and_import_names_witness :
  @fileName specStringExtras "geo/shapes.proto" = "Geo/Shapes.elm"
  /\ @moduleName specStringExtras "my.api" "geo/shapes.proto" = "My.Api.Geo.Shapes"
  /\ @importOf specStringExtras "my.api" "geo/shapes.proto" = "my.api.Geo.Shapes"
  /\ @importOf specStringExtras "" "geo/shapes.proto"
     = "." +:+ @moduleName specStringExtras "" "geo/shapes.proto".
Proof.
  destruct (@file_module_and_import_names specStringExtras "my.api" ["geo"] "shapes")
    as (Hfile & Hmodule & Himport & _).
  { repeat constructor. }
  { reflexivity. }
  destruct (@file_module_and_import_names specStringExtras "" ["geo"] "shapes")
    as (_ & _ & _ & Hdot).
  { repeat constructor. }
  { reflexivity. }
  split; [exact Hfile |]. split; [exact Hmodule |]. split; [exact Himport |].
  apply Hdot. reflexivity.
Defined.


Lemma oneof_codec_round_trip_witness :
  exists alts,
    oneofDecoderAlternatives shapeKind = Some alts
    /\ JD_oneOf sampleDecoder alts (JArray [JNull; JString "round"])
       = Some (VariantValue "Shape_Label" (JString "round")).
Proof.
  eexists. split; [reflexivity |].
  apply (@oneof_codec_round_trip JValue sampleEncoder sampleDecoder shapeKind).
  - reflexivity.
  - vm_compute. repeat constructor; set_solver.
  - vm_compute. repeat constructor; set_solver.
  - intros u Hu _.
    apply elem_of_cons in Hu as [-> | Hu]; [reflexivity |].
    apply elem_of_cons in Hu as [-> | Hu]; [reflexivity |].
    apply elem_of_nil in Hu. destruct Hu.
  - right. exists {| ov_Name := "Shape_Label"; ov_Type := "String"; ov_Num := 2;
                     ov_Decoder := "JD.string"; ov_Encoder := "JE.string" |}, (JString "round").
    split; [reflexivity |]. split; [right; left |]. split; [simpl; lia |].
    split; [discriminate | reflexivity].
Defined.

Lemma BasicFieldDefaultValue_returns_witness :
  @BasicFieldDefaultValue specStringExtras asciiTables tagsField = Ok "[]".
Proof.
  apply (proj1 (@BasicFieldDefaultValue_returns specStringExtras asciiTables tagsField)).
  reflexivity.
Defined.

Lemma oneof_variants_are_the_kept_members_witness :
  exists t,
    @oneOfsToCustomTypes specStringExtras asciiTables ["Shape"] shapeMessage noParameters
    = Ok [t]
    /\ map ov_Num (oct_Variants t) = [1; 2]
    /\ Forall2 (fun fieldPb v =>
                  ov_Name v
                  = @NestedVariantName specStringExtras asciiTables (field_Name fieldPb) ["Shape"]
                  /\ ov_Num v = field_Number fieldPb
                  /\ @BasicFieldType specStringExtras asciiTables fieldPb = Ok (ov_Type v)
                  /\ @BasicFieldDecoder specStringExtras asciiTables fieldPb = Ok (ov_Decoder v)
                  /\ @BasicFieldEncoder specStringExtras asciiTables fieldPb = Ok (ov_Encoder v))
               (List.filter (memberOf 0) (keptFields shapeMessage noParameters))
               (oct_Variants t).
Proof.
  eexists. split; [reflexivity |]. split; [reflexivity |].
  destruct (proj2 (@oneof_variants_are_the_kept_members specStringExtras asciiTables ["Shape"]
                     shapeMessage noParameters) _ eq_refl eq_refl)
    as [_ Hmembers].
  apply (Hmembers 0%nat). reflexivity.
Defined.

Lemma parseParameters_later_elements_win_witness :
  exists p excludedFiles',
    parseParameters (Some "module-prefix=a,x=1,debug=no,module-prefix=b,y") initialExcludedFiles
    = Ok ((p, Some (unknownParameterError "y")), excludedFiles')
    /\ RemoveDeprecated p = false /\ Debug p = true /\ Version p = false
    /\ modPrefix p = "b".
Proof.
  eassert (Hrun : parseParameters (Some "module-prefix=a,x=1,debug=no,module-prefix=b,y")
                    initialExcludedFiles
                  = Ok ((_, Some (unknownParameterError "y")), _)) by reflexivity.
  destruct (parseParameters_later_elements_win _ _ _ _ _ Hrun)
    as (Hrd & Hdebug & Hversion & Hprefix & _).
  eexists. eexists. split; [exact Hrun |].
  split; [exact Hrd |]. split; [exact Hdebug |]. split; [exact Hversion | exact Hprefix].
Defined.
